(** * ZedKr gateway: the proxy route of [src/routes/proxy.ts] and the
      monetized-URL materializer of [utils/updateMonetizedUrls.ts]

    A shallow embedding of the request pipeline
    [resolve -> materialize -> gate -> forward -> log]:
    the Express handler [router.all('/:username/:apiName/*')],
    [handleDirectPayment], [handleBrowserPayment], [handleProxiedRequest]
    with its [onProxyReq] / [onProxyRes] / [onError] callbacks, and
    [updateMonetizedUrlForEndpoint].

    External collaborators (the x402-stacks payment middleware, the Supabase
    client, the origin server behind http-proxy-middleware, the paying axios
    client) are section variables: the handlers are functions of their
    answers.  Handlers run in a state-and-exception monad over the database,
    the console and the list of calls made to the collaborators.

    Further parts: the batch [updateMonetizedUrls] and its route
    POST /api/update-urls; the management routes of [src/routes/apis.ts]
    (POST, PUT and DELETE on /api/apis) and the routes register-wallet and
    set-username of the auth router, over the three tables [users], [apis]
    and [endpoints] that the proxy reads joined; the network
    configuration. *)

From Stdlib Require Import String Ascii List Bool Arith NArith ZArith Lia.
From Stdlib Require Import DecimalString.
From ExtLib Require Import Structures.Monad Structures.MonadExc.
Import ListNotations.
Import MonadNotation.
Local Open Scope string_scope.
Local Open Scope monad_scope.

Set Implicit Arguments.

(* ===================================================================== *)
(** ** JavaScript strings and truthiness                                  *)
(* ===================================================================== *)

Module Js.

(** [!!s] for a string: only the empty string is falsy. *)
Definition truthy (s : string) : bool :=
  match s with EmptyString => false | String _ _ => true end.

(** [!!v] for a value that is a string or [undefined] / [null]. *)
Definition truthy_opt (v : option string) : bool :=
  match v with Some s => truthy s | None => false end.

(** [a || d] with a string default. *)
Definition or_default (a : option string) (d : string) : string :=
  match a with
  | Some s => if truthy s then s else d
  | None => d
  end.

(** [s.includes(t)] *)
Fixpoint includes (t s : string) : bool :=
  if String.prefix t s then true
  else match s with
       | EmptyString => false
       | String _ r => includes t r
       end.

(** [c.toLowerCase()] on an ASCII letter. *)
Definition lower_ascii (c : ascii) : ascii :=
  let n := nat_of_ascii c in
  if ((65 <=? n)%nat && (n <=? 90)%nat)%bool then ascii_of_nat (n + 32) else c.

(** [s.toLowerCase()] *)
Fixpoint toLowerCase (s : string) : string :=
  match s with
  | EmptyString => EmptyString
  | String c r => String (lower_ascii c) (toLowerCase r)
  end.

End Js.

(* ===================================================================== *)
(** ** The human-readable price                                           *)
(* ===================================================================== *)

(** [(parseInt(price_microstx) / 1000000).toFixed(6).replace(/\.?0+$/, '')]
    (proxy.ts, line 79).

    [price_microstx] is an integer column; the quotient by [1000000] is a
    double, and [toFixed(6)] prints the decimal with six fractional digits
    nearest to it.  For a price below [2^33 * 10^6] the nearest six-digit
    decimal to the double is the exact quotient, so [toFixed(6)] is modelled
    on integers: integer part [n / 10^6], fractional part [n mod 10^6] on six
    digits. *)
Module Price.

Definition digit_char (d : N) : ascii :=
  ascii_of_N (48 + d mod 10).

(** The [k] low decimal digits of [m], most significant first. *)
Fixpoint fixed_digits (k : nat) (m : N) : string :=
  match k with
  | O => EmptyString
  | S k' => fixed_digits k' (m / 10) ++ String (digit_char m) EmptyString
  end.

(** [Number.prototype.toString] of a non-negative integer. *)
Definition int_to_string (n : N) : string :=
  NilZero.string_of_uint (N.to_uint n).

(** [(n / 1000000).toFixed(6)] *)
Definition toFixed6 (n : N) : string :=
  int_to_string (n / 1000000) ++ "." ++ fixed_digits 6 (n mod 1000000).

(** [s] consists of one or more ["0"] and nothing else: [/^0+$/]. *)
Fixpoint zeros_plus (s : string) : bool :=
  match s with
  | EmptyString => false
  | String c EmptyString => Ascii.eqb c "0"
  | String c r => Ascii.eqb c "0" && zeros_plus r
  end.

(** The whole of [s] matches [\.?0+$] from its first character. *)
Definition matches_here (s : string) : bool :=
  match s with
  | String "."%char r => zeros_plus r
  | _ => zeros_plus s
  end.

(** [s.replace(/\.?0+$/, '')]: the leftmost position from which the rest
    of the string matches is where the string is cut. *)
Fixpoint replace_trailing (s : string) : string :=
  if matches_here s then EmptyString
  else match s with
       | EmptyString => EmptyString
       | String c r => String c (replace_trailing r)
       end.

Definition priceSTX (price_microstx : N) : string :=
  replace_trailing (toFixed6 price_microstx).

(** The rendering in the words of the specification: the quotient
    [priceMicroUnits / 1_000_000] as a decimal whose trailing zeros are
    trimmed, the point going with them when no fractional digit is left. *)
Fixpoint trim_trailing_zeros (s : string) : string :=
  match s with
  | EmptyString => EmptyString
  | String c r =>
      match trim_trailing_zeros r with
      | EmptyString => if Ascii.eqb c "0" then EmptyString else String c EmptyString
      | r' => String c r'
      end
  end.

Definition decimal_trimmed (n : N) : string :=
  let frac := trim_trailing_zeros (fixed_digits 6 (n mod 1000000)) in
  int_to_string (n / 1000000) ++
  match frac with
  | EmptyString => EmptyString
  | _ => "." ++ frac
  end.

(** No character of [s] is the decimal point. *)
Fixpoint no_dot (s : string) : Prop :=
  match s with
  | EmptyString => True
  | String c r => c <> "."%char /\ no_dot r
  end.

End Price.

(* ===================================================================== *)
(** ** Data model                                                         *)
(* ===================================================================== *)

(** JSON values, as far as the handlers look into them. *)
#[warnings="-register-all"] Inductive Json : Type :=
| JNull
| JBool (b : bool)
| JNum (n : Z)
| JStr (s : string)
| JArr (l : list Json)
| JObj (fields : list (string * Json)).

Definition Fields := list (string * Json).

(** [o[k]] *)
Fixpoint field (k : string) (o : Fields) : option Json :=
  match o with
  | [] => None
  | (k', v) :: r => if String.eqb k' k then Some v else field k r
  end.

(** [o[k] = v]: an existing property keeps its place. *)
Fixpoint set_field (k : string) (v : Json) (o : Fields) : Fields :=
  match o with
  | [] => [(k, v)]
  | (k', v') :: r =>
      if String.eqb k' k then (k', v) :: r else (k', v') :: set_field k v r
  end.

(** [!!j] *)
Definition json_truthy (j : Json) : bool :=
  match j with
  | JNull => false
  | JBool b => b
  | JNum n => negb (Z.eqb n 0)
  | JStr s => Js.truthy s
  | JArr _ | JObj _ => true
  end.

Fixpoint indexed {A} (i : N) (l : list A) : list (string * A) :=
  match l with
  | [] => []
  | x :: r => (Price.int_to_string i, x) :: indexed (N.succ i) r
  end.

(** [{...j}]: the own enumerable properties of [j]. *)
Definition spread (j : Json) : Fields :=
  match j with
  | JObj fs => fs
  | JArr l => indexed 0 l
  | JStr s =>
      indexed 0 (map (fun c => JStr (String c EmptyString)) (list_ascii_of_string s))
  | _ => []
  end.

(** [Object.keys(j).length > 0] for a truthy [j]. *)
Definition has_keys (j : Json) : bool :=
  match spread j with [] => false | _ :: _ => true end.

(** Rows of the registry, already joined: [endpoints -> apis -> users]. *)
Record User := {
  username : option string;
  wallet_address : string
}.

Record Api := {
  api_id : string;
  api_name_slug : string;
  users : User
}.

Record Endpoint := {
  id : string;
  endpoint_path : string;
  original_url : string;
  price_microstx : N;
  active : bool;
  monetized_url : option string;
  apis : Api
}.

(** A row of [api_calls]. *)
Record CallRecord := {
  endpoint_id : string;
  caller_wallet : string;
  tx_hash : option string;
  amount_paid : N;
  status_code : option nat;
  latency_ms : option nat
}.

Record Database := {
  endpoints : list Endpoint;
  api_calls : list CallRecord
}.

(** [process.env] *)
Record Env := {
  NETWORK : option string;
  FACILITATOR_URL : option string;
  ZEDKR_DOMAIN : option string
}.

(** A query-string value as Express hands it over: a repeated name gives an
    array. *)
Inductive QVal : Type :=
| QStr (s : string)
| QArr (l : list string).

Definition qval_truthy (v : option QVal) : bool :=
  match v with
  | Some (QStr s) => Js.truthy s
  | Some (QArr _) => true
  | None => false
  end.

(** A parsed URL: [pathname] and the name/value pairs of the query, in
    order.  [req.originalUrl] is kept in this form; [req.query] and
    [new URL(req.originalUrl, ...).searchParams] both read the pairs. *)
Record Url := {
  pathname : string;
  searchParams : list (string * string)
}.

Record Request := {
  method : string;
  params_username : string;
  params_apiName : string;
  params_0 : string;
  originalUrl : Url;
  headers : list (string * string);
  body : option Json
}.

(** [req.query[k]] *)
Definition query_get (k : string) (req : Request) : option QVal :=
  match map snd (filter (fun p => String.eqb (fst p) k) (searchParams (originalUrl req))) with
  | [] => None
  | [v] => Some (QStr v)
  | vs => Some (QArr vs)
  end.

(** [req.headers[k]]; Node gives lower-case names, one entry per name. *)
Fixpoint header_get (k : string) (hs : list (string * string)) : option string :=
  match hs with
  | [] => None
  | (k', v) :: r => if String.eqb k' k then Some v else header_get k r
  end.

(** [res.setHeader(k, v)]: header names are compared without case. *)
Fixpoint set_header (k v : string) (hs : list (string * string)) : list (string * string) :=
  match hs with
  | [] => [(k, v)]
  | (k', v') :: r =>
      if String.eqb (Js.toLowerCase k') (Js.toLowerCase k) then (k, v) :: r
      else (k', v') :: set_header k v r
  end.

(** The payment attached to the request by the gate ([getPayment(req)]) or
    rebuilt from the [payment-response] header. *)
Record Payment := {
  payer : string;
  transaction : option string;
  network : string
}.

(** Options given to [paymentMiddleware]. *)
Record MwConfig := {
  mw_amount : string;
  mw_payTo : string;
  mw_network : string;
  mw_facilitatorUrl : string;
  mw_description : string
}.

(** What [paymentMw(req, res, next)] does: it calls [next()], after which
    [getPayment(req)] gives [payment], or it answers itself through
    [res.status(status).json(body)]. *)
Inductive MwOutcome : Type :=
| MwNext (payment : option Payment)
| MwJson (status : nat) (body : Fields).

(** The request written to the origin by http-proxy-middleware. *)
Record ProxyRequest := {
  px_target : string;
  px_path : string;
  px_method : string;
  px_headers : list (string * string);
  px_body : option string
}.

Record JsError := {
  err_message : string;
  err_response : option (nat * Json)
}.

Inductive OriginOutcome : Type :=
| OriginResponse (status : nat) (hs : list (string * string)) (payload : string)
| OriginError (e : JsError).

(** The account made from the caller's private key. *)
Record Account := {
  address : string;
  secretKey : QVal
}.

(** The request sent by [api.get(requestPath)] on the paying axios
    instance. *)
Record PaidGet := {
  g_method : string;
  g_baseURL : string;
  g_timeout : N;
  g_path : string;
  g_headers : list (string * string);
  g_body : option Json;
  g_account : Account
}.

Inductive AxiosOutcome : Type :=
| AxResponse (status : nat) (hs : list (string * string)) (data : Json)
| AxError (e : JsError).

(** The decoded [payment-response] header. *)
Record PaymentData := {
  pd_payer : option string;
  pd_transaction : option string;
  pd_network : option string
}.

(** The receipt put into the [payment-response] header. *)
Record Receipt := {
  rc_success : bool;
  rc_transaction : option string;
  rc_payer : string;
  rc_network : string
}.

(** The page sent by [handleBrowserPayment]: the values interpolated into
    its template. *)
Record BrowserPage := {
  bp_paymentInfo : option Json;
  bp_amountMicroSTX : Json;
  bp_payTo : string;
  bp_network : string;
  bp_endpointUrl : string
}.

Inductive Body : Type :=
| BJson (j : Json)
| BHtml (page : BrowserPage)
| BUpstream (payload : string).

(** What the caller receives. *)
Record Response := {
  statusCode : nat;
  resHeaders : list (string * string);
  resBody : Body
}.

(** Calls made to the collaborators, in the order they are made. *)
Inductive Event : Type :=
| EvMaterialize (endpointId : string)
| EvGate (cfg : MwConfig) (out : MwOutcome)
| EvLedgerInsert (r : CallRecord)
| EvLedgerUpdate (key : option string) (status : nat) (latency : nat)
| EvForward (p : ProxyRequest)
| EvReissue (g : PaidGet).

Inductive Level := LError | LWarn.

Record LogEntry := {
  level : Level;
  text : string;
  detail : option JsError
}.

(** How a Supabase call can go wrong: the promise fulfils with
    [{ error }], or it rejects. *)
Inductive Fault : Type :=
| NoFault
| ErrorResult (e : JsError)
| Rejects (e : JsError).

Inductive DbOp :=
| OpResolve
| OpMaterializeFetch
| OpMaterializeUpdate
| OpLedgerInsert
| OpLedgerUpdate
| OpDirectInsert.

(* ===================================================================== *)
(** ** The handler monad                                                  *)
(* ===================================================================== *)

Record World := {
  db : Database;
  console : list LogEntry;
  calls : list Event
}.

Definition M (A : Type) : Type := World -> (JsError + A) * World.

Definition m_ret {A} (a : A) : M A := fun w => (inr a, w).

Definition m_bind {A B} (c : M A) (k : A -> M B) : M B :=
  fun w =>
    match c w with
    | (inr a, w') => k a w'
    | (inl e, w') => (inl e, w')
    end.

(** [throw e] *)
Definition m_raise {A} (e : JsError) : M A := fun w => (inl e, w).

(** [try { c } catch (e) { h e }]: what [c] did before throwing stays. *)
Definition m_catch {A} (c : M A) (h : JsError -> M A) : M A :=
  fun w =>
    match c w with
    | (inr a, w') => (inr a, w')
    | (inl e, w') => h e w'
    end.

#[export] Instance Monad_M : Monad M :=
  { ret := @m_ret; bind := @m_bind }.

#[export] Instance Exc_M : MonadExc JsError M :=
  { raise := @m_raise; catch := @m_catch }.

Definition emit (e : Event) : M unit :=
  fun w => (inr tt, {| db := db w; console := console w; calls := calls w ++ [e] |}).

Definition log (l : Level) (t : string) (d : option JsError) : M unit :=
  fun w => (inr tt, {| db := db w;
                       console := console w ++ [{| level := l; text := t; detail := d |}];
                       calls := calls w |}).

Definition read_db : M Database := fun w => (inr (db w), w).

Definition write_db (d : Database) : M unit :=
  fun w => (inr tt, {| db := d; console := console w; calls := calls w |}).

(** [Promise.resolve(p).then(() => {}).catch(h)], not awaited: a rejection
    of [p] goes to [h] and nowhere else. *)
Definition detached (p : M unit) (h : JsError -> M unit) : M unit :=
  catch p h.

(* ===================================================================== *)
(** ** The Supabase client                                                *)
(* ===================================================================== *)

(** The [{ data, error }] pair of a query. *)
Record QueryResult (A : Type) := {
  data : option A;
  error : option JsError
}.

Arguments data {A}.
Arguments error {A}.

Definition no_rows : JsError :=
  {| err_message := "JSON object requested, multiple (or no) rows returned";
     err_response := None |}.

(** [.select(...).eq(...)....single()]: exactly one row, or an error. *)
Definition select_single (ft : Fault) (p : Endpoint -> bool) : M (QueryResult Endpoint) :=
  match ft with
  | Rejects e => raise e
  | ErrorResult e => ret {| data := None; error := Some e |}
  | NoFault =>
      d <- read_db ;;
      match filter p (endpoints d) with
      | [row] => ret {| data := Some row; error := None |}
      | _ => ret {| data := None; error := Some no_rows |}
      end
  end.

Definition set_monetized_url (endpointId url : string) (e : Endpoint) : Endpoint :=
  if String.eqb (id e) endpointId then
    {| id := id e; endpoint_path := endpoint_path e; original_url := original_url e;
       price_microstx := price_microstx e; active := active e;
       monetized_url := Some url; apis := apis e |}
  else e.

(** [.from('endpoints').update({ monetized_url }).eq('id', endpointId)] *)
Definition update_monetized_url (ft : Fault) (endpointId url : string) : M (option JsError) :=
  match ft with
  | Rejects e => raise e
  | ErrorResult e => ret (Some e)
  | NoFault =>
      d <- read_db ;;
      write_db {| endpoints := map (set_monetized_url endpointId url) (endpoints d);
                  api_calls := api_calls d |} ;;
      ret None
  end.

(** [.from('api_calls').insert(row)] *)
Definition insert_call (ft : Fault) (row : CallRecord) : M (option JsError) :=
  emit (EvLedgerInsert row) ;;
  match ft with
  | Rejects e => raise e
  | ErrorResult e => ret (Some e)
  | NoFault =>
      d <- read_db ;;
      write_db {| endpoints := endpoints d; api_calls := api_calls d ++ [row] |} ;;
      ret None
  end.

Definition opt_string_eqb (a b : option string) : bool :=
  match a, b with
  | Some x, Some y => String.eqb x y
  | _, _ => false
  end.

Definition set_outcome (key : option string) (status latency : nat) (r : CallRecord) : CallRecord :=
  if opt_string_eqb (tx_hash r) key then
    {| endpoint_id := endpoint_id r; caller_wallet := caller_wallet r;
       tx_hash := tx_hash r; amount_paid := amount_paid r;
       status_code := Some status; latency_ms := Some latency |}
  else r.

(** [.from('api_calls').update({ status_code, latency_ms }).eq('tx_hash', key)] *)
Definition update_call (ft : Fault) (key : option string) (status latency : nat) : M (option JsError) :=
  emit (EvLedgerUpdate key status latency) ;;
  match ft with
  | Rejects e => raise e
  | ErrorResult e => ret (Some e)
  | NoFault =>
      d <- read_db ;;
      write_db {| endpoints := endpoints d;
                  api_calls := map (set_outcome key status latency) (api_calls d) |} ;;
      ret None
  end.

(* ===================================================================== *)
(** ** The monetized-URL materializer (utils/updateMonetizedUrls.ts)      *)
(* ===================================================================== *)

Definition default_domain : string := "https://zedkr.up.railway.app".

(** [`${ZEDKR_DOMAIN}/${user.username}/${api.api_name_slug}/${endpoint.endpoint_path}`] *)
Definition monetizedUrl (domain user slug path : string) : string :=
  domain ++ "/" ++ user ++ "/" ++ slug ++ "/" ++ path.

(** Lines 634-670 of [updateMonetizedUrlForEndpoint]: read the row and
    decide what to write.  [None]: the function returns without writing. *)
Definition materializer_read (env : Env) (ft : Fault) (endpointId : string) : M (option string) :=
  r <- select_single ft (fun e => String.eqb (id e) endpointId) ;;
  match error r, data r with
  | None, Some endpoint =>
      if Js.truthy_opt (monetized_url endpoint) then ret None
      else
        let api := apis endpoint in
        let user := users api in
        match username user with
        | Some name =>
            if negb (Js.truthy name) || negb (Js.truthy (api_name_slug api))
               || negb (Js.truthy (endpoint_path endpoint))
            then
              log LWarn "Cannot generate monetized URL for endpoint: missing username, api_name_slug, or endpoint_path" None ;;
              ret None
            else
              let domain := Js.or_default (ZEDKR_DOMAIN env) default_domain in
              ret (Some (monetizedUrl domain name (api_name_slug api) (endpoint_path endpoint)))
        | None =>
            log LWarn "Cannot generate monetized URL for endpoint: missing username, api_name_slug, or endpoint_path" None ;;
            ret None
        end
  | fetchError, _ =>
      log LError "Error fetching endpoint:" fetchError ;;
      ret None
  end.

(** Lines 672-679: the update by [id] and the report of its error. *)
Definition materializer_write (ft : Fault) (endpointId url : string) : M unit :=
  updateError <- update_monetized_url ft endpointId url ;;
  match updateError with
  | Some e => log LError "Error updating monetized URL for endpoint" (Some e)
  | None => ret tt
  end.

Definition materializer_catch (e : JsError) : M unit :=
  log LError "Error in updateMonetizedUrlForEndpoint:" (Some e).

Definition updateMonetizedUrlForEndpoint
    (env : Env) (ft_fetch ft_update : Fault) (endpointId : string) : M unit :=
  catch
    (w <- materializer_read env ft_fetch endpointId ;;
     match w with
     | Some url => materializer_write ft_update endpointId url
     | None => ret tt
     end)
    materializer_catch.

(** *** Two materializations at once

    Each of the two awaited Supabase calls is one atomic step on the
    database; between the read and the write of one call the other call may
    run.  A call is at its read, at its write (holding the URL it computed),
    or done. *)
Inductive MatPc : Type :=
| AtRead
| AtWrite (url : string)
| MatDone.

Record MatFaults := {
  on_fetch : Fault;
  on_update : Fault
}.

Definition materializer_step
    (env : Env) (fts : MatFaults) (endpointId : string) (pc : MatPc) : M MatPc :=
  match pc with
  | AtRead =>
      catch
        (w <- materializer_read env (on_fetch fts) endpointId ;;
         match w with
         | Some url => ret (AtWrite url)
         | None => ret MatDone
         end)
        (fun e => materializer_catch e ;; ret MatDone)
  | AtWrite url =>
      catch (materializer_write (on_update fts) endpointId url) materializer_catch ;;
      ret MatDone
  | MatDone => ret MatDone
  end.

Record Race := {
  pc_a : MatPc;
  pc_b : MatPc;
  world : World
}.

(** One step of the call chosen by the scheduler ([true]: the first). *)
Definition race_step
    (env : Env) (fa fb : MatFaults) (endpointId : string) (first : bool) (r : Race) : Race :=
  if first then
    match materializer_step env fa endpointId (pc_a r) (world r) with
    | (inr pc, w) => {| pc_a := pc; pc_b := pc_b r; world := w |}
    | (inl _, w) => {| pc_a := MatDone; pc_b := pc_b r; world := w |}
    end
  else
    match materializer_step env fb endpointId (pc_b r) (world r) with
    | (inr pc, w) => {| pc_a := pc_a r; pc_b := pc; world := w |}
    | (inl _, w) => {| pc_a := pc_a r; pc_b := MatDone; world := w |}
    end.

Fixpoint race
    (env : Env) (fa fb : MatFaults) (endpointId : string) (schedule : list bool) (r : Race) : Race :=
  match schedule with
  | [] => r
  | first :: rest => race env fa fb endpointId rest (race_step env fa fb endpointId first r)
  end.

Definition race_start (w : World) : Race :=
  {| pc_a := AtRead; pc_b := AtRead; world := w |}.

Definition no_faults : MatFaults := {| on_fetch := NoFault; on_update := NoFault |}.

(** The stored [monetized_url] of the endpoint [endpointId], when there is
    exactly one such row. *)
Definition stored_url (endpointId : string) (d : Database) : option (option string) :=
  match filter (fun e => String.eqb (id e) endpointId) (endpoints d) with
  | [row] => Some (monetized_url row)
  | _ => None
  end.

(** The URL a first materialization writes for [row], owned by [name]. *)
Definition materialized (env : Env) (row : Endpoint) (name : string) : string :=
  monetizedUrl (Js.or_default (ZEDKR_DOMAIN env) default_domain) name
               (api_name_slug (apis row)) (endpoint_path row).

(** What holds of a call at every moment of a race towards the table
    [after]: a call at its write holds [url]; a call without faults that is
    done has left the table at [after]. *)
Definition pc_ok (url : string) (after : list Endpoint)
    (fts : MatFaults) (pc : MatPc) (w : World) : Prop :=
  match pc with
  | AtRead => True
  | AtWrite u => u = url
  | MatDone => fts = no_faults -> endpoints (db w) = after
  end.

Definition race_ok (url : string) (before after : list Endpoint) (ledger : list CallRecord)
    (fa fb : MatFaults) (r : Race) : Prop :=
  (endpoints (db (world r)) = before \/ endpoints (db (world r)) = after)
  /\ api_calls (db (world r)) = ledger
  /\ pc_ok url after fa (pc_a r) (world r)
  /\ pc_ok url after fb (pc_b r) (world r).

(* ===================================================================== *)
(** ** The proxy route (routes/proxy.ts)                                  *)
(* ===================================================================== *)

(** The columns the route selects (lines 22-36).  [monetized_url],
    [endpoint_name] and [apis.api_name] are not among them: reading them
    from the row gives [undefined]. *)
Record ResolvedEndpoint := {
  re_id : string;
  re_endpoint_path : string;
  re_original_url : string;
  re_price_microstx : N;
  re_active : bool;
  re_api_id : string;
  re_api_name_slug : string;
  re_username : option string;
  re_wallet_address : string
}.

Definition select_columns (e : Endpoint) : ResolvedEndpoint :=
  {| re_id := id e;
     re_endpoint_path := endpoint_path e;
     re_original_url := original_url e;
     re_price_microstx := price_microstx e;
     re_active := active e;
     re_api_id := api_id (apis e);
     re_api_name_slug := api_name_slug (apis e);
     re_username := username (users (apis e));
     re_wallet_address := wallet_address (users (apis e)) |}.

Definition re_monetized_url (e : ResolvedEndpoint) : option string := None.
Definition re_endpoint_name (e : ResolvedEndpoint) : option string := None.
Definition re_api_name (e : ResolvedEndpoint) : option string := None.

(** [(req as any).endpointConfig] *)
Record EndpointConfig := {
  cfg_id : string;
  cfg_price_microstx : N;
  cfg_developer_wallet : string;
  cfg_original_url : string
}.

(** The parts of [new URL(original_url)] the proxy uses. *)
Record TargetUrl := {
  t_protocol : string;
  t_host : string;
  t_pathname : string;
  t_search : string
}.

Definition json_response (status : nat) (j : Json) : Response :=
  {| statusCode := status; resHeaders := []; resBody := BJson j |}.

Definition failure (msg : string) : Json :=
  JObj [("success", JBool false); ("error", JStr msg)].

(** The answer to an unresolved request (lines 44-47). *)
Definition not_found : Response := json_response 404 (failure "Endpoint not found").

(** The three names of the address: owner, API slug, endpoint path. *)
Definition names_match (user slug path : string) (e : Endpoint) : bool :=
  opt_string_eqb (username (users (apis e))) (Some user)
  && String.eqb (api_name_slug (apis e)) slug
  && String.eqb (endpoint_path e) path.

(** The filter of the resolving query (lines 37-40). *)
Definition resolves (user slug path : string) (e : Endpoint) : bool :=
  names_match user slug path e && Bool.eqb (active e) true.

(** [req.query.privateKey as string || req.headers['x-private-key'] as string]
    (line 67), kept when it passes [if (privateKey)] (line 69). *)
Definition privateKey_of (req : Request) : option QVal :=
  let q := query_get "privateKey" req in
  if qval_truthy q then q
  else match header_get "x-private-key" (headers req) with
       | Some h => if Js.truthy h then Some (QStr h) else None
       | None => None
       end.

(** [url.searchParams.delete(name)] *)
Definition searchParams_delete (name : string) (ps : list (string * string)) : list (string * string) :=
  filter (fun p => negb (String.eqb (fst p) name)) ps.

Section Gateway.

(** [process.env], read at each use. *)
Variable env : Env.
(** How each Supabase call of the request goes. *)
Variable db_fault : DbOp -> Fault.
(** x402-stacks: [paymentMiddleware(options)] applied to the request. *)
Variable paymentMiddleware : MwConfig -> Request -> MwOutcome.
(** The origin server as seen through http-proxy-middleware, and the time
    it took in milliseconds ([Date.now() - startTime]). *)
Variable origin : ProxyRequest -> OriginOutcome.
Variable elapsed : ProxyRequest -> nat.
(** [new URL(s)]; [None] when it throws. *)
Variable parseURL : string -> option TargetUrl.
Variable JSON_stringify : Json -> string.
(** [Buffer.from(JSON.stringify(receipt)).toString('base64')] *)
Variable encodeReceipt : Receipt -> string.
(** x402-stacks: [privateKeyToAccount(privateKey, network)]. *)
Variable privateKeyToAccount : QVal -> string -> JsError + Account.
(** The axios instance wrapped by [wrapAxiosWithPayment]. *)
Variable paidGet : PaidGet -> AxiosOutcome.
(** [JSON.parse(Buffer.from(h, 'base64').toString())]; [None] when it
    throws. *)
Variable decodePaymentResponse : string -> option PaymentData.
(** The serializer of [URLSearchParams]. *)
Variable formEncode : list (string * string) -> string.
(** [Date.now() - startTime] in [handleDirectPayment] (lines 197, 204). *)
Variable direct_elapsed : nat.

Definition network_of_env : string := Js.or_default (NETWORK env) "testnet".

(** [url.search] *)
Definition search (ps : list (string * string)) : string :=
  match ps with
  | [] => EmptyString
  | _ :: _ => "?" ++ formEncode ps
  end.

(** Lines 151-154: the path of the paid request. *)
Definition requestPath (req : Request) : string :=
  let url := originalUrl req in
  let params := searchParams_delete "privateKey" (searchParams url) in
  pathname url ++ search params.

(** Lines 160-186: the payment as told by the [payment-response] header. *)
Definition payment_of_response (hs : list (string * string)) (payerAddress : string) : Payment :=
  let fallback :=
    {| payer := payerAddress; transaction := Some EmptyString; network := network_of_env |} in
  match header_get "payment-response" hs with
  | Some h =>
      if Js.truthy h then
        match decodePaymentResponse h with
        | Some paymentData =>
            {| payer := Js.or_default (pd_payer paymentData) payerAddress;
               transaction := Some (Js.or_default (pd_transaction paymentData) EmptyString);
               network := Js.or_default (pd_network paymentData) network_of_env |}
        | None => fallback
        end
      else fallback
  | None => fallback
  end.

Definition handleDirectPayment
    (req : Request) (endpointConfig : EndpointConfig) (privateKey : QVal) : M Response :=
  catch
    (match privateKeyToAccount privateKey network_of_env with
     | inl e => raise e
     | inr account =>
         let payerAddress := address account in
         let get :=
           {| g_method := "GET";
              g_baseURL := Js.or_default (ZEDKR_DOMAIN env) default_domain;
              g_timeout := 60000%N;
              g_path := requestPath req;
              g_headers := [];
              g_body := None;
              g_account := account |} in
         emit (EvReissue get) ;;
         match paidGet get with
         | AxError e => raise e
         | AxResponse status hs data =>
             let payment := payment_of_response hs payerAddress in
             let response := json_response status data in
             (if Js.truthy_opt (transaction payment) then
                detached
                  (insert_call (db_fault OpDirectInsert)
                     {| endpoint_id := cfg_id endpointConfig;
                        caller_wallet := payer payment;
                        tx_hash := transaction payment;
                        amount_paid := cfg_price_microstx endpointConfig;
                        status_code := Some status;
                        latency_ms := Some direct_elapsed |} ;;
                   ret tt)
                  (fun e => log LError "Error logging API call:" (Some e))
              else ret tt) ;;
             ret response
         end
     end)
    (fun e =>
       log LError "Direct payment error:" (Some e) ;;
       match err_response e with
       | Some (status, data) => ret (json_response status data)
       | None =>
           ret (json_response 500
                  (failure ("Failed to process payment with private key: " ++ err_message e)))
       end).

(** [paymentData.accepts?.[0]] *)
Definition first_accept (paymentData : Fields) : option Json :=
  match field "accepts" paymentData with
  | Some (JArr (a :: _)) => Some a
  | Some (JStr (String c _)) => Some (JStr (String c EmptyString))
  | _ => None
  end.

(** [paymentInfo?.amount] *)
Definition amount_of (paymentInfo : option Json) : option Json :=
  match paymentInfo with
  | Some (JObj fs) => field "amount" fs
  | _ => None
  end.

Definition handleBrowserPayment
    (req : Request) (endpoint : ResolvedEndpoint) (paymentData : Fields)
    (priceSTX developerWallet network facilitatorUrl : string) : Response :=
  let endpointUrl := pathname (originalUrl req) in
  let paymentInfo := first_accept paymentData in
  let amountMicroSTX :=
    match amount_of paymentInfo with
    | Some a => if json_truthy a then a else JNum (Z.of_N (re_price_microstx endpoint))
    | None => JNum (Z.of_N (re_price_microstx endpoint))
    end in
  {| statusCode := 402;
     resHeaders := [("Content-Type", "text/html")];
     resBody := BHtml {| bp_paymentInfo := paymentInfo;
                         bp_amountMicroSTX := amountMicroSTX;
                         bp_payTo := developerWallet;
                         bp_network := network;
                         bp_endpointUrl := endpointUrl |} |}.

(** Lines 443-461: what is written to the origin. *)
Definition onProxyReq (req : Request) (t : TargetUrl) : ProxyRequest :=
  let forwarded :=
    filter (fun kv => negb (String.eqb (Js.toLowerCase (fst kv)) "host") && Js.truthy (snd kv))
           (headers req) in
  let target := t_protocol t ++ "//" ++ t_host t in
  let path := t_pathname t ++ t_search t in
  match body req with
  | Some b =>
      if json_truthy b && has_keys b then
        let bodyData := JSON_stringify b in
        {| px_target := target; px_path := path; px_method := method req;
           px_headers :=
             set_header "Content-Length"
               (Price.int_to_string (N.of_nat (String.length bodyData)))
               (set_header "Content-Type" "application/json" forwarded);
           px_body := Some bodyData |}
      else
        {| px_target := target; px_path := path; px_method := method req;
           px_headers := forwarded; px_body := None |}
  | None =>
      {| px_target := target; px_path := path; px_method := method req;
         px_headers := forwarded; px_body := None |}
  end.

(** Lines 462-498.  Nothing has been written to [res] when the proxy
    announces the upstream response, so [res.headersSent] is false.  The
    result is the headers set on [res]. *)
Definition onProxyRes (payment : option Payment) (status latency : nat) : M (list (string * string)) :=
  let set :=
    match payment with
    | Some p =>
        set_header "payment-response"
          (encodeReceipt {| rc_success := true;
                            rc_transaction := transaction p;
                            rc_payer := payer p;
                            rc_network := network p |}) []
    | None => []
    end in
  match payment with
  | Some p =>
      detached
        (update_call (db_fault OpLedgerUpdate) (transaction p) status latency ;; ret tt)
        (fun e => log LError "Error updating API call log:" (Some e))
  | None => ret tt
  end ;;
  ret set.

Definition handleProxiedRequest
    (req : Request) (payment : option Payment) (endpointConfig : EndpointConfig) : M Response :=
  catch
    (match payment with
     | Some p =>
         insert_call (db_fault OpLedgerInsert)
           {| endpoint_id := cfg_id endpointConfig;
              caller_wallet := payer p;
              tx_hash := transaction p;
              amount_paid := cfg_price_microstx endpointConfig;
              status_code := None;
              latency_ms := None |} ;;
         ret tt
     | None => ret tt
     end ;;
     match parseURL (cfg_original_url endpointConfig) with
     | None => ret (json_response 400 (failure "Invalid target URL"))
     | Some targetUrlObj =>
         let proxyReq := onProxyReq req targetUrlObj in
         emit (EvForward proxyReq) ;;
         match origin proxyReq with
         | OriginResponse status hs payload =>
             set <- onProxyRes payment status (elapsed proxyReq) ;;
             ret {| statusCode := status;
                    resHeaders := fold_left (fun acc kv => set_header (fst kv) (snd kv) acc) hs set;
                    resBody := BUpstream payload |}
         | OriginError e =>
             log LError "Proxy error:" (Some e) ;;
             ret (json_response 502 (failure "Failed to proxy request to target API"))
         end
     end)
    (fun e =>
       log LError "Handle proxied request error:" (Some e) ;;
       ret (json_response 500 (failure "Internal server error"))).

(** Lines 99-113: [res.json] as replaced by the route. *)
Definition res_json
    (req : Request) (endpoint : ResolvedEndpoint)
    (priceSTX developerWallet network facilitatorUrl : string)
    (isBrowserRequest hasPaymentSignature : bool)
    (status : nat) (body : Fields) : Response :=
  if (status =? 402)%nat && isBrowserRequest && negb hasPaymentSignature then
    handleBrowserPayment req endpoint body priceSTX developerWallet network facilitatorUrl
  else
    match (status =? 402)%nat, field "accepts" body with
    | true, Some (JArr accepts) =>
        json_response status
          (JObj (set_field "accepts"
                   (JArr (map (fun accept => JObj (set_field "amountSTX" (JStr priceSTX) (spread accept)))
                              accepts))
                   body))
    | _, _ => json_response status (JObj body)
    end.

(** [router.all('/:username/:apiName/*', ...)] *)
Definition route (req : Request) : M Response :=
  catch
    (let username := params_username req in
     let apiName := params_apiName req in
     let endpointPath := params_0 req in
     r <- select_single (db_fault OpResolve) (resolves username apiName endpointPath) ;;
     match error r, data r with
     | None, Some endpointData =>
         let endpoint := select_columns endpointData in
         let developerWallet := re_wallet_address endpoint in
         (if negb (Js.truthy_opt (re_monetized_url endpoint)) then
            emit (EvMaterialize (re_id endpoint)) ;;
            updateMonetizedUrlForEndpoint env
              (db_fault OpMaterializeFetch) (db_fault OpMaterializeUpdate) (re_id endpoint)
          else ret tt) ;;
         let endpointConfig :=
           {| cfg_id := re_id endpoint;
              cfg_price_microstx := re_price_microstx endpoint;
              cfg_developer_wallet := developerWallet;
              cfg_original_url := re_original_url endpoint |} in
         match privateKey_of req with
         | Some privateKey => handleDirectPayment req endpointConfig privateKey
         | None =>
             let network := network_of_env in
             let facilitatorUrl :=
               Js.or_default (FACILITATOR_URL env) "https://facilitator.stacksx402.com" in
             let priceSTX := Price.priceSTX (re_price_microstx endpoint) in
             let options :=
               {| mw_amount := Price.int_to_string (re_price_microstx endpoint);
                  mw_payTo := developerWallet;
                  mw_network := network;
                  mw_facilitatorUrl := facilitatorUrl;
                  mw_description :=
                    Js.or_default (re_endpoint_name endpoint) "API endpoint" ++ " - "
                    ++ Js.or_default (re_api_name endpoint) "ZedKr API" |} in
             let isBrowserRequest :=
               match header_get "accept" (headers req) with
               | Some a => Js.includes "text/html" a
               | None => false
               end in
             let hasPaymentSignature :=
               Js.truthy_opt (header_get "payment-signature" (headers req))
               || qval_truthy (query_get "paymentSignature" req) in
             let outcome := paymentMiddleware options req in
             emit (EvGate options outcome) ;;
             match outcome with
             | MwNext payment => handleProxiedRequest req payment endpointConfig
             | MwJson status body =>
                 ret (res_json req endpoint priceSTX developerWallet network facilitatorUrl
                        isBrowserRequest hasPaymentSignature status body)
             end
         end
     | _, _ => ret (json_response 404 (failure "Endpoint not found"))
     end)
    (fun e =>
       log LError "Proxy routing error:" (Some e) ;;
       ret (json_response 500 (failure "Internal server error"))).

Definition fresh (d : Database) : World :=
  {| db := d; console := []; calls := [] |}.

(** One request served on the database [d]. *)
Definition serve (req : Request) (d : Database) : (JsError + Response) * World :=
  route req (fresh d).

(** *** The runs of the handlers

    What a handler answers and which calls it makes, case by case.  The
    handlers are shown below to run in exactly these ways. *)

Definition admission_row (endpointConfig : EndpointConfig) (p : Payment) : CallRecord :=
  {| endpoint_id := cfg_id endpointConfig;
     caller_wallet := payer p;
     tx_hash := transaction p;
     amount_paid := cfg_price_microstx endpointConfig;
     status_code := None;
     latency_ms := None |}.

Definition admission (payment : option Payment) (endpointConfig : EndpointConfig) : list Event :=
  match payment with
  | Some p => [EvLedgerInsert (admission_row endpointConfig p)]
  | None => []
  end.

Definition completion (payment : option Payment) (status latency : nat) : list Event :=
  match payment with
  | Some p => [EvLedgerUpdate (transaction p) status latency]
  | None => []
  end.

Definition receipt_of (p : Payment) : Receipt :=
  {| rc_success := true;
     rc_transaction := transaction p;
     rc_payer := payer p;
     rc_network := network p |}.

Definition receipt_headers (payment : option Payment) : list (string * string) :=
  match payment with
  | Some p => [("payment-response", encodeReceipt (receipt_of p))]
  | None => []
  end.

Definition relayed (payment : option Payment) (status : nat)
    (hs : list (string * string)) (payload : string) : Response :=
  {| statusCode := status;
     resHeaders := fold_left (fun acc kv => set_header (fst kv) (snd kv) acc) hs
                             (receipt_headers payment);
     resBody := BUpstream payload |}.

Inductive ProxiedRun (req : Request) (payment : option Payment) (endpointConfig : EndpointConfig)
  : Response -> list Event -> Prop :=
| RunInsertRejected p e :
    payment = Some p ->
    db_fault OpLedgerInsert = Rejects e ->
    ProxiedRun req payment endpointConfig
      (json_response 500 (failure "Internal server error"))
      (admission payment endpointConfig)
| RunBadTarget :
    (payment = None \/ forall e, db_fault OpLedgerInsert <> Rejects e) ->
    parseURL (cfg_original_url endpointConfig) = None ->
    ProxiedRun req payment endpointConfig
      (json_response 400 (failure "Invalid target URL"))
      (admission payment endpointConfig)
| RunOriginError t e :
    (payment = None \/ forall e, db_fault OpLedgerInsert <> Rejects e) ->
    parseURL (cfg_original_url endpointConfig) = Some t ->
    origin (onProxyReq req t) = OriginError e ->
    ProxiedRun req payment endpointConfig
      (json_response 502 (failure "Failed to proxy request to target API"))
      (admission payment endpointConfig ++ [EvForward (onProxyReq req t)])
| RunRelayed t status hs payload :
    (payment = None \/ forall e, db_fault OpLedgerInsert <> Rejects e) ->
    parseURL (cfg_original_url endpointConfig) = Some t ->
    origin (onProxyReq req t) = OriginResponse status hs payload ->
    ProxiedRun req payment endpointConfig
      (relayed payment status hs payload)
      (admission payment endpointConfig
       ++ [EvForward (onProxyReq req t)]
       ++ completion payment status (elapsed (onProxyReq req t))).

(** The request of [api.get(requestPath)] (lines 143-157). *)
Definition reissued (req : Request) (account : Account) : PaidGet :=
  {| g_method := "GET";
     g_baseURL := Js.or_default (ZEDKR_DOMAIN env) default_domain;
     g_timeout := 60000%N;
     g_path := requestPath req;
     g_headers := [];
     g_body := None;
     g_account := account |}.

(** The answer of the [catch] of [handleDirectPayment] (lines 213-220). *)
Definition direct_failure (e : JsError) : Response :=
  match err_response e with
  | Some (status, data) => json_response status data
  | None =>
      json_response 500
        (failure ("Failed to process payment with private key: " ++ err_message e))
  end.

Definition direct_row (endpointConfig : EndpointConfig) (payment : Payment) (status : nat) : CallRecord :=
  {| endpoint_id := cfg_id endpointConfig;
     caller_wallet := payer payment;
     tx_hash := transaction payment;
     amount_paid := cfg_price_microstx endpointConfig;
     status_code := Some status;
     latency_ms := Some direct_elapsed |}.

Inductive DirectRun (req : Request) (endpointConfig : EndpointConfig) (privateKey : QVal)
  : Response -> list Event -> Prop :=
| DirectBadKey e :
    privateKeyToAccount privateKey network_of_env = inl e ->
    DirectRun req endpointConfig privateKey (direct_failure e) []
| DirectFailed account e :
    privateKeyToAccount privateKey network_of_env = inr account ->
    paidGet (reissued req account) = AxError e ->
    DirectRun req endpointConfig privateKey (direct_failure e) [EvReissue (reissued req account)]
| DirectPaid account status hs data :
    privateKeyToAccount privateKey network_of_env = inr account ->
    paidGet (reissued req account) = AxResponse status hs data ->
    DirectRun req endpointConfig privateKey
      (json_response status data)
      (EvReissue (reissued req account)
       :: let payment := payment_of_response hs (address account) in
          if Js.truthy_opt (transaction payment)
          then [EvLedgerInsert (direct_row endpointConfig payment status)]
          else []).

Definition config_of (row : Endpoint) : EndpointConfig :=
  {| cfg_id := id row;
     cfg_price_microstx := price_microstx row;
     cfg_developer_wallet := wallet_address (users (apis row));
     cfg_original_url := original_url row |}.

(** The options given to [paymentMiddleware] (lines 83-89). *)
Definition options_of (row : Endpoint) : MwConfig :=
  {| mw_amount := Price.int_to_string (price_microstx row);
     mw_payTo := wallet_address (users (apis row));
     mw_network := network_of_env;
     mw_facilitatorUrl :=
       Js.or_default (FACILITATOR_URL env) "https://facilitator.stacksx402.com";
     mw_description := "API endpoint - ZedKr API" |}.

(** The one row the resolving query finds. *)
Definition resolved (req : Request) (d : Database) (row : Endpoint) : Prop :=
  db_fault OpResolve = NoFault /\
  filter (resolves (params_username req) (params_apiName req) (params_0 req))
         (endpoints d) = [row].

Inductive Served (req : Request) (d : Database) : Response -> list Event -> Prop :=
| ServedQueryRejected e :
    db_fault OpResolve = Rejects e ->
    Served req d (json_response 500 (failure "Internal server error")) []
| ServedNotFound :
    (forall row, ~ resolved req d row) ->
    (forall e, db_fault OpResolve <> Rejects e) ->
    Served req d not_found []
| ServedDirect row privateKey resp l :
    resolved req d row ->
    privateKey_of req = Some privateKey ->
    DirectRun req (config_of row) privateKey resp l ->
    Served req d resp (EvMaterialize (id row) :: l)
| ServedChallenge row status body resp :
    resolved req d row ->
    privateKey_of req = None ->
    paymentMiddleware (options_of row) req = MwJson status body ->
    resp = res_json req (select_columns row)
             (Price.priceSTX (price_microstx row))
             (wallet_address (users (apis row)))
             network_of_env
             (Js.or_default (FACILITATOR_URL env) "https://facilitator.stacksx402.com")
             (match header_get "accept" (headers req) with
              | Some a => Js.includes "text/html" a
              | None => false
              end)
             (Js.truthy_opt (header_get "payment-signature" (headers req))
              || qval_truthy (query_get "paymentSignature" req))
             status body ->
    Served req d resp
      [EvMaterialize (id row); EvGate (options_of row) (MwJson status body)]
| ServedVerified row payment resp l :
    resolved req d row ->
    privateKey_of req = None ->
    paymentMiddleware (options_of row) req = MwNext payment ->
    ProxiedRun req payment (config_of row) resp l ->
    Served req d resp
      (EvMaterialize (id row) :: EvGate (options_of row) (MwNext payment) :: l).

End Gateway.


(* ===================================================================== *)
(** ** Observations on a served request                                   *)
(* ===================================================================== *)

(** Rows handed to [.insert] and keys handed to [.update(...).eq('tx_hash', _)],
    in order. *)
Fixpoint inserts (l : list Event) : list CallRecord :=
  match l with
  | [] => []
  | EvLedgerInsert r :: rest => r :: inserts rest
  | _ :: rest => inserts rest
  end.

Fixpoint updates (l : list Event) : list (option string * nat * nat) :=
  match l with
  | [] => []
  | EvLedgerUpdate key status latency :: rest => (key, status, latency) :: updates rest
  | _ :: rest => updates rest
  end.

Fixpoint forwards (l : list Event) : list ProxyRequest :=
  match l with
  | [] => []
  | EvForward p :: rest => p :: forwards rest
  | _ :: rest => forwards rest
  end.

Fixpoint reissues (l : list Event) : list PaidGet :=
  match l with
  | [] => []
  | EvReissue g :: rest => g :: reissues rest
  | _ :: rest => reissues rest
  end.

(** A monitor for the gate: reading the calls in order, a request may be
    written to the origin only once the middleware has called [next()]. *)
Fixpoint gated (verified : bool) (l : list Event) : bool :=
  match l with
  | [] => true
  | EvGate _ (MwNext _) :: rest => gated true rest
  | EvForward _ :: rest => verified && gated verified rest
  | _ :: rest => gated verified rest
  end.

(** Every message the handlers write to the console. *)
Definition known_messages : list string :=
  [ "Error fetching endpoint:";
    "Cannot generate monetized URL for endpoint: missing username, api_name_slug, or endpoint_path";
    "Error updating monetized URL for endpoint";
    "Error in updateMonetizedUrlForEndpoint:";
    "Direct payment error:";
    "Error logging API call:";
    "Error updating API call log:";
    "Proxy error:";
    "Handle proxied request error:";
    "Proxy routing error:" ].

Definition known (e : LogEntry) : Prop := In (text e) known_messages.

(** A computation that writes only known messages. *)
Definition tidy {A} (c : M A) : Prop :=
  forall w, Forall known (console w) -> Forall known (console (snd (c w))).

(** Two requests that differ at most in the value of the secret: the
    [privateKey] query parameter and the [x-private-key] header. *)
Definition same_but (name : string) (a b : string * string) : Prop :=
  fst a = fst b /\ (fst a <> name -> snd a = snd b).

Definition differ_only_in_secret (r1 r2 : Request) : Prop :=
  method r1 = method r2
  /\ params_username r1 = params_username r2
  /\ params_apiName r1 = params_apiName r2
  /\ params_0 r1 = params_0 r2
  /\ pathname (originalUrl r1) = pathname (originalUrl r2)
  /\ Forall2 (same_but "privateKey") (searchParams (originalUrl r1)) (searchParams (originalUrl r2))
  /\ Forall2 (same_but "x-private-key") (headers r1) (headers r2)
  /\ body r1 = body r2.

(* ===================================================================== *)
(** ** A small deployment                                                 *)
(* ===================================================================== *)

Module Demo.

Definition alice : User :=
  {| username := Some "alice"; wallet_address := "SP2DEVELOPER" |}.

Definition weather : Api :=
  {| api_id := "api-1"; api_name_slug := "weather"; users := alice |}.

Definition forecast : Endpoint :=
  {| id := "ep-1"; endpoint_path := "forecast";
     original_url := "https://origin.example/v1/forecast?units=metric";
     price_microstx := 1500000; active := true;
     monetized_url := None; apis := weather |}.

Definition retired : Endpoint :=
  {| id := "ep-2"; endpoint_path := "history";
     original_url := "https://origin.example/v1/history";
     price_microstx := 1000000; active := false;
     monetized_url := None; apis := weather |}.

Definition registry : Database :=
  {| endpoints := [forecast; retired]; api_calls := [] |}.

Definition no_env : Env :=
  {| NETWORK := None; FACILITATOR_URL := None; ZEDKR_DOMAIN := None |}.

Definition healthy : DbOp -> Fault := fun _ => NoFault.

Definition fetch_failed : JsError :=
  {| err_message := "fetch failed"; err_response := None |}.

(** The ledger insert of the proxied path rejects; everything else works. *)
Definition insert_rejects : DbOp -> Fault :=
  fun op => match op with OpLedgerInsert => Rejects fetch_failed | _ => NoFault end.

(** The registry cannot be reached by the materializer. *)
Definition materializer_down : DbOp -> Fault :=
  fun op =>
    match op with
    | OpMaterializeFetch => ErrorResult fetch_failed
    | OpMaterializeUpdate => Rejects fetch_failed
    | _ => NoFault
    end.

Definition proof_of_payment : Payment :=
  {| payer := "SP1PAYER"; transaction := Some "0xabc"; network := "stacks:1" |}.

(** A payment the facilitator confirmed without a transaction id. *)
Definition proof_without_tx : Payment :=
  {| payer := "SP1PAYER"; transaction := Some EmptyString; network := "stacks:1" |}.

Definition challenge (cfg : MwConfig) : Fields :=
  [("x402Version", JNum 2);
   ("accepts", JArr [JObj [("amount", JStr (mw_amount cfg)); ("payTo", JStr (mw_payTo cfg))]])].

(** A gate that lets a request with a [payment-signature] header through
    with [p] attached, and asks the others to pay. *)
Definition gate (p : Payment) (cfg : MwConfig) (req : Request) : MwOutcome :=
  match header_get "payment-signature" (headers req) with
  | Some _ => MwNext (Some p)
  | None => MwJson 402 (challenge cfg)
  end.

Definition origin_ok (p : ProxyRequest) : OriginOutcome :=
  OriginResponse 200 [("content-type", "application/json")] "{}".

Definition took (p : ProxyRequest) : nat := 12.

Definition parse (s : string) : option TargetUrl :=
  if String.eqb s "https://origin.example/v1/forecast?units=metric" then
    Some {| t_protocol := "https:"; t_host := "origin.example";
            t_pathname := "/v1/forecast"; t_search := "?units=metric" |}
  else None.

Definition stringify (j : Json) : string := "{}".

Definition encode (r : Receipt) : string :=
  match rc_transaction r with
  | Some t => "receipt:" ++ t
  | None => "receipt"
  end.

Definition account_of (k : QVal) (net : string) : JsError + Account :=
  inr {| address := "SP1PAYER"; secretKey := k |}.

Definition paid (g : PaidGet) : AxiosOutcome :=
  AxResponse 200 [] (JObj [("temp", JNum 21)]).

Definition decode (h : string) : option PaymentData := None.

Definition form (ps : list (string * string)) : string :=
  String.concat "&" (map (fun p => fst p ++ "=" ++ snd p) ps).

Definition paid_call : Request :=
  {| method := "POST";
     params_username := "alice"; params_apiName := "weather"; params_0 := "forecast";
     originalUrl := {| pathname := "/alice/weather/forecast";
                       searchParams := [("city", "Oslo")] |};
     headers := [("host", "zedkr.up.railway.app"); ("payment-signature", "c2lnbmVk")];
     body := None |}.

Definition unpaid_call : Request :=
  {| method := "GET";
     params_username := "alice"; params_apiName := "weather"; params_0 := "forecast";
     originalUrl := {| pathname := "/alice/weather/forecast"; searchParams := [] |};
     headers := [("host", "zedkr.up.railway.app")];
     body := None |}.

Definition retired_call : Request :=
  {| method := "GET";
     params_username := "alice"; params_apiName := "weather"; params_0 := "history";
     originalUrl := {| pathname := "/alice/weather/history"; searchParams := [] |};
     headers := [("host", "zedkr.up.railway.app")];
     body := None |}.

(** A programmatic call, the secret in the query. *)
Definition keyed_call (secret : string) : Request :=
  {| method := "POST";
     params_username := "alice"; params_apiName := "weather"; params_0 := "forecast";
     originalUrl := {| pathname := "/alice/weather/forecast";
                       searchParams := [("city", "Oslo"); ("privateKey", secret)] |};
     headers := [("host", "zedkr.up.railway.app"); ("content-type", "application/json")];
     body := Some (JObj [("days", JNum 3)]) |}.

(** A ledger in which an earlier call was recorded without a transaction
    id and has completed with status 200. *)
Definition earlier_call : CallRecord :=
  {| endpoint_id := "ep-9"; caller_wallet := "SP3OTHER"; tx_hash := Some EmptyString;
     amount_paid := 700; status_code := Some 200; latency_ms := Some 40 |}.

Definition registry_with_history : Database :=
  {| endpoints := [forecast; retired]; api_calls := [earlier_call] |}.

Definition origin_fails (p : ProxyRequest) : OriginOutcome :=
  OriginResponse 503 [] "unavailable".

(** One request served by this deployment. *)
Definition run (faults : DbOp -> Fault) (p : Payment)
    (org : ProxyRequest -> OriginOutcome) (req : Request) (d : Database)
  : (JsError + Response) * World :=
  serve no_env faults (gate p) org took parse stringify encode account_of paid decode
        form 0 req d.

End Demo.

(* ===================================================================== *)
(** ** Further observations on the proxy                                  *)
(* ===================================================================== *)

(** [res.getHeader(k)]: the first header named [k], names compared without
    case. *)
Fixpoint get_header (k : string) (hs : list (string * string)) : option string :=
  match hs with
  | [] => None
  | (k', v) :: r =>
      if String.eqb (Js.toLowerCase k') (Js.toLowerCase k) then Some v
      else get_header k r
  end.

(** A registry row without its [monetized_url]. *)
Definition forget_url (e : Endpoint) : Endpoint :=
  {| id := id e; endpoint_path := endpoint_path e; original_url := original_url e;
     price_microstx := price_microstx e; active := active e;
     monetized_url := None; apis := apis e |}.

(** Who paid what: the columns of a ledger row that no update sets. *)
Definition ledger_key (r : CallRecord) : string * string * option string * N :=
  (endpoint_id r, caller_wallet r, tx_hash r, amount_paid r).

(** From [w] to [w']: the registry rows are the same up to
    [monetized_url], and the ledger rows are still there, in place, paid by
    the same callers for the same endpoints, possibly followed by new
    ones. *)
Definition extends (w w' : World) : Prop :=
  map forget_url (endpoints (db w')) = map forget_url (endpoints (db w))
  /\ exists added,
       map ledger_key (api_calls (db w'))
       = (map ledger_key (api_calls (db w)) ++ added)%list.

(** The ledger after the calls [l]: an insert appends its row and an
    update rewrites the rows of its key, unless the call fails. *)
Fixpoint ledger_after (on_insert on_update : Fault) (l : list Event) (rows : list CallRecord)
  : list CallRecord :=
  match l with
  | [] => rows
  | EvLedgerInsert r :: rest =>
      ledger_after on_insert on_update rest
        match on_insert with NoFault => (rows ++ [r])%list | _ => rows end
  | EvLedgerUpdate key status latency :: rest =>
      ledger_after on_insert on_update rest
        match on_update with
        | NoFault => map (set_outcome key status latency) rows
        | _ => rows
        end
  | _ :: rest => ledger_after on_insert on_update rest rows
  end.

(** A computation that writes to [api_calls] only through the ledger calls
    it makes, and to the registry only by storing a [monetized_url]. *)
Definition accounted {A} (on_insert on_update : Fault) (c : M A) : Prop :=
  forall w, exists l,
    calls (snd (c w)) = (calls w ++ l)%list
    /\ api_calls (db (snd (c w))) = ledger_after on_insert on_update l (api_calls (db w))
    /\ map forget_url (endpoints (db (snd (c w)))) = map forget_url (endpoints (db w)).

(** The fault that meets the ledger insert of a request: the insert of the
    programmatic path when a private key is supplied, the admission insert
    otherwise. *)
Definition insert_op (req : Request) : DbOp :=
  match privateKey_of req with
  | Some _ => OpDirectInsert
  | None => OpLedgerInsert
  end.

(** An admission row once the origin has answered. *)
Definition completed (status latency : nat) (r : CallRecord) : CallRecord :=
  {| endpoint_id := endpoint_id r; caller_wallet := caller_wallet r;
     tx_hash := tx_hash r; amount_paid := amount_paid r;
     status_code := Some status; latency_ms := Some latency |}.

Definition is_page (r : Response) : bool :=
  match resBody r with BHtml _ => true | _ => false end.

(** [req.headers.accept?.includes('text/html')] (line 92) *)
Definition isBrowserRequest (req : Request) : bool :=
  match header_get "accept" (headers req) with
  | Some a => Js.includes "text/html" a
  | None => false
  end.

(** [req.headers['payment-signature'] || req.query.paymentSignature] (line 93) *)
Definition hasPaymentSignature (req : Request) : bool :=
  Js.truthy_opt (header_get "payment-signature" (headers req))
  || qval_truthy (query_get "paymentSignature" req).

(* ===================================================================== *)
(** ** The batch materializer (utils/updateMonetizedUrls.ts)              *)
(* ===================================================================== *)

Record SupabaseEnv := {
  SUPABASE_URL : option string;
  SUPABASE_SERVICE_ROLE_KEY : option string
}.

(** The filter of the batch query: [.is('monetized_url', null).eq('active', true)]. *)
Definition unset_and_active (e : Endpoint) : bool :=
  match monetized_url e with
  | None => Bool.eqb (active e) true
  | Some _ => false
  end.

(** [.from('endpoints').select(...).is('monetized_url', null).eq('active', true)]:
    all the rows that pass. *)
Definition select_unset (ft : Fault) : M (QueryResult (list Endpoint)) :=
  match ft with
  | Rejects e => raise e
  | ErrorResult e => ret {| data := None; error := Some e |}
  | NoFault =>
      d <- read_db ;;
      ret {| data := Some (filter unset_and_active (endpoints d)); error := None |}
  end.

(** [for (const a of l) { f(a) }] *)
Fixpoint for_each {A} (f : A -> M unit) (l : list A) : M unit :=
  match l with
  | [] => ret tt
  | a :: rest => f a ;; for_each f rest
  end.

(** Lines 594-599: the URL of a row, or nothing when the owner, the slug or
    the path is missing. *)
Definition url_of (domain : string) (endpoint : Endpoint) : option string :=
  let api := apis endpoint in
  let user := users api in
  match username user with
  | Some name =>
      if negb (Js.truthy name) || negb (Js.truthy (api_name_slug api))
         || negb (Js.truthy (endpoint_path endpoint))
      then None
      else Some (monetizedUrl domain name (api_name_slug api) (endpoint_path endpoint))
  | None => None
  end.

Section Batch.

(** [process.env.ZEDKR_DOMAIN] when the module is loaded. *)
Variable domain_at_load : option string.
(** [process.env] when the batch runs. *)
Variable supabase_env : SupabaseEnv.
(** [error.code] *)
Variable error_code : JsError -> option string.
(** How the query goes; losing the race against the 10 s timer is a
    rejection with "Supabase query timeout". *)
Variable fetch_fault : Fault.
(** How the update of the endpoint of each id goes. *)
Variable update_fault : string -> Fault.

(** Line 534: [const ZEDKR_DOMAIN]. *)
Definition ZEDKR_DOMAIN_loaded : string := Js.or_default domain_at_load default_domain.

Definition code_is (c : string) (e : JsError) : bool :=
  opt_string_eqb (error_code e) (Some c).

(** One turn of the loop (lines 591-611).  [console.log] writes to the
    standard output, which the console of the model does not hold. *)
Definition update_one (endpoint : Endpoint) : M unit :=
  match url_of ZEDKR_DOMAIN_loaded endpoint with
  | None =>
      log LWarn ("Skipping endpoint " ++ id endpoint
                 ++ ": missing username, api_name_slug, or endpoint_path") None
  | Some monetizedUrl =>
      updateError <- update_monetized_url (update_fault (id endpoint)) (id endpoint) monetizedUrl ;;
      match updateError with
      | Some e =>
          log LError ("Error updating monetized URL for endpoint " ++ id endpoint ++ ":") (Some e)
      | None => ret tt
      end
  end.

Definition updateMonetizedUrls : M unit :=
  catch
    (if negb (Js.truthy_opt (SUPABASE_URL supabase_env))
        || negb (Js.truthy_opt (SUPABASE_SERVICE_ROLE_KEY supabase_env))
     then log LWarn "⚠️  Supabase not configured, skipping monetized URL update" None
     else
       r <- select_unset fetch_fault ;;
       match error r with
       | Some fetchError =>
           if Js.includes "fetch failed" (err_message fetchError)
              || code_is "ENOTFOUND" fetchError || code_is "ECONNREFUSED" fetchError
           then log LWarn "⚠️  Could not connect to Supabase to update monetized URLs (network issue)" None
           else log LError "Error fetching endpoints:" (Some fetchError)
       | None =>
           match data r with
           | None | Some [] => ret tt
           | Some endpoints => for_each update_one endpoints
           end
       end)
    (fun error =>
       if Js.includes "fetch failed" (err_message error)
          || Js.includes "timeout" (err_message error)
          || code_is "ENOTFOUND" error || code_is "ECONNREFUSED" error
          || Js.includes "Supabase query timeout" (err_message error)
       then log LWarn "⚠️  Could not update monetized URLs (Supabase connection issue - non-critical)" None
       else
         (* the second argument is [error?.message || 'Unknown error'] *)
         log LWarn "⚠️  Error updating monetized URLs (non-critical):"
             (Some {| err_message := Js.or_default (Some (err_message error)) "Unknown error";
                      err_response := None |})).

Definition urls_updated : Response :=
  json_response 200
    (JObj [("success", JBool true); ("message", JStr "Monetized URLs updated successfully")]).

(** [router.post('/', ...)]: POST /api/update-urls. *)
Definition update_urls : M Response :=
  catch
    (updateMonetizedUrls ;; ret urls_updated)
    (fun error =>
       log LError "Error updating monetized URLs:" (Some error) ;;
       ret (json_response 500
              (JObj [("success", JBool false);
                     ("error", JStr (Js.or_default (Some (err_message error))
                                                   "Failed to update monetized URLs"))]))).

(** The updates the loop attempts for the rows it was given, in order. *)
Definition targets_of (rows : list Endpoint) : list (string * string) :=
  flat_map (fun e => match url_of ZEDKR_DOMAIN_loaded e with
                     | Some url => [(id e, url)]
                     | None => []
                     end) rows.

(** Those that go through: a failed update is passed over, a rejected one
    ends the loop. *)
Fixpoint effective (targets : list (string * string)) : list (string * string) :=
  match targets with
  | [] => []
  | (i, url) :: rest =>
      match update_fault i with
      | NoFault => (i, url) :: effective rest
      | ErrorResult _ => effective rest
      | Rejects _ => []
      end
  end.

End Batch.

(** The registry after the updates [targets]. *)
Definition apply_updates (targets : list (string * string)) (rows : list Endpoint) : list Endpoint :=
  fold_left (fun rows t => map (set_monetized_url (fst t) (snd t)) rows) targets rows.

(** One row under a list of updates. *)
Definition row_after (targets : list (string * string)) (e : Endpoint) : Endpoint :=
  fold_left (fun e t => set_monetized_url (fst t) (snd t) e) targets e.

Definition with_url (url : string) (e : Endpoint) : Endpoint :=
  {| id := id e; endpoint_path := endpoint_path e; original_url := original_url e;
     price_microstx := price_microstx e; active := active e;
     monetized_url := Some url; apis := apis e |}.

(** What the batch does to one row: an active row without URL gets the URL
    made of its names. *)
Definition filled (domain : string) (e : Endpoint) : Endpoint :=
  if unset_and_active e then
    match url_of domain e with
    | Some url => with_url url e
    | None => e
    end
  else e.

Definition configured (s : SupabaseEnv) : Prop :=
  Js.truthy_opt (SUPABASE_URL s) = true /\ Js.truthy_opt (SUPABASE_SERVICE_ROLE_KEY s) = true.

(* ===================================================================== *)
(** ** More of the deployment of [Demo]                                   *)
(* ===================================================================== *)

Module Cases.

(** The origin cannot be reached. *)
Definition origin_down (p : ProxyRequest) : OriginOutcome :=
  OriginError Demo.fetch_failed.

(** An origin that sends a [payment-response] header of its own. *)
Definition origin_with_receipt (p : ProxyRequest) : OriginOutcome :=
  OriginResponse 200 [("Payment-Response", "b3JpZ2lu")] "{}".

(** The paid request comes back with the receipt of the gateway. *)
Definition paid_with_receipt (g : PaidGet) : AxiosOutcome :=
  AxResponse 200 [("payment-response", "cmVjZWlwdA==")] (JObj [("temp", JNum 21)]).

Definition decode_receipt (h : string) : option PaymentData :=
  Some {| pd_payer := Some "SP1PAYER"; pd_transaction := Some "0xdef"; pd_network := None |}.

Definition bad_key : JsError :=
  {| err_message := "Invalid private key"; err_response := None |}.

Definition no_account (k : QVal) (net : string) : JsError + Account := inl bad_key.

(** A browser that has not paid yet. *)
Definition browser_call : Request :=
  {| method := "GET";
     params_username := "alice"; params_apiName := "weather"; params_0 := "forecast";
     originalUrl := {| pathname := "/alice/weather/forecast"; searchParams := [] |};
     headers := [("host", "zedkr.up.railway.app");
                 ("accept", "text/html,application/xhtml+xml")];
     body := None |}.

(** A paid call with a JSON body. *)
Definition body_call : Request :=
  {| method := "POST";
     params_username := "alice"; params_apiName := "weather"; params_0 := "forecast";
     originalUrl := {| pathname := "/alice/weather/forecast"; searchParams := [] |};
     headers := [("host", "zedkr.up.railway.app"); ("payment-signature", "c2lnbmVk")];
     body := Some (JObj [("days", JNum 3)]) |}.

(** One request served with a given key store and paying client. *)
Definition run_keyed (faults : DbOp -> Fault)
    (accounts : QVal -> string -> JsError + Account)
    (pay : PaidGet -> AxiosOutcome) (dec : string -> option PaymentData)
    (req : Request) (d : Database) : (JsError + Response) * World :=
  serve Demo.no_env faults (Demo.gate Demo.proof_of_payment) Demo.origin_ok Demo.took
        Demo.parse Demo.stringify Demo.encode accounts pay dec Demo.form 0 req d.

Definition supabase : SupabaseEnv :=
  {| SUPABASE_URL := Some "https://db.example"; SUPABASE_SERVICE_ROLE_KEY := Some "service-key" |}.

Definition no_code (e : JsError) : option string := None.

Definition fine (i : string) : Fault := NoFault.

Definition rejecting (i : string) : Fault := Rejects Demo.fetch_failed.

(** A row whose [monetized_url] is the empty string. *)
Definition blank : Endpoint :=
  {| id := "ep-3"; endpoint_path := "tides";
     original_url := "https://origin.example/v1/tides";
     price_microstx := 20000; active := true;
     monetized_url := Some EmptyString; apis := Demo.weather |}.

Definition registry_with_blank : Database :=
  {| endpoints := [Demo.forecast; Demo.retired; blank]; api_calls := [] |}.

(** The batch on this deployment. *)
Definition batch (update_fault : string -> Fault) : M unit :=
  updateMonetizedUrls None supabase no_code NoFault update_fault.

End Cases.

(* ===================================================================== *)
(** ** The registry as its owners edit it (routes/apis.ts)                *)
(* ===================================================================== *)

(** The three tables behind the joined rows of the proxy. *)
Record UserRow := {
  u_id : string;
  u_wallet_address : string;
  u_username : option string
}.

Record ApiRow := {
  a_id : string;
  a_user_id : string;
  a_api_name : string;
  a_api_name_slug : string
}.

Record EndpointRow := {
  e_id : string;
  e_api_id : string;
  e_endpoint_name : string;
  e_endpoint_path : string;
  e_original_url : string;
  e_price_microstx : Z;
  e_active : bool;
  e_monetized_url : option string
}.

Record Tables := {
  users_table : list UserRow;
  apis_table : list ApiRow;
  endpoints_table : list EndpointRow
}.

(** The rows the proxy reads: [endpoints] joined to [apis!inner] and
    [users!inner].  The proxy holds a price as a natural number. *)
Definition join_row (e : EndpointRow) (a : ApiRow) (u : UserRow) : Endpoint :=
  {| id := e_id e;
     endpoint_path := e_endpoint_path e;
     original_url := e_original_url e;
     price_microstx := Z.to_N (e_price_microstx e);
     active := e_active e;
     monetized_url := e_monetized_url e;
     apis := {| api_id := a_id a;
                api_name_slug := a_api_name_slug a;
                users := {| username := u_username u;
                            wallet_address := u_wallet_address u |} |} |}.

Definition join_endpoint (us : list UserRow) (as_ : list ApiRow) (e : EndpointRow)
  : list Endpoint :=
  flat_map
    (fun a => map (join_row e a) (filter (fun u => String.eqb (u_id u) (a_user_id a)) us))
    (filter (fun a => String.eqb (a_id a) (e_api_id e)) as_).

Definition joined (t : Tables) : list Endpoint :=
  flat_map (join_endpoint (users_table t) (apis_table t)) (endpoints_table t).

(** The state of the management routes and their monad. *)
Record Site := {
  tables : Tables;
  site_console : list LogEntry
}.

Definition R (A : Type) : Type := Site -> (JsError + A) * Site.

Definition r_ret {A} (a : A) : R A := fun s => (inr a, s).

Definition r_bind {A B} (c : R A) (k : A -> R B) : R B :=
  fun s =>
    match c s with
    | (inr a, s') => k a s'
    | (inl e, s') => (inl e, s')
    end.

Definition r_raise {A} (e : JsError) : R A := fun s => (inl e, s).

Definition r_catch {A} (c : R A) (h : JsError -> R A) : R A :=
  fun s =>
    match c s with
    | (inr a, s') => (inr a, s')
    | (inl e, s') => h e s'
    end.

#[export] Instance Monad_R : Monad R :=
  { ret := @r_ret; bind := @r_bind }.

#[export] Instance Exc_R : MonadExc JsError R :=
  { raise := @r_raise; catch := @r_catch }.

Definition r_log (l : Level) (t : string) (d : option JsError) : R unit :=
  fun s => (inr tt, {| tables := tables s;
                       site_console := site_console s ++ [{| level := l; text := t; detail := d |}] |}).

Definition read_tables : R Tables := fun s => (inr (tables s), s).

Definition write_tables (t : Tables) : R unit :=
  fun s => (inr tt, {| tables := t; site_console := site_console s |}).

(** [.single()] on the rows a query found. *)
Definition single {A} (rows : list A) : QueryResult A :=
  match rows with
  | [row] => {| data := Some row; error := None |}
  | _ => {| data := None; error := Some no_rows |}
  end.

(** [/^[a-z0-9_-]+$/.test(s)] *)
Definition slug_char (c : ascii) : bool :=
  let n := nat_of_ascii c in
  ((97 <=? n)%nat && (n <=? 122)%nat) || ((48 <=? n)%nat && (n <=? 57)%nat)
  || (n =? 95)%nat || (n =? 45)%nat.

Definition matches_slug (s : string) : bool :=
  Js.truthy s && forallb slug_char (list_ascii_of_string s).

(** One element of [req.body.endpoints], its fields strings or absent. *)
Record EndpointInput := {
  i_endpointName : option string;
  i_name : option string;
  i_endpointPath : option string;
  i_path : option string;
  i_originalUrl : option string;
  i_original_url : option string;
  i_price : option string
}.

(** [req.body] of POST and PUT, its fields strings or absent;
    [b_endpoints] is [None] when [endpoints] is absent or not an array. *)
Record ApiBody := {
  b_apiName : option string;
  b_apiNameSlug : option string;
  b_endpoints : option (list EndpointInput)
}.

(** One element of [endpointsData]. *)
Record EndpointData := {
  d_api_id : string;
  d_endpoint_name : string;
  d_endpoint_path : string;
  d_original_url : string;
  d_price_microstx : Z;
  d_active : bool
}.

Inductive ApiOp :=
| OpFindSlug
| OpInsertApi
| OpInsertEndpoints
| OpRollback
| OpOwn
| OpRename
| OpClearEndpoints
| OpDeleteApi.

(** [a || b || ''] *)
Definition or_else (a b : option string) : string :=
  Js.or_default a (Js.or_default b EmptyString).

Definition api_updated : Response :=
  json_response 200
    (JObj [("success", JBool true); ("message", JStr "API updated successfully")]).

Definition api_deleted : Response :=
  json_response 200
    (JObj [("success", JBool true); ("message", JStr "API deleted successfully")]).

Definition api_not_found : Response := json_response 404 (failure "API not found").

(** [error.message || 'Internal server error'] *)
Definition internal_error (e : JsError) : Response :=
  json_response 500 (failure (Js.or_default (Some (err_message e)) "Internal server error")).

Definition with_api (t : Tables) (api : ApiRow) : Tables :=
  {| users_table := users_table t;
     apis_table := apis_table t ++ [api];
     endpoints_table := endpoints_table t |}.

Definition with_endpoints (t : Tables) (rows : list EndpointRow) : Tables :=
  {| users_table := users_table t;
     apis_table := apis_table t;
     endpoints_table := endpoints_table t ++ rows |}.

Definition without_endpoints_of (id : string) (t : Tables) : Tables :=
  {| users_table := users_table t;
     apis_table := apis_table t;
     endpoints_table := filter (fun e => negb (String.eqb (e_api_id e) id)) (endpoints_table t) |}.

(** [cascade]: whether deleting an API deletes its endpoints (the
    schema's [on delete cascade]). *)
Definition without_api (cascade : bool) (id : string) (t : Tables) : Tables :=
  {| users_table := users_table t;
     apis_table := filter (fun a => negb (String.eqb (a_id a) id)) (apis_table t);
     endpoints_table :=
       if cascade
       then filter (fun e => negb (String.eqb (e_api_id e) id)) (endpoints_table t)
       else endpoints_table t |}.

Definition renamed (id apiName : string) (t : Tables) : Tables :=
  {| users_table := users_table t;
     apis_table :=
       map (fun a => if String.eqb (a_id a) id
                     then {| a_id := a_id a; a_user_id := a_user_id a;
                             a_api_name := apiName;
                             a_api_name_slug := a_api_name_slug a |}
                     else a)
           (apis_table t);
     endpoints_table := endpoints_table t |}.

Section Management.

(** How each Supabase call of a request goes. *)
Variable api_fault : ApiOp -> Fault.
(** The ids the database gives to the rows it inserts: to an API, and to
    the [k]-th endpoint of one insert. *)
Variable new_api_id : Tables -> string.
Variable new_endpoint_id : Tables -> nat -> string.
(** [Math.round((parseFloat(price) || 0) * 1000000)] *)
Variable microstx : option string -> Z.
(** The inserted row as [.select().single()] returns it. *)
Variable api_json : ApiRow -> Json.
(** Whether the schema deletes the endpoints of a deleted API. *)
Variable cascade : bool.

(** [.from('apis').select(...).eq(...).eq(...).single()] *)
Definition find_api (ft : Fault) (p : ApiRow -> bool) : R (QueryResult ApiRow) :=
  match ft with
  | Rejects e => raise e
  | ErrorResult e => ret {| data := None; error := Some e |}
  | NoFault =>
      t <- read_tables ;;
      ret (single (filter p (apis_table t)))
  end.

(** [.from('apis').insert({ user_id, api_name, api_name_slug }).select().single()]:
    the error, or the row with its new id. *)
Definition insert_api (ft : Fault) (userId apiName apiNameSlug : string) : R (JsError + ApiRow) :=
  match ft with
  | Rejects e => raise e
  | ErrorResult e => ret (inl e)
  | NoFault =>
      t <- read_tables ;;
      let api := {| a_id := new_api_id t; a_user_id := userId;
                    a_api_name := apiName; a_api_name_slug := apiNameSlug |} in
      write_tables (with_api t api) ;;
      ret (inr api)
  end.

Definition stored_row (t : Tables) (k : nat) (d : EndpointData) : EndpointRow :=
  {| e_id := new_endpoint_id t k;
     e_api_id := d_api_id d;
     e_endpoint_name := d_endpoint_name d;
     e_endpoint_path := d_endpoint_path d;
     e_original_url := d_original_url d;
     e_price_microstx := d_price_microstx d;
     e_active := d_active d;
     e_monetized_url := None |}.

Fixpoint stored_rows (t : Tables) (k : nat) (ds : list EndpointData) : list EndpointRow :=
  match ds with
  | [] => []
  | d :: rest => stored_row t k d :: stored_rows t (S k) rest
  end.

(** [.from('endpoints').insert(endpointsData)] *)
Definition insert_endpoints (ft : Fault) (endpointsData : list EndpointData) : R (option JsError) :=
  match ft with
  | Rejects e => raise e
  | ErrorResult e => ret (Some e)
  | NoFault =>
      t <- read_tables ;;
      write_tables (with_endpoints t (stored_rows t 0 endpointsData)) ;;
      ret None
  end.

(** [.from('apis').delete().eq('id', id)] *)
Definition delete_api_row (ft : Fault) (id : string) : R (option JsError) :=
  match ft with
  | Rejects e => raise e
  | ErrorResult e => ret (Some e)
  | NoFault =>
      t <- read_tables ;;
      write_tables (without_api cascade id t) ;;
      ret None
  end.

(** [.from('apis').update({ api_name }).eq('id', id)] *)
Definition rename_api (ft : Fault) (id apiName : string) : R (option JsError) :=
  match ft with
  | Rejects e => raise e
  | ErrorResult e => ret (Some e)
  | NoFault =>
      t <- read_tables ;;
      write_tables (renamed id apiName t) ;;
      ret None
  end.

(** [.from('endpoints').delete().eq('api_id', id)] *)
Definition clear_endpoints (ft : Fault) (id : string) : R (option JsError) :=
  match ft with
  | Rejects e => raise e
  | ErrorResult e => ret (Some e)
  | NoFault =>
      t <- read_tables ;;
      write_tables (without_endpoints_of id t) ;;
      ret None
  end.

(** Lines 146-153: one element of [endpointsData] in POST. *)
Definition created_data (apiId : string) (e : EndpointInput) : EndpointData :=
  {| d_api_id := apiId;
     d_endpoint_name := Js.or_default (i_endpointName e) EmptyString;
     d_endpoint_path := Js.or_default (i_endpointPath e) EmptyString;
     d_original_url := Js.or_default (i_originalUrl e) EmptyString;
     d_price_microstx := microstx (i_price e);
     d_active := true |}.

(** Lines 241-248: one element of [endpointsData] in PUT. *)
Definition updated_data (apiId : string) (e : EndpointInput) : EndpointData :=
  {| d_api_id := apiId;
     d_endpoint_name := or_else (i_endpointName e) (i_name e);
     d_endpoint_path := or_else (i_endpointPath e) (i_path e);
     d_original_url := or_else (i_originalUrl e) (i_original_url e);
     d_price_microstx := microstx (i_price e);
     d_active := true |}.

Definition api_created (api : ApiRow) : Response :=
  json_response 200 (JObj [("success", JBool true); ("api", api_json api)]).

Definition invalid_path (path : string) : Response :=
  json_response 400
    (failure ("Invalid endpoint path: " ++ path
              ++ ". Only lowercase letters, numbers, hyphens, and underscores allowed.")).

(** Lines 145-180 of POST: the endpoints of the new API. *)
Definition create_endpoints (api : ApiRow) (endpoints : option (list EndpointInput)) : R Response :=
  match endpoints with
  | Some (e :: es) =>
      let endpointsData := map (created_data (a_id api)) (e :: es) in
      match find (fun d => negb (matches_slug (d_endpoint_path d))) endpointsData with
      | Some endpoint => ret (invalid_path (d_endpoint_path endpoint))
      | None =>
          endpointsError <- insert_endpoints (api_fault OpInsertEndpoints) endpointsData ;;
          match endpointsError with
          | Some err =>
              r_log LError "Error creating endpoints:" (Some err) ;;
              delete_api_row (api_fault OpRollback) (a_id api) ;;
              ret (json_response 500 (failure "Failed to create endpoints"))
          | None => ret (api_created api)
          end
      end
  | _ => ret (api_created api)
  end.

(** Lines 126-143 of POST: the insert of the API. *)
Definition create_row (userId apiName apiNameSlug : string)
    (endpoints : option (list EndpointInput)) : R Response :=
  inserted <- insert_api (api_fault OpInsertApi) userId apiName apiNameSlug ;;
  match inserted with
  | inl apiError =>
      r_log LError "Error creating API:" (Some apiError) ;;
      ret (json_response 500 (failure "Failed to create API"))
  | inr api => create_endpoints api endpoints
  end.

(** [router.post('/', ...)]: POST /api/apis, for the user [userId] the
    middleware has authenticated. *)
Definition create_api (userId : string) (body : ApiBody) : R Response :=
  catch
    (if negb (Js.truthy_opt (b_apiName body)) || negb (Js.truthy_opt (b_apiNameSlug body))
     then ret (json_response 400 (failure "API name and slug are required"))
     else
       let apiName := Js.or_default (b_apiName body) EmptyString in
       let apiNameSlug := Js.or_default (b_apiNameSlug body) EmptyString in
       if negb (matches_slug apiNameSlug)
       then ret (json_response 400
                   (failure "API name slug can only contain lowercase letters, numbers, hyphens, and underscores"))
       else
         existing <- find_api (api_fault OpFindSlug)
                       (fun a => String.eqb (a_user_id a) userId
                                 && String.eqb (a_api_name_slug a) apiNameSlug) ;;
         match data existing with
         | Some _ => ret (json_response 400 (failure "API name already exists"))
         | None => create_row userId apiName apiNameSlug (b_endpoints body)
         end)
    (fun e =>
       r_log LError "Create API error:" (Some e) ;;
       ret (internal_error e)).

(** [router.put('/:id', ...)]: PUT /api/apis/:id. *)
Definition update_api (userId id : string) (body : ApiBody) : R Response :=
  catch
    (owned <- find_api (api_fault OpOwn)
                (fun a => String.eqb (a_id a) id && String.eqb (a_user_id a) userId) ;;
     match error owned, data owned with
     | None, Some _ =>
         renamed <-
           (if Js.truthy_opt (b_apiName body) then
              updateError <- rename_api (api_fault OpRename) id
                                        (Js.or_default (b_apiName body) EmptyString) ;;
              match updateError with
              | Some _ => ret (Some (json_response 500 (failure "Failed to update API")))
              | None => ret None
              end
            else ret None) ;;
         match renamed with
         | Some answer => ret answer
         | None =>
             match b_endpoints body with
             | Some endpoints =>
                 clear_endpoints (api_fault OpClearEndpoints) id ;;
                 match endpoints with
                 | _ :: _ =>
                     endpointsError <- insert_endpoints (api_fault OpInsertEndpoints)
                                         (map (updated_data id) endpoints) ;;
                     match endpointsError with
                     | Some _ => ret (json_response 500 (failure "Failed to update endpoints"))
                     | None => ret api_updated
                     end
                 | [] => ret api_updated
                 end
             | None => ret api_updated
             end
         end
     | _, _ => ret api_not_found
     end)
    (fun e =>
       r_log LError "Update API error:" (Some e) ;;
       ret (internal_error e)).

(** [router.delete('/:id', ...)]: DELETE /api/apis/:id. *)
Definition delete_api (userId id : string) : R Response :=
  catch
    (owned <- find_api (api_fault OpOwn)
                (fun a => String.eqb (a_id a) id && String.eqb (a_user_id a) userId) ;;
     match data owned with
     | None => ret api_not_found
     | Some _ =>
         err <- delete_api_row (api_fault OpDeleteApi) id ;;
         match err with
         | Some _ => ret (json_response 500 (failure "Failed to delete API"))
         | None => ret api_deleted
         end
     end)
    (fun e =>
       r_log LError "Delete API error:" (Some e) ;;
       ret (internal_error e)).

End Management.

(** The rows of the API [id] and the rows of the others. *)
Definition endpoints_of (id : string) (t : Tables) : list EndpointRow :=
  filter (fun e => String.eqb (e_api_id e) id) (endpoints_table t).

Definition other_apis (id : string) (t : Tables) : list ApiRow :=
  filter (fun a => negb (String.eqb (a_id a) id)) (apis_table t).

Definition other_endpoints (id : string) (t : Tables) : list EndpointRow :=
  filter (fun e => negb (String.eqb (e_api_id e) id)) (endpoints_table t).

(** No user has two APIs of one slug. *)
Definition slugs_unique (t : Tables) : Prop :=
  NoDup (map (fun a => (a_user_id a, a_api_name_slug a)) (apis_table t)).

Definition site (t : Tables) : Site := {| tables := t; site_console := [] |}.

(** A relation between the tables before and after holds of every run. *)
Definition preserved (rel : Tables -> Tables -> Prop) {A} (c : R A) : Prop :=
  forall s, rel (tables s) (tables (snd (c s))).

(** Everything but the API [id] and its endpoints is as before. *)
Definition same_but_api (id : string) (t t' : Tables) : Prop :=
  users_table t' = users_table t
  /\ other_apis id t' = other_apis id t
  /\ other_endpoints id t' = other_endpoints id t.

(** Slugs that were unique per owner still are. *)
Definition unique_still (t t' : Tables) : Prop :=
  slugs_unique t -> slugs_unique t'.

(** The row POST inserts for [userId] and [body] into the tables [t]. *)
Definition new_api (new_api_id : Tables -> string) (userId : string) (body : ApiBody)
    (t : Tables) : ApiRow :=
  {| a_id := new_api_id t; a_user_id := userId;
     a_api_name := Js.or_default (b_apiName body) EmptyString;
     a_api_name_slug := Js.or_default (b_apiNameSlug body) EmptyString |}.

(** The id the database gives to a new API is the id of no API and of no
    endpoint's API. *)
Definition fresh_api_id (id : string) (t : Tables) : Prop :=
  (forall a, In a (apis_table t) -> a_id a <> id)
  /\ (forall e, In e (endpoints_table t) -> e_api_id e <> id).

(** The rows POST and PUT store pass the path check, are active and have
    no [monetized_url]. *)
Definition checked_row (apiId : string) (e : EndpointRow) : Prop :=
  e_api_id e = apiId
  /\ matches_slug (e_endpoint_path e) = true
  /\ e_active e = true
  /\ e_monetized_url e = None.

(* ===================================================================== *)
(** ** Wallets and usernames (routes/auth.ts)                             *)
(* ===================================================================== *)

Inductive AuthOp :=
| OpFindWallet
| OpInsertUser
| OpFindUsername
| OpSetUsername.

(** [/^[a-z0-9_]+$/.test(s)] *)
Definition username_char (c : ascii) : bool :=
  let n := nat_of_ascii c in
  ((97 <=? n)%nat && (n <=? 122)%nat) || ((48 <=? n)%nat && (n <=? 57)%nat)
  || (n =? 95)%nat.

Definition matches_username (s : string) : bool :=
  Js.truthy s && forallb username_char (list_ascii_of_string s).

Definition with_user (t : Tables) (u : UserRow) : Tables :=
  {| users_table := users_table t ++ [u];
     apis_table := apis_table t;
     endpoints_table := endpoints_table t |}.

Definition named (username : string) (u : UserRow) : UserRow :=
  {| u_id := u_id u; u_wallet_address := u_wallet_address u; u_username := Some username |}.

(** [.update({ username }).eq('wallet_address', walletAddress)] on the rows. *)
Definition with_username (walletAddress username : string) (t : Tables) : Tables :=
  {| users_table :=
       map (fun u => if String.eqb (u_wallet_address u) walletAddress
                     then named username u else u)
           (users_table t);
     apis_table := apis_table t;
     endpoints_table := endpoints_table t |}.

Section Accounts.

(** How each Supabase call of a request goes. *)
Variable auth_fault : AuthOp -> Fault.
(** utils/stacks.js: [isValidStacksAddress], and the [network] and
    [isTestnet] of [getNetworkInfo()]. *)
Variable isValidStacksAddress : string -> bool.
Variable info_network : string.
Variable info_isTestnet : bool.
(** The id the database gives to an inserted user. *)
Variable new_user_id : Tables -> string.
(** A row of [users] as Supabase returns it. *)
Variable user_json : UserRow -> Json.
(** Whether an update is undone when [.single()] finds that it changed
    several rows. *)
Variable rolls_back : bool.

(** [.from('users').select(...).eq(...).single()] *)
Definition find_user (ft : Fault) (p : UserRow -> bool) : R (QueryResult UserRow) :=
  match ft with
  | Rejects e => raise e
  | ErrorResult e => ret {| data := None; error := Some e |}
  | NoFault =>
      t <- read_tables ;;
      ret (single (filter p (users_table t)))
  end.

(** [.from('users').insert({ wallet_address, username: null }).select().single()] *)
Definition insert_user (ft : Fault) (wallet_address : string) : R (JsError + UserRow) :=
  match ft with
  | Rejects e => raise e
  | ErrorResult e => ret (inl e)
  | NoFault =>
      t <- read_tables ;;
      let user := {| u_id := new_user_id t; u_wallet_address := wallet_address;
                     u_username := None |} in
      write_tables (with_user t user) ;;
      ret (inr user)
  end.

(** [.from('users').update({ username }).eq('wallet_address', walletAddress).select().single()] *)
Definition update_username (ft : Fault) (walletAddress username : string)
  : R (JsError + UserRow) :=
  match ft with
  | Rejects e => raise e
  | ErrorResult e => ret (inl e)
  | NoFault =>
      t <- read_tables ;;
      match filter (fun u => String.eqb (u_wallet_address u) walletAddress) (users_table t) with
      | [u] =>
          write_tables (with_username walletAddress username t) ;;
          ret (inr (named username u))
      | [] => ret (inl no_rows)
      | _ :: _ :: _ =>
          (if rolls_back then ret tt
           else write_tables (with_username walletAddress username t)) ;;
          ret (inl no_rows)
      end
  end.

Definition registered (user : UserRow) (isNew : bool) : Response :=
  json_response 200
    (JObj [("success", JBool true); ("user", user_json user); ("isNew", JBool isNew)]).

(** [router.post('/register-wallet', ...)]; [wallet_address] is
    [req.body.wallet_address], a string or absent. *)
Definition register_wallet (wallet_address : option string) : R Response :=
  catch
    (if negb (Js.truthy_opt wallet_address)
     then ret (json_response 400 (failure "Wallet address is required"))
     else
       let wallet := Js.or_default wallet_address EmptyString in
       if negb (isValidStacksAddress wallet)
       then ret (json_response 400
                   (failure ("Invalid Stacks wallet address format for " ++ info_network
                             ++ ". Expected " ++ (if info_isTestnet then "ST" else "SP")
                             ++ " prefix.")))
       else
         existing <- find_user (auth_fault OpFindWallet)
                       (fun u => String.eqb (u_wallet_address u) wallet) ;;
         match data existing with
         | Some existingUser => ret (registered existingUser false)
         | None =>
             inserted <- insert_user (auth_fault OpInsertUser) wallet ;;
             match inserted with
             | inl err =>
                 r_log LError "Error creating user:" (Some err) ;;
                 ret (json_response 500 (failure "Failed to create user"))
             | inr newUser => ret (registered newUser true)
             end
         end)
    (fun e =>
       r_log LError "Register wallet error:" (Some e) ;;
       ret (internal_error e)).

(** [router.post('/set-username', verifyWalletAuth, ...)]: [walletAddress]
    is [req.walletAddress] and [userId] is [req.user?.id], both set by the
    middleware; [username] is [req.body.username], a string or absent. *)
Definition set_username (userId : option string) (walletAddress : string)
    (username : option string) : R Response :=
  catch
    (if negb (Js.truthy_opt username)
     then ret (json_response 400 (failure "Username is required"))
     else
       let name := Js.or_default username EmptyString in
       if negb (matches_username name)
       then ret (json_response 400
                   (failure "Username can only contain lowercase letters, numbers, and underscores"))
       else
         existing <- find_user (auth_fault OpFindUsername)
                       (fun u => opt_string_eqb (u_username u) (Some name)) ;;
         if match data existing with
            | Some existingUser => negb (opt_string_eqb (Some (u_id existingUser)) userId)
            | None => false
            end
         then ret (json_response 400 (failure "Username already taken"))
         else
           updated <- update_username (auth_fault OpSetUsername) walletAddress name ;;
           match updated with
           | inl err =>
               r_log LError "Error updating username:" (Some err) ;;
               ret (json_response 500 (failure "Failed to update username"))
           | inr updatedUser =>
               ret (json_response 200
                      (JObj [("success", JBool true); ("user", user_json updatedUser)]))
           end)
    (fun e =>
       r_log LError "Set username error:" (Some e) ;;
       ret (internal_error e)).

End Accounts.

(** No two users have one wallet. *)
Definition wallets_unique (t : Tables) : Prop :=
  NoDup (map u_wallet_address (users_table t)).

(** The usernames in use, one per user that has one. *)
Definition usernames (us : list UserRow) : list string :=
  flat_map (fun u => match u_username u with Some n => [n] | None => [] end) us.

(** No two users have one username. *)
Definition usernames_unique (t : Tables) : Prop := NoDup (usernames (users_table t)).

(* ===================================================================== *)
(** ** The network configuration (config/network.ts)                      *)
(* ===================================================================== *)

(** The two network objects of [@stacks/network]. *)
Inductive StacksNet := STACKS_MAINNET | STACKS_TESTNET.

Record NetworkConfig := {
  nc_network : string;
  nc_stacksNetwork : StacksNet;
  nc_isTestnet : bool;
  nc_apiUrl : string;
  nc_explorerUrl : string
}.

(** [networkConfig], from [process.env.NETWORK] as the module finds it. *)
Definition networkConfig (NETWORK : option string) : NetworkConfig :=
  let network := Js.toLowerCase (Js.or_default NETWORK "testnet") in
  let isTestnet := String.eqb network "testnet" in
  {| nc_network := network;
     nc_stacksNetwork :=
       if String.eqb network "mainnet" then STACKS_MAINNET else STACKS_TESTNET;
     nc_isTestnet := isTestnet;
     nc_apiUrl :=
       if String.eqb network "mainnet" then "https://api.hiro.so"
       else "https://api.testnet.hiro.so";
     nc_explorerUrl :=
       if isTestnet then "https://explorer.stacks.co/?chain=testnet"
       else "https://explorer.stacks.co" |}.

(* ===================================================================== *)
(** ** A small registry                                                   *)
(* ===================================================================== *)

Module Office.

Definition alice : UserRow :=
  {| u_id := "u-1"; u_wallet_address := "SP2DEVELOPER"; u_username := Some "alice" |}.

Definition bob : UserRow :=
  {| u_id := "u-2"; u_wallet_address := "SP3BOB"; u_username := None |}.

Definition weather : ApiRow :=
  {| a_id := "api-1"; a_user_id := "u-1"; a_api_name := "Weather";
     a_api_name_slug := "weather" |}.

Definition forecast : EndpointRow :=
  {| e_id := "ep-1"; e_api_id := "api-1"; e_endpoint_name := "Forecast";
     e_endpoint_path := "forecast";
     e_original_url := "https://origin.example/v1/forecast?units=metric";
     e_price_microstx := 1500000; e_active := true; e_monetized_url := None |}.

Definition books : Tables :=
  {| users_table := [alice; bob]; apis_table := [weather]; endpoints_table := [forecast] |}.

Definition healthy : ApiOp -> Fault := fun _ => NoFault.

(** The insert of the endpoints fails; everything else works. *)
Definition endpoints_fail : ApiOp -> Fault :=
  fun op => match op with OpInsertEndpoints => ErrorResult Demo.fetch_failed | _ => NoFault end.

Definition next_api (t : Tables) : string :=
  "api-" ++ Price.int_to_string (N.of_nat (S (length (apis_table t)))).

Definition next_endpoint (t : Tables) (k : nat) : string :=
  "ep-" ++ Price.int_to_string (N.of_nat (S (length (endpoints_table t) + k))).

(** Prices of the requests below: "0.02" STX. *)
Definition price_of (p : option string) : Z :=
  match p with Some _ => 20000 | None => 0 end.

Definition row_json (a : ApiRow) : Json :=
  JObj [("id", JStr (a_id a)); ("user_id", JStr (a_user_id a));
        ("api_name", JStr (a_api_name a)); ("api_name_slug", JStr (a_api_name_slug a))].

Definition tides : EndpointInput :=
  {| i_endpointName := Some "Tides"; i_name := None;
     i_endpointPath := Some "tides"; i_path := None;
     i_originalUrl := Some "https://origin.example/v1/tides"; i_original_url := None;
     i_price := Some "0.02" |}.

Definition bad_path : EndpointInput :=
  {| i_endpointName := Some "Tides"; i_name := None;
     i_endpointPath := Some "v1/Tides"; i_path := None;
     i_originalUrl := Some "https://origin.example/v1/tides"; i_original_url := None;
     i_price := Some "0.02" |}.

Definition sea (endpoints : list EndpointInput) : ApiBody :=
  {| b_apiName := Some "Sea"; b_apiNameSlug := Some "sea"; b_endpoints := Some endpoints |}.

Definition replace_with (endpoints : list EndpointInput) : ApiBody :=
  {| b_apiName := None; b_apiNameSlug := None; b_endpoints := Some endpoints |}.

Definition sound : AuthOp -> Fault := fun _ => NoFault.

Definition any_address (w : string) : bool := true.

Definition next_user (t : Tables) : string :=
  "u-" ++ Price.int_to_string (N.of_nat (S (length (users_table t)))).

Definition user_row_json (u : UserRow) : Json :=
  JObj [("id", JStr (u_id u)); ("wallet_address", JStr (u_wallet_address u));
        ("username", match u_username u with Some n => JStr n | None => JNull end)].

Definition register (wallet_address : option string) (t : Tables)
  : (JsError + Response) * Site :=
  register_wallet sound any_address "testnet" true next_user user_row_json
                  wallet_address (site t).

Definition choose_name (userId : option string) (walletAddress : string)
    (username : option string) (t : Tables) : (JsError + Response) * Site :=
  set_username sound user_row_json true userId walletAddress username (site t).

Definition post (faults : ApiOp -> Fault) (userId : string) (body : ApiBody) (t : Tables)
  : (JsError + Response) * Site :=
  create_api faults next_api next_endpoint price_of row_json true userId body (site t).

Definition put (faults : ApiOp -> Fault) (userId id : string) (body : ApiBody) (t : Tables)
  : (JsError + Response) * Site :=
  update_api faults next_endpoint price_of userId id body (site t).

Definition del (faults : ApiOp -> Fault) (userId id : string) (t : Tables)
  : (JsError + Response) * Site :=
  delete_api faults true userId id (site t).

End Office.
(* ===================================================================== *)
(** * Properties                                                          *)
(* ===================================================================== *)

(** ** The price shown to the caller *)

Module PriceFacts.
Import Price.

Lemma no_dot_app a b : no_dot a -> no_dot b -> no_dot (a ++ b).
Proof.
  induction a as [|c a IH]; simpl; intros Ha Hb; [exact Hb|].
  destruct Ha as [Hc Ha]. split; auto.
Qed.

Lemma digit_char_no_dot d : digit_char d <> "."%char.
Proof.
  unfold digit_char. intros H.
  assert (Hlt : (d mod 10 < 10)%N) by (apply N.mod_lt; discriminate).
  revert H Hlt. generalize (d mod 10)%N. intros x H Hlt.
  apply (f_equal N_of_ascii) in H.
  rewrite N_ascii_embedding in H by lia.
  change (N_of_ascii "."%char) with 46%N in H. lia.
Qed.

Lemma fixed_digits_no_dot k : forall m, no_dot (fixed_digits k m).
Proof.
  induction k as [|k IH]; intros m; simpl; [exact I|].
  apply no_dot_app; [apply IH|]. simpl. split; [apply digit_char_no_dot | exact I].
Qed.

Lemma uint_no_dot d : no_dot (NilEmpty.string_of_uint d).
Proof.
  induction d; simpl; try exact I; (split; [discriminate | assumption]).
Qed.

Lemma int_to_string_no_dot n : no_dot (int_to_string n).
Proof.
  unfold int_to_string, NilZero.string_of_uint.
  destruct (N.to_uint n) eqn:E; try apply uint_no_dot.
  simpl. split; [discriminate | exact I].
Qed.

Lemma fixed_digits_nonempty k m : fixed_digits (S k) m <> EmptyString.
Proof.
  simpl. destruct (fixed_digits k (m / 10)); discriminate.
Qed.

(** A string in which a point follows cannot be all zeros. *)
Lemma zeros_plus_with_dot a b : zeros_plus (a ++ String "." b) = false.
Proof.
  induction a as [|c a IH]; simpl.
  - destruct b; reflexivity.
  - rewrite IH. destruct (a ++ String "." b) eqn:E.
    + destruct a; discriminate.
    + apply andb_false_r.
Qed.

Lemma replace_trailing_int (i f : string) :
  no_dot i ->
  replace_trailing (i ++ String "." f) = i ++ replace_trailing (String "." f).
Proof.
  induction i as [|c i IH]; intros Hi; [reflexivity|].
  destruct Hi as [Hc Hi].
  change ((String c i ++ String "." f)%string) with (String c (i ++ String "." f)).
  cbv beta iota delta [replace_trailing]. fold replace_trailing.
  assert (Hm : matches_here (String c (i ++ String "." f)) = false).
  { unfold matches_here.
    assert (Hz : zeros_plus (String c (i ++ String "." f)) = false)
      by (apply (zeros_plus_with_dot (String c i) f)).
    destruct c as [[] [] [] [] [] [] [] []]; try exact Hz.
    exfalso. apply Hc. reflexivity. }
  rewrite Hm. simpl. rewrite IH by exact Hi. reflexivity.
Qed.

(** On digits, what is left after trimming is empty exactly for a run of
    zeros. *)
Lemma zeros_plus_cons c r :
  zeros_plus (String c r) =
  Ascii.eqb c "0" && match r with EmptyString => true | _ => zeros_plus r end.
Proof.
  destruct r; simpl; [rewrite andb_true_r|]; reflexivity.
Qed.

Lemma trim_cons c r :
  trim_trailing_zeros (String c r) =
  match trim_trailing_zeros r with
  | EmptyString => if Ascii.eqb c "0" then EmptyString else String c EmptyString
  | r' => String c r'
  end.
Proof. reflexivity. Qed.

Lemma trim_empty_iff (s : string) :
  s <> EmptyString ->
  (trim_trailing_zeros s = EmptyString <-> zeros_plus s = true).
Proof.
  induction s as [|c r IH]; intros Hne; [congruence|].
  rewrite trim_cons, zeros_plus_cons.
  destruct r as [|c' r'].
  - simpl. rewrite andb_true_r. destruct (Ascii.eqb c "0"); split; congruence.
  - assert (Hr : String c' r' <> EmptyString) by discriminate.
    specialize (IH Hr).
    destruct (trim_trailing_zeros (String c' r')) eqn:Et.
    + rewrite (proj1 IH eq_refl), andb_true_r.
      destruct (Ascii.eqb c "0"); split; congruence.
    + destruct (zeros_plus (String c' r')) eqn:Ez.
      * destruct IH as [_ IH]. specialize (IH eq_refl). discriminate.
      * rewrite andb_false_r. split; discriminate.
Qed.

Lemma replace_trailing_digits (s : string) :
  no_dot s -> replace_trailing s = trim_trailing_zeros s.
Proof.
  induction s as [|c r IH]; intros Hs; [reflexivity|].
  destruct Hs as [Hc Hr].
  cbv beta iota delta [replace_trailing]. fold replace_trailing.
  assert (Hm : matches_here (String c r) = zeros_plus (String c r)).
  { unfold matches_here.
    destruct c as [[] [] [] [] [] [] [] []]; try reflexivity.
    exfalso. apply Hc. reflexivity. }
  rewrite Hm, (IH Hr).
  assert (Hne : String c r <> EmptyString) by discriminate.
  pose proof (trim_empty_iff Hne) as Hiff.
  rewrite trim_cons in *.
  destruct (zeros_plus (String c r)) eqn:Ez.
  - symmetry. apply Hiff. reflexivity.
  - destruct (trim_trailing_zeros r) eqn:Et; [|reflexivity].
    destruct (Ascii.eqb c "0"); [|reflexivity].
    destruct Hiff as [Hiff _]. specialize (Hiff eq_refl). discriminate.
Qed.

Lemma priceSTX_decimal (n : N) : priceSTX n = decimal_trimmed n.
Proof.
  unfold priceSTX, decimal_trimmed, toFixed6.
  set (i := int_to_string (n / 1000000)).
  set (f := fixed_digits 6 (n mod 1000000)).
  change (("." ++ f)%string) with (String "." f).
  rewrite replace_trailing_int by apply int_to_string_no_dot.
  f_equal.
  assert (Hf : no_dot f) by apply fixed_digits_no_dot.
  assert (Hne : f <> EmptyString) by apply fixed_digits_nonempty.
  cbv beta iota delta [replace_trailing]. fold replace_trailing.
  unfold matches_here.
  rewrite (replace_trailing_digits f Hf).
  pose proof (trim_empty_iff Hne) as Hiff.
  destruct (zeros_plus f) eqn:Ez.
  - destruct Hiff as [_ H]. rewrite (H eq_refl). reflexivity.
  - destruct (trim_trailing_zeros f) eqn:Et; [|reflexivity].
    destruct Hiff as [H _]. specialize (H eq_refl). discriminate.
Qed.

End PriceFacts.

Lemma field_set_field k v o : field k (set_field k v o) = Some v.
Proof.
  induction o as [|[k' v'] o IH]; cbn.
  - rewrite String.eqb_refl. reflexivity.
  - destruct (String.eqb k' k) eqn:E; cbn; rewrite E; [reflexivity | exact IH].
Qed.

Lemma set_field_twice k v v' o : set_field k v' (set_field k v o) = set_field k v' o.
Proof.
  induction o as [|[k' v''] o IH]; cbn.
  - rewrite String.eqb_refl. reflexivity.
  - destruct (String.eqb k' k) eqn:E; cbn; rewrite E; [reflexivity | rewrite IH; reflexivity].
Qed.


Local Open Scope list_scope.

(** ** Running the handler monad *)

Lemma run_bind {A B} (c : M A) (k : A -> M B) (w : World) :
  (bind c k) w = match c w with
                 | (inr a, w') => k a w'
                 | (inl e, w') => (inl e, w')
                 end.
Proof. reflexivity. Qed.

Lemma run_catch {A} (c : M A) (h : JsError -> M A) (w : World) :
  (catch c h) w = match c w with
                  | (inr a, w') => (inr a, w')
                  | (inl e, w') => h e w'
                  end.
Proof. reflexivity. Qed.

Ltac mrun :=
  cbv beta iota zeta delta [bind ret raise catch Monad_M Exc_M m_bind m_ret m_raise m_catch
                            emit log read_db write_db detached];
  cbn [db console calls data error fst snd].

Lemma select_single_run (ft : Fault) (p : Endpoint -> bool) (w : World) :
  select_single ft p w =
  match ft with
  | Rejects e => (inl e, w)
  | ErrorResult e => (inr {| data := None; error := Some e |}, w)
  | NoFault =>
      (inr match filter p (endpoints (db w)) with
           | [row] => {| data := Some row; error := None |}
           | _ => {| data := None; error := Some no_rows |}
           end, w)
  end.
Proof.
  unfold select_single. destruct ft; try reflexivity.
  mrun. destruct (filter p (endpoints (db w))) as [|row [|row' rest]]; reflexivity.
Qed.

Ltac break_match :=
  match goal with
  | |- context [match ?x with _ => _ end] => destruct x eqn:?
  end.

Ltac run_all := repeat (mrun; try rewrite !run_catch; try rewrite !run_bind; try break_match).

(** ** What is written to the console *)

Lemma tidy_ret {A} (a : A) : tidy (ret a).
Proof. intros w H. exact H. Qed.

Lemma tidy_raise {A} (e : JsError) : tidy (raise e : M A).
Proof. intros w H. exact H. Qed.

Lemma tidy_bind {A B} (c : M A) (k : A -> M B) :
  tidy c -> (forall a, tidy (k a)) -> tidy (bind c k).
Proof.
  intros Hc Hk w H. rewrite run_bind. specialize (Hc w H).
  destruct (c w) as [[e|a] w1]; cbn in *; [exact Hc | apply Hk; exact Hc].
Qed.

Lemma tidy_catch {A} (c : M A) (h : JsError -> M A) :
  tidy c -> (forall e, tidy (h e)) -> tidy (catch c h).
Proof.
  intros Hc Hh w H. rewrite run_catch. specialize (Hc w H).
  destruct (c w) as [[e|a] w1]; cbn in *; [apply Hh; exact Hc | exact Hc].
Qed.

Lemma tidy_emit e : tidy (emit e).
Proof. intros w H. exact H. Qed.

Lemma tidy_read_db : tidy read_db.
Proof. intros w H. exact H. Qed.

Lemma tidy_write_db d : tidy (write_db d).
Proof. intros w H. exact H. Qed.

Lemma tidy_log l t d : In t known_messages -> tidy (log l t d).
Proof.
  intros Ht w H. cbn. apply Forall_app. split; [exact H|].
  constructor; [exact Ht | constructor].
Qed.

Ltac tidy_step :=
  first
    [ apply tidy_ret
    | apply tidy_raise
    | apply tidy_emit
    | apply tidy_read_db
    | apply tidy_write_db
    | apply tidy_log; cbn; auto 20
    | apply tidy_bind; [|intro]
    | apply tidy_catch; [|intro]
    | match goal with
      | |- tidy (match ?x with _ => _ end) => destruct x
      | |- tidy (if ?x then _ else _) => destruct x
      end ].

Lemma tidy_select_single ft p : tidy (select_single ft p).
Proof. unfold select_single. repeat tidy_step. Qed.

Lemma tidy_insert_call ft row : tidy (insert_call ft row).
Proof. unfold insert_call. repeat tidy_step. Qed.

Lemma tidy_update_call ft key status latency : tidy (update_call ft key status latency).
Proof. unfold update_call. repeat tidy_step. Qed.

Lemma tidy_materializer env ft_fetch ft_update endpointId :
  tidy (updateMonetizedUrlForEndpoint env ft_fetch ft_update endpointId).
Proof.
  unfold updateMonetizedUrlForEndpoint, materializer_read, materializer_write,
    materializer_catch, update_monetized_url.
  repeat first [apply tidy_select_single | tidy_step].
Qed.

(** ** The materializer never throws and touches only [monetized_url] *)

Lemma materializer_read_total env ft endpointId w :
  exists r w', materializer_read env ft endpointId w = (r, w')
               /\ db w' = db w /\ calls w' = calls w.
Proof.
  unfold materializer_read. rewrite run_bind, select_single_run.
  destruct ft.
  - destruct (filter _ (endpoints (db w))) as [|row [|row' rest]];
      mrun; repeat break_match; mrun; eauto.
  - mrun. eauto.
  - eauto.
Qed.

Lemma materializer_write_frame ft endpointId url w :
  exists r w', materializer_write ft endpointId url w = (r, w')
               /\ api_calls (db w') = api_calls (db w) /\ calls w' = calls w
               /\ (endpoints (db w') = endpoints (db w)
                   \/ endpoints (db w') = map (set_monetized_url endpointId url) (endpoints (db w))).
Proof.
  unfold materializer_write, update_monetized_url.
  destruct ft; mrun; eauto 10.
Qed.

Lemma materializer_total env ft_fetch ft_update endpointId w :
  exists w', updateMonetizedUrlForEndpoint env ft_fetch ft_update endpointId w = (inr tt, w')
             /\ api_calls (db w') = api_calls (db w) /\ calls w' = calls w.
Proof.
  unfold updateMonetizedUrlForEndpoint. rewrite run_catch, run_bind.
  destruct (materializer_read_total env ft_fetch endpointId w) as (r & w1 & E & Hdb & Hc).
  rewrite E. destruct r as [e|[url|]].
  - unfold materializer_catch. mrun. eexists; split; [reflexivity|]. cbn. rewrite Hdb, Hc. auto.
  - destruct (materializer_write_frame ft_update endpointId url w1) as (r2 & w2 & E2 & Ha & Hc2 & _).
    rewrite E2. destruct r2 as [e|[]].
    + unfold materializer_catch. mrun. eexists; split; [reflexivity|]. cbn.
      rewrite Ha, Hc2, Hdb, Hc. auto.
    + eexists; split; [reflexivity|]. rewrite Ha, Hc2, Hdb, Hc. auto.
  - mrun. eexists; split; [reflexivity|]. rewrite Hdb, Hc. auto.
Qed.

(** ** Reading the list of calls *)

Lemma inserts_app a b : inserts (a ++ b) = inserts a ++ inserts b.
Proof.
  induction a as [|x a IH]; [reflexivity|]. destruct x; cbn; rewrite IH; reflexivity.
Qed.

Lemma updates_app a b : updates (a ++ b) = updates a ++ updates b.
Proof.
  induction a as [|x a IH]; [reflexivity|]. destruct x; cbn; rewrite IH; reflexivity.
Qed.

Lemma inserts_completion payment status latency :
  inserts (completion payment status latency) = [].
Proof. destruct payment; reflexivity. Qed.

Lemma updates_admission payment endpointConfig :
  updates (admission payment endpointConfig) = [].
Proof. destruct payment; reflexivity. Qed.

Section GatewayFacts.

Variable env : Env.
Variable db_fault : DbOp -> Fault.
Variable paymentMiddleware : MwConfig -> Request -> MwOutcome.
Variable origin : ProxyRequest -> OriginOutcome.
Variable elapsed : ProxyRequest -> nat.
Variable parseURL : string -> option TargetUrl.
Variable JSON_stringify : Json -> string.
Variable encodeReceipt : Receipt -> string.
Variable privateKeyToAccount : QVal -> string -> JsError + Account.
Variable paidGet : PaidGet -> AxiosOutcome.
Variable decodePaymentResponse : string -> option PaymentData.
Variable formEncode : list (string * string) -> string.
Variable direct_elapsed : nat.

Local Abbreviation serve' :=
  (serve env db_fault paymentMiddleware origin elapsed parseURL JSON_stringify
         encodeReceipt privateKeyToAccount paidGet decodePaymentResponse formEncode
         direct_elapsed).
Local Abbreviation route' :=
  (route env db_fault paymentMiddleware origin elapsed parseURL JSON_stringify
         encodeReceipt privateKeyToAccount paidGet decodePaymentResponse formEncode
         direct_elapsed).

Local Abbreviation hpr' :=
  (handleProxiedRequest db_fault origin elapsed parseURL JSON_stringify encodeReceipt).
Local Abbreviation hdp' :=
  (handleDirectPayment env db_fault privateKeyToAccount paidGet decodePaymentResponse
                       formEncode direct_elapsed).
Local Abbreviation ProxiedRun' :=
  (ProxiedRun db_fault origin elapsed parseURL JSON_stringify encodeReceipt).
Local Abbreviation DirectRun' :=
  (DirectRun env privateKeyToAccount paidGet decodePaymentResponse formEncode direct_elapsed).
Local Abbreviation Served' :=
  (Served env db_fault paymentMiddleware origin elapsed parseURL JSON_stringify
          encodeReceipt privateKeyToAccount paidGet decodePaymentResponse formEncode
          direct_elapsed).
Local Abbreviation resolved' := (resolved db_fault).

(** ** The handlers run as the run relations say *)

Lemma insert_call_run ft row w :
  exists r w', insert_call ft row w = (r, w')
    /\ calls w' = calls w ++ [EvLedgerInsert row]
    /\ endpoints (db w') = endpoints (db w)
    /\ (forall e, r = inl e -> ft = Rejects e)
    /\ (forall e, ft = Rejects e -> r = inl e)
    /\ api_calls (db w') = match ft with
                           | NoFault => api_calls (db w) ++ [row]
                           | _ => api_calls (db w)
                           end.
Proof.
  unfold insert_call. destruct ft; mrun; do 2 eexists;
    (split; [reflexivity|]); repeat split; intros; congruence.
Qed.

Lemma update_call_run ft key status latency w :
  exists r w', update_call ft key status latency w = (r, w')
    /\ calls w' = calls w ++ [EvLedgerUpdate key status latency]
    /\ endpoints (db w') = endpoints (db w)
    /\ api_calls (db w') = match ft with
                           | NoFault => map (set_outcome key status latency) (api_calls (db w))
                           | _ => api_calls (db w)
                           end.
Proof.
  unfold update_call. destruct ft; mrun; do 2 eexists;
    (split; [reflexivity|]); repeat split; reflexivity.
Qed.

Lemma onProxyRes_run payment status latency w :
  exists w', onProxyRes db_fault encodeReceipt payment status latency w
             = (inr (receipt_headers encodeReceipt payment), w')
    /\ calls w' = calls w ++ completion payment status latency
    /\ endpoints (db w') = endpoints (db w)
    /\ length (api_calls (db w')) = length (api_calls (db w)).
Proof.
  unfold onProxyRes, receipt_headers, completion, receipt_of.
  destruct payment as [p|].
  - rewrite run_bind. unfold detached. rewrite run_catch, run_bind.
    destruct (update_call_run (db_fault OpLedgerUpdate) (transaction p) status latency w)
      as (r & w1 & E & Hc & Hd & Ha).
    assert (Hl : length (api_calls (db w1)) = length (api_calls (db w)))
      by (rewrite Ha; destruct (db_fault OpLedgerUpdate); try reflexivity; apply length_map).
    rewrite E. destruct r as [e|o]; mrun; eexists; (split; [reflexivity|]); cbn; auto.
  - mrun. eexists. split; [reflexivity|]. cbn. rewrite app_nil_r. auto.
Qed.

Lemma proxied_runs req payment endpointConfig w :
  exists resp w' l,
    hpr' req payment endpointConfig w = (inr resp, w')
    /\ calls w' = calls w ++ l
    /\ endpoints (db w') = endpoints (db w)
    /\ ProxiedRun' req payment endpointConfig resp l
    /\ (db_fault OpLedgerInsert = NoFault ->
        length (api_calls (db w')) = length (api_calls (db w)) + length (inserts l)).
Proof.
  unfold handleProxiedRequest. rewrite run_catch, run_bind.
  assert (Hadm : exists r w1,
             (match payment with
              | Some p =>
                  insert_call (db_fault OpLedgerInsert)
                    {| endpoint_id := cfg_id endpointConfig; caller_wallet := payer p;
                       tx_hash := transaction p;
                       amount_paid := cfg_price_microstx endpointConfig;
                       status_code := None; latency_ms := None |} ;; ret tt
              | None => ret tt
              end) w = (r, w1)
             /\ calls w1 = calls w ++ admission payment endpointConfig
             /\ endpoints (db w1) = endpoints (db w)
             /\ (forall e, r = inl e ->
                   exists p, payment = Some p /\ db_fault OpLedgerInsert = Rejects e)
             /\ (r = inr tt ->
                   payment = None \/ forall e, db_fault OpLedgerInsert <> Rejects e)
             /\ (db_fault OpLedgerInsert = NoFault ->
                 length (api_calls (db w1))
                 = length (api_calls (db w)) + length (inserts (admission payment endpointConfig)))).
  { destruct payment as [p|].
    - rewrite run_bind.
      destruct (insert_call_run (db_fault OpLedgerInsert) (admission_row endpointConfig p) w)
        as (r & w1 & E & Hc & Hd & Hrej & Hrej' & Ha).
      unfold admission_row in E. rewrite E.
      assert (Hlen : db_fault OpLedgerInsert = NoFault ->
                     length (api_calls (db w1)) = length (api_calls (db w)) + 1).
      { intros Hf. rewrite Ha, Hf, length_app. reflexivity. }
      destruct r as [e|o]; mrun; do 2 eexists; (split; [reflexivity|]);
        (split; [exact Hc|]); (split; [exact Hd|]); (split; [|split]); try exact Hlen.
      + intros e' He. inversion He; subst. exists p. split; [reflexivity|]. apply Hrej. reflexivity.
      + discriminate.
      + discriminate.
      + intros _. right. intros e He. specialize (Hrej' e He). discriminate.
    - mrun. do 2 eexists. split; [reflexivity|]. cbn. rewrite app_nil_r, Nat.add_0_r.
      repeat split; try discriminate. intros _. left. reflexivity. }
  destruct Hadm as (r & w1 & E & Hc & Hd & Hbad & Hok & Hlen). rewrite E.
  destruct r as [e|[]].
  - destruct (Hbad e eq_refl) as (p & Hp & Hf).
    mrun. do 3 eexists. split; [reflexivity|]. cbn.
    split; [exact Hc|]. split; [exact Hd|]. split; [eapply RunInsertRejected; eauto|].
    intros Hn. congruence.
  - specialize (Hok eq_refl).
    destruct (parseURL (cfg_original_url endpointConfig)) as [t|] eqn:Et.
    + mrun.
      destruct (origin (onProxyReq JSON_stringify req t)) as [status hs payload|e] eqn:Eo.
      * match goal with
        | |- context [onProxyRes _ _ _ _ _ ?w2] =>
            destruct (onProxyRes_run payment status
                        (elapsed (onProxyReq JSON_stringify req t)) w2)
              as (w3 & E3 & Hc3 & Hd3 & Hl3)
        end.
        rewrite E3. mrun. do 3 eexists. split; [reflexivity|].
        split; [|split; [|split]].
        -- rewrite Hc3. cbn. rewrite Hc, <- !app_assoc. reflexivity.
        -- rewrite Hd3. cbn. exact Hd.
        -- eapply RunRelayed; eauto.
        -- intros Hn. rewrite Hl3. cbn [db api_calls].
           rewrite (Hlen Hn), !inserts_app, inserts_completion. cbn. rewrite app_nil_r.
           reflexivity.
      * mrun. do 3 eexists. split; [reflexivity|]. cbn.
        split; [|split; [|split]].
        -- rewrite Hc, <- app_assoc. reflexivity.
        -- exact Hd.
        -- eapply RunOriginError; eauto.
        -- intros Hn. rewrite (Hlen Hn), inserts_app. cbn. rewrite app_nil_r. reflexivity.
    + mrun. do 3 eexists. split; [reflexivity|].
      split; [exact Hc|]. split; [exact Hd|]. split; [eapply RunBadTarget; eauto|].
      exact Hlen.
Qed.

Ltac as_direct_failure e Er :=
  match goal with
  | |- DirectRun _ _ _ _ _ _ _ _ _ ?r _ =>
      replace r with (direct_failure e)
        by (unfold direct_failure; rewrite Er; reflexivity)
  end.

Lemma direct_runs req endpointConfig privateKey w :
  exists resp w' l,
    hdp' req endpointConfig privateKey w = (inr resp, w')
    /\ calls w' = calls w ++ l
    /\ endpoints (db w') = endpoints (db w)
    /\ DirectRun' req endpointConfig privateKey resp l
    /\ (db_fault OpDirectInsert = NoFault ->
        length (api_calls (db w')) = length (api_calls (db w)) + length (inserts l)).
Proof.
  unfold handleDirectPayment. rewrite run_catch.
  destruct (privateKeyToAccount privateKey (network_of_env env)) as [e|account] eqn:Ek.
  - mrun.
    destruct (err_response e) as [[status data]|] eqn:Er; mrun; do 3 eexists;
      (split; [reflexivity|]); cbn;
      (split; [symmetry; apply app_nil_r|]); (split; [reflexivity|]);
      (split; [|intros _; cbn; lia]);
      as_direct_failure e Er; eapply DirectBadKey; eauto.
  - fold (reissued env formEncode req account).
    set (g := reissued env formEncode req account).
    mrun. destruct (paidGet g) as [status hs data|e] eqn:Eg.
    + set (payment := payment_of_response env decodePaymentResponse hs (address account)).
      assert (R : DirectRun' req endpointConfig privateKey (json_response status data)
                    (EvReissue g
                     :: if Js.truthy_opt (transaction payment)
                        then [EvLedgerInsert (direct_row direct_elapsed endpointConfig payment status)]
                        else []))
        by (eapply DirectPaid; eauto).
      destruct (Js.truthy_opt (transaction payment)) eqn:Et.
      * fold (direct_row direct_elapsed endpointConfig payment status).
        unfold detached. mrun.
        match goal with
        | |- context [insert_call ?ft ?row ?w0] =>
            destruct (insert_call_run ft row w0) as (r & w1 & E & Hc & Hd & _ & _ & Ha)
        end.
        cbn [db api_calls] in Ha.
        rewrite E. destruct r as [e|o]; mrun; do 3 eexists;
          (split; [reflexivity|]); cbn; rewrite Hc; cbn; rewrite <- app_assoc;
          (split; [reflexivity|]); (split; [exact Hd|]); (split; [exact R|]);
          intros Hn; rewrite Ha, Hn, length_app; cbn; reflexivity.
      * mrun. do 3 eexists. split; [reflexivity|]. cbn.
        split; [reflexivity|]. split; [reflexivity|]. split; [exact R|].
        intros _. cbn. lia.
    + mrun.
      destruct (err_response e) as [[status data]|] eqn:Er; mrun; do 3 eexists;
        (split; [reflexivity|]); cbn;
        (split; [reflexivity|]); (split; [reflexivity|]);
        (split; [|intros _; cbn; lia]);
        as_direct_failure e Er; eapply DirectFailed; eauto.
Qed.

Lemma served_runs req d :
  exists resp w',
    serve' req d = (inr resp, w') /\ Served' req d resp (calls w')
    /\ (db_fault (match privateKey_of req with
                  | Some _ => OpDirectInsert
                  | None => OpLedgerInsert
                  end) = NoFault ->
        length (api_calls (db w')) = length (api_calls d) + length (inserts (calls w'))).
Proof.
  unfold serve, route. rewrite run_catch, run_bind, select_single_run.
  destruct (db_fault OpResolve) as [|e|e] eqn:Ef.
  - cbn [fresh db].
    destruct (filter _ (endpoints d)) as [|row [|row' rest]] eqn:Efl.
    + mrun. do 2 eexists. split; [reflexivity|]. cbn.
      split; [|intros; lia].
      apply ServedNotFound; [|intros e He; congruence].
      intros row [_ H]. rewrite Efl in H. discriminate.
    + assert (Hres : resolved' req d row) by (split; assumption).
      cbn [data error]. unfold re_monetized_url. cbn [Js.truthy_opt negb].
      rewrite !run_bind. mrun.
      match goal with
      | |- context [updateMonetizedUrlForEndpoint ?e ?f1 ?f2 ?i ?w0] =>
          destruct (materializer_total e f1 f2 i w0) as (w1 & E1 & Ha1 & Hc1)
      end.
      cbn [select_columns re_id] in *. rewrite E1. cbn in Hc1, Ha1.
      destruct (privateKey_of req) as [privateKey|] eqn:Epk; cbv beta iota.
      * match goal with
        | |- context [handleDirectPayment _ _ _ _ _ _ _ req ?c] =>
            change c with (config_of row)
        end.
        edestruct (direct_runs req (config_of row)) as (resp & w2 & l & E2 & Hc2 & _ & R & Hl).
        rewrite E2. do 2 eexists. split; [reflexivity|].
        rewrite Hc2, Hc1. cbn. split; [eapply ServedDirect; eauto|].
        intros Hn. rewrite (Hl Hn), Ha1. reflexivity.
      * match goal with
        | |- context [paymentMiddleware ?o req] =>
            change o with (options_of env row)
        end.
        destruct (paymentMiddleware (options_of env row) req) as [payment|status body] eqn:Emw.
        -- mrun.
           match goal with
           | |- context [handleProxiedRequest _ _ _ _ _ _ req payment ?c] =>
               change c with (config_of row)
           end.
           edestruct (proxied_runs req payment (config_of row))
             as (resp & w2 & l & E2 & Hc2 & _ & R & Hl).
           rewrite E2. do 2 eexists. split; [reflexivity|].
           rewrite Hc2. cbn. rewrite Hc1. cbn. split; [eapply ServedVerified; eauto|].
           intros Hn. rewrite (Hl Hn). cbn. rewrite Ha1. reflexivity.
        -- do 2 eexists. split; [reflexivity|]. cbn. rewrite Hc1. cbn.
           split; [eapply ServedChallenge; eauto|].
           intros _. rewrite Ha1. lia.
    + mrun. do 2 eexists. split; [reflexivity|]. cbn.
      split; [|intros; lia].
      apply ServedNotFound; [|intros e He; congruence].
      intros r [_ H]. rewrite Efl in H. discriminate.
  - mrun. do 2 eexists. split; [reflexivity|]. cbn.
    split; [|intros; lia].
    apply ServedNotFound; [|intros e' He; congruence].
    intros r [H _]. congruence.
  - mrun. do 2 eexists. split; [reflexivity|]. cbn.
    split; [|intros; lia]. eapply ServedQueryRejected; eauto.
Qed.

Lemma route_unresolved (req : Request) (w : World) :
  (forall e, db_fault OpResolve <> Rejects e) ->
  (forall row, filter (resolves (params_username req) (params_apiName req) (params_0 req))
                      (endpoints (db w)) <> [row]) ->
  route' req w = (inr not_found, w).
Proof.
  intros Hrej Hnone. unfold route.
  rewrite run_catch, run_bind, select_single_run.
  destruct (db_fault OpResolve) as [|e|e] eqn:Ef.
  - destruct (filter _ (endpoints (db w))) as [|row [|row' rest]] eqn:Efl; try reflexivity.
    exfalso. apply (Hnone row). reflexivity.
  - reflexivity.
  - exfalso. apply (Hrej e). reflexivity.
Qed.

Lemma serve_result req d resp w :
  serve' req d = (inr resp, w) -> Served' req d resp (calls w).
Proof.
  intros H. destruct (served_runs req d) as (resp' & w' & E & R & _).
  rewrite E in H. inversion H; subst. exact R.
Qed.

Lemma resolved_unique req d row row' :
  resolved' req d row -> resolved' req d row' -> row = row'.
Proof.
  intros [_ H] [_ H']. rewrite H in H'. inversion H'. reflexivity.
Qed.

Lemma resolved_row req d row :
  resolved' req d row ->
  In row (endpoints d)
  /\ active row = true
  /\ username (users (apis row)) = Some (params_username req)
  /\ api_name_slug (apis row) = params_apiName req
  /\ endpoint_path row = params_0 req.
Proof.
  intros [_ H].
  assert (Hin : In row (filter (resolves (params_username req) (params_apiName req)
                                         (params_0 req)) (endpoints d)))
    by (rewrite H; left; reflexivity).
  apply filter_In in Hin. destruct Hin as [Hin Hr]. split; [exact Hin|].
  unfold resolves, names_match in Hr.
  apply andb_prop in Hr. destruct Hr as [Hr Ha].
  apply andb_prop in Hr. destruct Hr as [Hr Hp].
  apply andb_prop in Hr. destruct Hr as [Hu Hs].
  split; [destruct (active row); [reflexivity | discriminate]|].
  split.
  - unfold opt_string_eqb in Hu. destruct (username (users (apis row))); [|discriminate].
    apply String.eqb_eq in Hu. congruence.
  - split; apply String.eqb_eq; assumption.
Qed.

(** C8.  When the registry query is answered and no active endpoint carries
    the three names of the address (none matches, or only inactive ones
    do), the answer is 404 "Endpoint not found" and nothing else happens: no
    collaborator is called, the database and the console are as before.
    Whenever a collaborator is called, exactly one row passed the filter,
    and that row is active and carries the three names. *)
Theorem resolution_is_all_or_nothing req d :
  (forall e, db_fault OpResolve <> Rejects e) ->
  ((forall e, In e (endpoints d) ->
              names_match (params_username req) (params_apiName req) (params_0 req) e = true ->
              active e = false) ->
   serve' req d = (inr not_found, fresh d))
  /\ (forall resp w,
        serve' req d = (inr resp, w) -> calls w <> [] ->
        exists row,
          filter (resolves (params_username req) (params_apiName req) (params_0 req))
                 (endpoints d) = [row]
          /\ In row (endpoints d)
          /\ active row = true
          /\ username (users (apis row)) = Some (params_username req)
          /\ api_name_slug (apis row) = params_apiName req
          /\ endpoint_path row = params_0 req).
Proof.
  intros Hrej. split.
  - intros Hnone. unfold serve. apply route_unresolved; [exact Hrej|].
    intros row Hf.
    assert (Hin : In row (filter (resolves (params_username req) (params_apiName req)
                                           (params_0 req)) (endpoints (db (fresh d)))))
      by (rewrite Hf; left; reflexivity).
    apply filter_In in Hin. destruct Hin as [Hin Hr]. cbn in Hin.
    unfold resolves in Hr. apply andb_prop in Hr. destruct Hr as [Hn Ha].
    rewrite (Hnone row Hin Hn) in Ha. discriminate.
  - intros resp w Hs Hcalls. apply serve_result in Hs.
    inversion Hs; subst; try congruence;
      match goal with
      | H : resolved _ req d ?row |- _ =>
          exists row; split; [exact (proj2 H) | exact (resolved_row H)]
      end.
Qed.

Lemma gated_admission payment endpointConfig rest :
  gated true (admission payment endpointConfig ++ rest) = gated true rest.
Proof. destruct payment; reflexivity. Qed.

Lemma gated_completion payment status latency :
  gated true (completion payment status latency) = true.
Proof. destruct payment; reflexivity. Qed.

Lemma in_admission fwd payment endpointConfig :
  ~ In (EvForward fwd) (admission payment endpointConfig).
Proof. destruct payment; cbn; intuition discriminate. Qed.

Lemma in_completion fwd payment status latency :
  ~ In (EvForward fwd) (completion payment status latency).
Proof. destruct payment; cbn; intuition discriminate. Qed.

Lemma direct_run_quiet req endpointConfig privateKey resp l :
  DirectRun' req endpointConfig privateKey resp l ->
  forwards l = [] /\ updates l = [] /\ (forall cfg out, ~ In (EvGate cfg out) l)
  /\ forall verified, gated verified l = true.
Proof.
  intros R. inversion R; subst; cbn.
  - repeat split; auto.
  - repeat split; auto. intros cfg out [Hin|[]]. discriminate.
  - destruct (Js.truthy_opt _); cbn; repeat split; auto;
      intros cfg out Hin; cbn in Hin; intuition discriminate.
Qed.

(** C1.  In every served request the monitor [gated] accepts the calls: a
    request is written to the origin only after the payment middleware has
    called [next()].  If a request [fwd] was written to the origin, the
    address resolved to a row, no private key was supplied, the middleware
    answered [MwNext payment] on this very request, and the calls are, in
    order: the materializer, the gate, the ledger insert of the payment (if
    one is attached), the forward, then the completion.  The payment the
    gate attached is the one in the inserted row, in the key of the
    completion update and in the receipt header of the relayed response. *)
Theorem forward_only_after_verified req d resp w :
  serve' req d = (inr resp, w) ->
  gated false (calls w) = true
  /\ forall fwd, In (EvForward fwd) (calls w) ->
       exists row payment rest,
         resolved' req d row
         /\ privateKey_of req = None
         /\ paymentMiddleware (options_of env row) req = MwNext payment
         /\ calls w = EvMaterialize (id row)
                      :: EvGate (options_of env row) (MwNext payment)
                      :: admission payment (config_of row) ++ EvForward fwd :: rest
         /\ (forall e, origin fwd = OriginError e -> rest = [])
         /\ (forall status hs payload,
               origin fwd = OriginResponse status hs payload ->
               rest = completion payment status (elapsed fwd)
               /\ resp = relayed encodeReceipt payment status hs payload).
Proof.
  intros Hs. apply serve_result in Hs. revert Hs. generalize (calls w). intros cs Hs.
  inversion Hs as [e He | Hn Hr | row pk resp0 l Hres Hpk R | row status body resp0 Hres Hpk Hmw Hresp
                   | row payment resp0 l Hres Hpk Hmw R]; subst.
  - split; [reflexivity | intros fwd []].
  - split; [reflexivity | intros fwd []].
  - destruct (direct_run_quiet R) as (Hf & _ & _ & Hg). split.
    + cbn. apply Hg.
    + intros fwd [Hin|Hin]; [discriminate|].
      exfalso. clear - Hf Hin. induction l as [|x l IH]; [contradiction|].
      destruct x; cbn in Hf; try discriminate;
        destruct Hin as [Hx|Hin]; try discriminate; auto.
  - split; [reflexivity|]. intros fwd [H|[H|[]]]; discriminate.
  - inversion R as [p e Hp Hf | Hok Hparse | t e Hok Hparse Ho | t status hs payload Hok Hparse Ho];
      subst.
    + split.
      * cbn [gated]. try destruct payment; reflexivity.
      * intros fwd [H|[H|H]]; try discriminate. destruct (in_admission _ _ _ H).
    + split.
      * cbn [gated]. try destruct payment; reflexivity.
      * intros fwd [H|[H|H]]; try discriminate. destruct (in_admission _ _ _ H).
    + split.
      * cbn [gated]. rewrite gated_admission. reflexivity.
      * intros fwd [H|[H|H]]; try discriminate.
        apply in_app_or in H. destruct H as [H|[H|[]]]; [destruct (in_admission _ _ _ H)|].
        inversion H; subst fwd.
        exists row, payment, [].
        split; [exact Hres|]. split; [exact Hpk|]. split; [exact Hmw|].
        split; [reflexivity|]. split; [reflexivity|].
        intros status hs payload Ho'. congruence.
    + split.
      * cbn [gated]. rewrite gated_admission. cbn [gated app andb]. apply gated_completion.
      * intros fwd [H|[H|H]]; try discriminate.
        apply in_app_or in H. destruct H as [H|[H|H]];
          [destruct (in_admission _ _ _ H) | | destruct (in_completion _ _ _ _ H)].
        inversion H; subst fwd.
        exists row, payment, (completion payment status (elapsed (onProxyReq JSON_stringify req t))).
        split; [exact Hres|]. split; [exact Hpk|]. split; [exact Hmw|].
        split; [reflexivity|].
        split; [intros e Ho'; congruence|].
        intros status' hs' payload' Ho'. rewrite Ho in Ho'. inversion Ho'; subst.
        split; reflexivity.
Qed.

Lemma proxied_run_ledger req payment endpointConfig resp l :
  ProxiedRun' req payment endpointConfig resp l ->
  inserts l = inserts (admission payment endpointConfig)
  /\ (updates l = [] \/ exists status latency, updates l = updates (completion payment status latency))
  /\ (forall cfg out, ~ In (EvGate cfg out) l).
Proof.
  assert (Hadm : forall cfg out, ~ In (EvGate cfg out) (admission payment endpointConfig))
    by (intros cfg out; destruct payment; cbn; intuition discriminate).
  assert (Hcmp : forall status latency cfg out,
             ~ In (EvGate cfg out) (completion payment status latency))
    by (intros status latency cfg out; destruct payment; cbn; intuition discriminate).
  intros R. inversion R; subst.
  - split; [reflexivity|]. split; [left; reflexivity | exact Hadm].
  - split; [reflexivity|]. split; [left; apply updates_admission | exact Hadm].
  - rewrite inserts_app, updates_app, updates_admission. cbn. rewrite app_nil_r.
    split; [reflexivity|]. split; [left; reflexivity|].
    intros cfg out Hin. apply in_app_or in Hin. destruct Hin as [Hin|[Hin|[]]];
      [exact (Hadm _ _ Hin) | discriminate].
  - rewrite !inserts_app, !updates_app, updates_admission, inserts_completion.
    cbn. rewrite app_nil_r.
    split; [reflexivity|]. split; [right; eauto|].
    intros cfg out Hin. apply in_app_or in Hin. destruct Hin as [Hin|[Hin|Hin]];
      [exact (Hadm _ _ Hin) | discriminate | exact (Hcmp _ _ _ _ Hin)].
Qed.


Lemma proxied_run_functional req payment endpointConfig resp l resp' l' :
  ProxiedRun' req payment endpointConfig resp l ->
  ProxiedRun' req payment endpointConfig resp' l' ->
  resp = resp' /\ l = l'.
Proof.
  intros R R'.
  inversion R; subst; inversion R'; subst;
    try (split; reflexivity); try congruence;
    repeat match goal with
           | H : Some _ = Some _ |- _ => inversion H; subst; clear H
           | H : _ \/ _ |- _ => destruct H; try discriminate
           | H : forall e, db_fault OpLedgerInsert <> Rejects e,
             H' : db_fault OpLedgerInsert = Rejects ?e |- _ => destruct (H e H')
           | H : parseURL ?u = _, H' : parseURL ?u = _ |- _ =>
               rewrite H in H'; inversion H'; subst; clear H'
           | H : origin ?u = _, H' : origin ?u = _ |- _ =>
               rewrite H in H'; inversion H'; subst; clear H'
           end;
    try (split; reflexivity); try congruence.
Qed.

Lemma direct_run_functional req endpointConfig privateKey resp l resp' l' :
  DirectRun' req endpointConfig privateKey resp l ->
  DirectRun' req endpointConfig privateKey resp' l' ->
  resp = resp' /\ l = l'.
Proof.
  intros R R'.
  inversion R; subst; inversion R'; subst;
    repeat match goal with
           | H : privateKeyToAccount ?k ?n = _, H' : privateKeyToAccount ?k ?n = _ |- _ =>
               rewrite H in H'; inversion H'; subst; clear H'
           | H : paidGet ?g = _, H' : paidGet ?g = _ |- _ =>
               rewrite H in H'; inversion H'; subst; clear H'
           end;
    try (split; reflexivity); try congruence.
Qed.

Lemma served_functional req d resp l resp' l' :
  Served' req d resp l -> Served' req d resp' l' -> resp = resp' /\ l = l'.
Proof.
  intros R R'.
  inversion R; subst; inversion R'; subst;
    try (split; reflexivity); try congruence;
    try match goal with
        | H : forall row, ~ resolved _ req d row, H' : resolved _ req d ?r |- _ =>
            destruct (H r H')
        | H : resolved _ req d ?r, H' : db_fault OpResolve = Rejects _ |- _ =>
            destruct H as [H _]; congruence
        end;
    try match goal with
        | H : resolved _ req d ?r, H' : resolved _ req d ?r' |- _ =>
            pose proof (resolved_unique H H'); subst r'
        end;
    try congruence.
  - match goal with
    | H : privateKey_of req = Some ?a, H' : privateKey_of req = Some ?b |- _ =>
        rewrite H in H'; inversion H'; subst
    end.
    match goal with
    | H : DirectRun _ _ _ _ _ _ _ _ _ _ _, H' : DirectRun _ _ _ _ _ _ _ _ _ _ _ |- _ =>
        destruct (direct_run_functional H H'); subst
    end.
    split; reflexivity.
  - match goal with
    | H : paymentMiddleware ?o req = _, H' : paymentMiddleware ?o req = _ |- _ =>
        rewrite H in H'; inversion H'; subst
    end.
    split; reflexivity.
  - match goal with
    | H : paymentMiddleware ?o req = _, H' : paymentMiddleware ?o req = _ |- _ =>
        rewrite H in H'; inversion H'; subst
    end.
    match goal with
    | H : ProxiedRun _ _ _ _ _ _ _ _ _ _ _, H' : ProxiedRun _ _ _ _ _ _ _ _ _ _ _ |- _ =>
        destruct (proxied_run_functional H H'); subst
    end.
    split; reflexivity.
Qed.

Lemma tidy_direct req endpointConfig privateKey : tidy (hdp' req endpointConfig privateKey).
Proof.
  unfold handleDirectPayment, detached.
  repeat first [apply tidy_insert_call | tidy_step].
Qed.

Lemma tidy_proxied req payment endpointConfig : tidy (hpr' req payment endpointConfig).
Proof.
  unfold handleProxiedRequest, onProxyRes, detached.
  repeat first [apply tidy_insert_call | apply tidy_update_call | tidy_step].
Qed.

Lemma tidy_route req : tidy (route' req).
Proof.
  unfold route.
  repeat first [apply tidy_select_single | apply tidy_materializer
               | apply tidy_direct | apply tidy_proxied | tidy_step].
Qed.

Lemma reissues_app a b : reissues (a ++ b) = reissues a ++ reissues b.
Proof.
  induction a as [|x a IH]; [reflexivity|]. destruct x; cbn; rewrite IH; reflexivity.
Qed.

Lemma proxied_run_no_reissue req payment endpointConfig resp l :
  ProxiedRun' req payment endpointConfig resp l -> reissues l = [].
Proof.
  intros R. inversion R; subst; rewrite ?reissues_app; try destruct payment; reflexivity.
Qed.

Lemma direct_run_reissues req endpointConfig privateKey resp l :
  DirectRun' req endpointConfig privateKey resp l ->
  (reissues l = [] /\ exists e, privateKeyToAccount privateKey (network_of_env env) = inl e)
  \/ (exists account,
        privateKeyToAccount privateKey (network_of_env env) = inr account
        /\ reissues l = [reissued env formEncode req account]).
Proof.
  intros R. inversion R; subst.
  - left. split; [reflexivity | eauto].
  - right. eexists. split; [eassumption | reflexivity].
  - right. eexists. split; [eassumption|]. cbn. destruct (Js.truthy_opt _); reflexivity.
Qed.

Lemma direct_run_inserts req endpointConfig privateKey resp l c :
  DirectRun' req endpointConfig privateKey resp l ->
  In c (inserts l) ->
  endpoint_id c = cfg_id endpointConfig /\ amount_paid c = cfg_price_microstx endpointConfig.
Proof.
  intros R Hin. inversion R; subst; cbn in Hin; try contradiction.
  destruct (Js.truthy_opt _); cbn in Hin; [|contradiction].
  destruct Hin as [<-|[]]. split; reflexivity.
Qed.

Lemma delete_same_but (q1 q2 : list (string * string)) :
  Forall2 (same_but "privateKey") q1 q2 ->
  searchParams_delete "privateKey" q1 = searchParams_delete "privateKey" q2.
Proof.
  unfold searchParams_delete.
  induction 1 as [|a b q1 q2 [Hk Hv] _ IH]; [reflexivity|].
  cbn [filter]. rewrite <- Hk.
  destruct (String.eqb (fst a) "privateKey") eqn:E; cbn [negb]; [exact IH|].
  apply String.eqb_neq in E. specialize (Hv E).
  destruct a, b; cbn in *; subst. rewrite IH. reflexivity.
Qed.

Lemma delete_removes name v ps : ~ In (name, v) (searchParams_delete name ps).
Proof.
  unfold searchParams_delete. intros H. apply filter_In in H. destruct H as [_ H].
  cbn in H. rewrite String.eqb_refl in H. discriminate.
Qed.

Lemma served_direct req d resp w privateKey :
  serve' req d = (inr resp, w) ->
  privateKey_of req = Some privateKey ->
  forwards (calls w) = []
  /\ (forall g, In g (reissues (calls w)) ->
        exists account, g = reissued env formEncode req account)
  /\ (forall c row, In c (inserts (calls w)) -> resolved' req d row ->
        endpoint_id c = id row /\ amount_paid c = price_microstx row)
  /\ Forall known (console w).
Proof.
  intros Hs Hpk.
  assert (Hk : Forall known (console w)).
  { pose proof (tidy_route req (fresh d) (Forall_nil _)) as T.
    unfold serve in Hs. rewrite Hs in T. exact T. }
  apply serve_result in Hs. revert Hs. generalize (calls w). intros cs Hs.
  inversion Hs as [e He | Hn Hr | row pk resp0 l Hres Hpk' R | row status body resp0 Hres Hpk' Hmw Hresp
                   | row payment resp0 l Hres Hpk' Hmw R]; subst; try congruence.
  - repeat split; auto; cbn; contradiction.
  - repeat split; auto; cbn; contradiction.
  - destruct (direct_run_quiet R) as (Hf & _ & _ & _).
    split; [exact Hf|]. split; [|split; [|exact Hk]].
    + intros g Hin. cbn in Hin.
      destruct (direct_run_reissues R) as [[H0 _]|(account & _ & H1)].
      * rewrite H0 in Hin. contradiction.
      * rewrite H1 in Hin. destruct Hin as [<-|[]]. eauto.
    + intros c row' Hin Hres'. pose proof (resolved_unique Hres Hres'); subst row'.
      cbn in Hin. exact (direct_run_inserts c R Hin).
Qed.



End GatewayFacts.

(* ===================================================================== *)
(** ** Which Supabase faults a request can see                            *)
(* ===================================================================== *)

Section FaultFacts.

Variable env : Env.
Variable paymentMiddleware : MwConfig -> Request -> MwOutcome.
Variable origin : ProxyRequest -> OriginOutcome.
Variable elapsed : ProxyRequest -> nat.
Variable parseURL : string -> option TargetUrl.
Variable JSON_stringify : Json -> string.
Variable encodeReceipt : Receipt -> string.
Variable privateKeyToAccount : QVal -> string -> JsError + Account.
Variable paidGet : PaidGet -> AxiosOutcome.
Variable decodePaymentResponse : string -> option PaymentData.
Variable formEncode : list (string * string) -> string.
Variable direct_elapsed : nat.

Local Abbreviation serve_with f :=
  (serve env f paymentMiddleware origin elapsed parseURL JSON_stringify
         encodeReceipt privateKeyToAccount paidGet decodePaymentResponse formEncode
         direct_elapsed).
Local Abbreviation Served_with f :=
  (Served env f paymentMiddleware origin elapsed parseURL JSON_stringify
          encodeReceipt privateKeyToAccount paidGet decodePaymentResponse formEncode
          direct_elapsed).

Lemma same_insert_fault (f f' : DbOp -> Fault) :
  f OpLedgerInsert = f' OpLedgerInsert ->
  (forall e, f OpLedgerInsert <> Rejects e) -> forall e, f' OpLedgerInsert <> Rejects e.
Proof. intros H Hn e. rewrite <- H. apply Hn. Qed.

(** The answer and the calls depend on the faults of the resolving query
    and of the admission insert only. *)
Lemma proxied_run_faults (f f' : DbOp -> Fault) req payment endpointConfig resp l :
  f OpLedgerInsert = f' OpLedgerInsert ->
  ProxiedRun f origin elapsed parseURL JSON_stringify encodeReceipt
             req payment endpointConfig resp l ->
  ProxiedRun f' origin elapsed parseURL JSON_stringify encodeReceipt
             req payment endpointConfig resp l.
Proof.
  intros Hi R.
  assert (Hok : (payment = None \/ forall e, f OpLedgerInsert <> Rejects e) ->
                (payment = None \/ forall e, f' OpLedgerInsert <> Rejects e)).
  { intros [H|H]; [left; exact H | right; exact (same_insert_fault f f' Hi H)]. }
  inversion R; subst.
  - eapply RunInsertRejected; [reflexivity | rewrite <- Hi; eassumption].
  - apply RunBadTarget; auto.
  - eapply RunOriginError; eauto.
  - eapply RunRelayed; eauto.
Qed.

Lemma served_faults (f f' : DbOp -> Fault) req d resp l :
  f OpResolve = f' OpResolve ->
  f OpLedgerInsert = f' OpLedgerInsert ->
  Served_with f req d resp l -> Served_with f' req d resp l.
Proof.
  intros Hr Hi R.
  assert (Hres : forall row, resolved f req d row -> resolved f' req d row)
    by (intros row [H1 H2]; split; [rewrite <- Hr; exact H1 | exact H2]).
  assert (Hres' : forall row, resolved f' req d row -> resolved f req d row)
    by (intros row [H1 H2]; split; [rewrite Hr; exact H1 | exact H2]).
  inversion R; subst.
  - eapply ServedQueryRejected. rewrite <- Hr. eassumption.
  - apply ServedNotFound.
    + intros row H'. eapply H. apply Hres'. exact H'.
    + intros e He. rewrite <- Hr in He. eapply H0. exact He.
  - eapply ServedDirect; eauto.
  - eapply ServedChallenge; eauto.
  - eapply ServedVerified; eauto. eapply (@proxied_run_faults f f'); eauto.
Qed.

Lemma serve_same_faults (f f' : DbOp -> Fault) req d :
  f OpResolve = f' OpResolve ->
  f OpLedgerInsert = f' OpLedgerInsert ->
  fst (serve_with f req d) = fst (serve_with f' req d)
  /\ calls (snd (serve_with f req d)) = calls (snd (serve_with f' req d)).
Proof.
  intros Hr Hi.
  destruct (served_runs env f paymentMiddleware origin elapsed parseURL JSON_stringify
              encodeReceipt privateKeyToAccount paidGet decodePaymentResponse formEncode
              direct_elapsed req d) as (resp & w & E & R & _).
  destruct (served_runs env f' paymentMiddleware origin elapsed parseURL JSON_stringify
              encodeReceipt privateKeyToAccount paidGet decodePaymentResponse formEncode
              direct_elapsed req d) as (resp' & w' & E' & R' & _).
  rewrite E, E'. cbn.
  apply (@served_faults f f' _ _ _ _ Hr Hi) in R.
  destruct (served_functional R R') as [-> ->]. split; reflexivity.
Qed.

Lemma materializer_failure_keeps_db ft_fetch ft_update endpointId w :
  ft_fetch <> NoFault \/ ft_update <> NoFault ->
  exists w',
    updateMonetizedUrlForEndpoint env ft_fetch ft_update endpointId w = (inr tt, w')
    /\ db w' = db w.
Proof.
  intros Hf. unfold updateMonetizedUrlForEndpoint. rewrite run_catch, run_bind.
  destruct (materializer_read_total env ft_fetch endpointId w) as (r & w1 & E & Hdb & Hc).
  rewrite E. destruct r as [e|[url|]].
  - unfold materializer_catch. mrun. eexists; split; [reflexivity|]. exact Hdb.
  - unfold materializer_write, update_monetized_url.
    destruct ft_update as [|e|e].
    + destruct Hf as [Hf|Hf]; [|congruence].
      exfalso. unfold materializer_read in E. rewrite run_bind, select_single_run in E.
      destruct ft_fetch; [congruence| |]; mrun; cbn in E; inversion E.
    + mrun. eexists; split; [reflexivity|]. exact Hdb.
    + unfold materializer_catch. mrun. eexists; split; [reflexivity|]. exact Hdb.
  - mrun. eexists; split; [reflexivity|]. exact Hdb.
Qed.

(** C9.  Whatever happens to the two Supabase calls of the materializer
    (they may answer with an error or reject), the caller gets the answer
    and the collaborators get the calls they would have got otherwise; the
    route always produces an answer; every request that resolves invokes the
    materializer first, whatever earlier requests did; the materializer
    always returns normally, touching neither the ledger nor any
    collaborator, and when one of its calls fails it leaves the database as
    it was. *)
Theorem materializer_failure_is_not_fatal (f f' : DbOp -> Fault) req d :
  (forall op, op <> OpMaterializeFetch -> op <> OpMaterializeUpdate -> f op = f' op) ->
  fst (serve_with f req d) = fst (serve_with f' req d)
  /\ calls (snd (serve_with f req d)) = calls (snd (serve_with f' req d))
  /\ (exists resp, fst (serve_with f req d) = inr resp)
  /\ (forall row, resolved f req d row ->
                  exists rest, calls (snd (serve_with f req d)) = EvMaterialize (id row) :: rest)
  /\ (forall w endpointId,
        exists w',
          updateMonetizedUrlForEndpoint env (f OpMaterializeFetch) (f OpMaterializeUpdate)
                                        endpointId w = (inr tt, w')
          /\ api_calls (db w') = api_calls (db w)
          /\ calls w' = calls w
          /\ (f OpMaterializeFetch <> NoFault \/ f OpMaterializeUpdate <> NoFault ->
              db w' = db w)).
Proof.
  intros Hsame.
  assert (Hr : f OpResolve = f' OpResolve) by (apply Hsame; discriminate).
  assert (Hi : f OpLedgerInsert = f' OpLedgerInsert) by (apply Hsame; discriminate).
  destruct (serve_same_faults f f' req d Hr Hi) as [H1 H2].
  split; [exact H1|]. split; [exact H2|].
  destruct (served_runs env f paymentMiddleware origin elapsed parseURL JSON_stringify
              encodeReceipt privateKeyToAccount paidGet decodePaymentResponse formEncode
              direct_elapsed req d) as (resp & w & E & R & _).
  rewrite E. cbn [fst snd].
  split; [exists resp; reflexivity|]. split.
  - intros row Hres. revert R. generalize (calls w). intros cs R.
    inversion R; subst;
      try match goal with
          | H : resolved _ req d ?r |- _ => pose proof (resolved_unique Hres H); subst r
          end;
      try (eexists; reflexivity).
    + destruct Hres as [Hres _]. congruence.
    + match goal with H : forall row, ~ resolved _ req d row |- _ => destruct (H row Hres) end.
  - intros w0 endpointId.
    destruct (materializer_total env (f OpMaterializeFetch) (f OpMaterializeUpdate)
                endpointId w0) as (w1 & E1 & Ha & Hc).
    exists w1. split; [exact E1|]. split; [exact Ha|]. split; [exact Hc|].
    intros Hf.
    destruct (@materializer_failure_keeps_db (f OpMaterializeFetch) (f OpMaterializeUpdate)
                endpointId w0 Hf) as (w2 & E2 & Hd).
    rewrite E1 in E2. inversion E2; subst. exact Hd.
Qed.

End FaultFacts.

(* ===================================================================== *)
(** ** Two materializations of one endpoint                               *)
(* ===================================================================== *)

Lemma truthy_app_sep a c b : Js.truthy (a ++ String c b)%string = true.
Proof. destruct a; reflexivity. Qed.

Lemma set_monetized_url_id endpointId url e :
  id (set_monetized_url endpointId url e) = id e.
Proof. unfold set_monetized_url. destruct (String.eqb (id e) endpointId); reflexivity. Qed.

Lemma set_monetized_url_twice endpointId url e :
  set_monetized_url endpointId url (set_monetized_url endpointId url e)
  = set_monetized_url endpointId url e.
Proof.
  unfold set_monetized_url at 2 3.
  destruct (String.eqb (id e) endpointId) eqn:E.
  - unfold set_monetized_url. cbn. rewrite E. reflexivity.
  - unfold set_monetized_url. rewrite E. reflexivity.
Qed.

Lemma filter_id_set endpointId url l :
  filter (fun e => String.eqb (id e) endpointId) (map (set_monetized_url endpointId url) l)
  = map (set_monetized_url endpointId url)
        (filter (fun e => String.eqb (id e) endpointId) l).
Proof.
  induction l as [|e l IH]; [reflexivity|].
  cbn [map filter]. rewrite set_monetized_url_id, IH.
  destruct (String.eqb (id e) endpointId); reflexivity.
Qed.

Section RaceFacts.

Variable env : Env.
Variable endpointId : string.
Variable w0 : World.
Variable row : Endpoint.
Variable name : string.

Hypothesis one_row :
  filter (fun e => String.eqb (id e) endpointId) (endpoints (db w0)) = [row].
Hypothesis not_yet : Js.truthy_opt (monetized_url row) = false.
Hypothesis has_owner : username (users (apis row)) = Some name.
Hypothesis owner_named : Js.truthy name = true.
Hypothesis has_slug : Js.truthy (api_name_slug (apis row)) = true.
Hypothesis has_path : Js.truthy (endpoint_path row) = true.

Local Abbreviation url := (materialized env row name).
Local Abbreviation before := (endpoints (db w0)).
Local Abbreviation after := (map (set_monetized_url endpointId url) (endpoints (db w0))).

Lemma url_truthy : Js.truthy url = true.
Proof. unfold materialized, monetizedUrl. apply truthy_app_sep. Qed.

Lemma row_id : id row = endpointId.
Proof.
  assert (H : In row (filter (fun e => String.eqb (id e) endpointId) (endpoints (db w0))))
    by (rewrite one_row; left; reflexivity).
  apply filter_In in H. destruct H as [_ H]. apply String.eqb_eq. exact H.
Qed.

Lemma after_stable : map (set_monetized_url endpointId url) after = after.
Proof.
  rewrite map_map. apply map_ext. intros e. apply set_monetized_url_twice.
Qed.

Lemma read_before ft w :
  endpoints (db w) = before ->
  exists r w1, materializer_read env ft endpointId w = (r, w1)
               /\ db w1 = db w
               /\ (forall u, r = inr (Some u) -> u = url)
               /\ (ft = NoFault -> r = inr (Some url)).
Proof.
  intros Hw. unfold materializer_read. rewrite run_bind, select_single_run.
  destruct ft as [|e|e].
  - rewrite Hw, one_row. cbn [data error].
    rewrite not_yet, has_owner, owner_named, has_slug, has_path. cbn [negb orb].
    mrun. do 2 eexists. split; [reflexivity|]. cbn.
    split; [reflexivity|]. split; [intros u H; inversion H; reflexivity | reflexivity].
  - mrun. do 2 eexists. split; [reflexivity|]. cbn.
    split; [reflexivity|]. split; [intros u H; discriminate | discriminate].
  - do 2 eexists. split; [reflexivity|]. cbn.
    split; [reflexivity|]. split; [intros u H; discriminate | discriminate].
Qed.

Lemma monetized_url_set :
  monetized_url (set_monetized_url endpointId url row) = Some url.
Proof. unfold set_monetized_url. rewrite row_id, String.eqb_refl. reflexivity. Qed.

Lemma read_after ft w :
  endpoints (db w) = after ->
  exists r w1, materializer_read env ft endpointId w = (r, w1)
               /\ db w1 = db w
               /\ (forall u, r <> inr (Some u)).
Proof.
  intros Hw. unfold materializer_read. rewrite run_bind, select_single_run.
  destruct ft as [|e|e].
  - rewrite Hw, filter_id_set, one_row. cbn [map data error].
    rewrite monetized_url_set. cbn [Js.truthy_opt]. rewrite url_truthy.
    mrun. do 2 eexists. split; [reflexivity|]. cbn.
    split; [reflexivity|]. intros u H. discriminate.
  - mrun. do 2 eexists. split; [reflexivity|]. cbn.
    split; [reflexivity|]. intros u H. discriminate.
  - do 2 eexists. split; [reflexivity|]. cbn.
    split; [reflexivity|]. intros u H. discriminate.
Qed.

Local Abbreviation pc_ok' := (pc_ok url after).
Local Abbreviation race_ok' := (race_ok url before after (api_calls (db w0))).

Lemma step_ok (fts other : MatFaults) pc pc_other w :
  (endpoints (db w) = before \/ endpoints (db w) = after) ->
  api_calls (db w) = api_calls (db w0) ->
  pc_ok' fts pc w -> pc_ok' other pc_other w ->
  exists pc' w',
    materializer_step env fts endpointId pc w = (inr pc', w')
    /\ (endpoints (db w') = before \/ endpoints (db w') = after)
    /\ api_calls (db w') = api_calls (db w0)
    /\ pc_ok' fts pc' w' /\ pc_ok' other pc_other w'.
Proof.
  intros Hw Ha Hpc Hother.
  assert (Hkeep : forall w', endpoints (db w') = endpoints (db w) -> pc_ok' other pc_other w').
  { intros w' E. destruct pc_other; cbn in *; auto. intros Hn. rewrite E. auto. }
  destruct pc as [|u|].
  - (* the read *)
    unfold materializer_step. rewrite run_catch, run_bind.
    destruct Hw as [Hw|Hw].
    + destruct (read_before (on_fetch fts) w Hw) as (r & w1 & E & Hdb & Hu & Hn).
      rewrite E.
      destruct r as [e|[u|]]; unfold materializer_catch; mrun; do 2 eexists;
        (split; [reflexivity|]); cbn [db]; rewrite ?Hdb;
        (split; [left; exact Hw|]); (split; [exact Ha|]); (split; [|apply Hkeep; cbn; rewrite ?Hdb; reflexivity]).
      * cbn. intros Hf. rewrite Hf in Hn. discriminate (Hn eq_refl).
      * cbn. apply Hu. reflexivity.
      * cbn. intros Hf. rewrite Hf in Hn. discriminate (Hn eq_refl).
    + destruct (read_after (on_fetch fts) w Hw) as (r & w1 & E & Hdb & Hu).
      rewrite E.
      destruct r as [e|[u|]]; unfold materializer_catch; mrun; do 2 eexists;
        (split; [reflexivity|]); cbn [db]; rewrite ?Hdb;
        (split; [right; exact Hw|]); (split; [exact Ha|]); (split; [|apply Hkeep; cbn; rewrite ?Hdb; reflexivity]).
      * cbn. rewrite ?Hdb. intros _. exact Hw.
      * destruct (Hu u eq_refl).
      * cbn. rewrite ?Hdb. intros _. exact Hw.
  - (* the write *)
    cbn in Hpc. subst u.
    unfold materializer_step. rewrite run_bind, run_catch.
    destruct (materializer_write_frame (on_update fts) endpointId url w)
      as (r & w1 & E & Ha1 & _ & He).
    assert (Hafter : map (set_monetized_url endpointId url) (endpoints (db w)) = after).
    { destruct Hw as [Hw|Hw]; rewrite Hw; [reflexivity | apply after_stable]. }
    assert (Hnf : fts = no_faults -> endpoints (db w1) = after).
    { intros Hf. subst fts. cbn in E. unfold materializer_write, update_monetized_url in E.
      mrun. cbn in E. inversion E; subst. cbn. exact Hafter. }
    assert (Hw1 : endpoints (db w1) = before \/ endpoints (db w1) = after).
    { destruct He as [He|He]; rewrite He; [exact Hw | right; exact Hafter]. }
    assert (Hother1 : forall w', endpoints (db w') = endpoints (db w1) -> pc_ok' other pc_other w').
    { intros w' E'. destruct pc_other; cbn in *; auto. intros Hn. rewrite E'.
      specialize (Hother Hn).
      destruct He as [He|He]; rewrite He; [exact Hother | exact Hafter]. }
    rewrite E. destruct r as [e|[]]; unfold materializer_catch; mrun; do 2 eexists;
      (split; [reflexivity|]); cbn [db];
      (split; [exact Hw1|]); (split; [rewrite Ha1; exact Ha|]);
      (split; [exact Hnf | apply Hother1; reflexivity]).
  - (* done *)
    cbn. do 2 eexists. split; [reflexivity|]. auto.
Qed.

Lemma race_step_ok fa fb first r :
  race_ok' fa fb r -> race_ok' fa fb (race_step env fa fb endpointId first r).
Proof.
  intros (Hw & Ha & Hpa & Hpb). unfold race_step. destruct first.
  - destruct (step_ok fa fb (pc_a r) (pc_b r) (world r) Hw Ha Hpa Hpb)
      as (pc' & w' & E & Hw' & Ha' & Hp' & Ho').
    rewrite E. repeat split; assumption.
  - destruct (step_ok fb fa (pc_b r) (pc_a r) (world r) Hw Ha Hpb Hpa)
      as (pc' & w' & E & Hw' & Ha' & Hp' & Ho').
    rewrite E. repeat split; assumption.
Qed.

Lemma race_keeps_ok fa fb schedule :
  forall r, race_ok' fa fb r -> race_ok' fa fb (race env fa fb endpointId schedule r).
Proof.
  induction schedule as [|first rest IH]; intros r H; [exact H|].
  cbn. apply IH. apply race_step_ok. exact H.
Qed.

Lemma step_keeps_after (fts : MatFaults) pc w r w' :
  pc_ok' fts pc w ->
  endpoints (db w) = after ->
  materializer_step env fts endpointId pc w = (r, w') ->
  endpoints (db w') = after.
Proof.
  intros Hpc Hw. destruct pc as [|u|].
  - unfold materializer_step. rewrite run_catch, run_bind.
    destruct (read_after (on_fetch fts) w Hw) as (r0 & w1 & E & Hdb & _).
    rewrite E.
    destruct r0 as [e|[u|]]; unfold materializer_catch; mrun; intros H;
      inversion H; subst; cbn [db]; rewrite Hdb; exact Hw.
  - cbn in Hpc. subst u.
    unfold materializer_step. rewrite run_bind, run_catch.
    destruct (materializer_write_frame (on_update fts) endpointId url w)
      as (r0 & w1 & E & _ & _ & He).
    assert (Hw1 : endpoints (db w1) = after).
    { destruct He as [He|He]; rewrite He, Hw; [reflexivity | apply after_stable]. }
    rewrite E.
    destruct r0 as [e|[]]; unfold materializer_catch; mrun; intros H;
      inversion H; subst; cbn [db]; exact Hw1.
  - cbn. intros H. inversion H; subst. exact Hw.
Qed.

Lemma race_keeps_after fa fb schedule :
  forall r, race_ok' fa fb r ->
            endpoints (db (world r)) = after ->
            endpoints (db (world (race env fa fb endpointId schedule r))) = after.
Proof.
  induction schedule as [|first rest IH]; intros r Hok Hw; [exact Hw|].
  cbn [race]. apply IH; [apply race_step_ok; exact Hok|].
  destruct Hok as (_ & _ & Hpa & Hpb). unfold race_step. destruct first.
  - destruct (materializer_step env fa endpointId (pc_a r) (world r)) as [[e|pc] w1] eqn:E;
      cbn [world]; exact (step_keeps_after fa (pc_a r) (world r) Hpa Hw E).
  - destruct (materializer_step env fb endpointId (pc_b r) (world r)) as [[e|pc] w1] eqn:E;
      cbn [world]; exact (step_keeps_after fb (pc_b r) (world r) Hpb Hw E).
Qed.

Lemma race_start_ok fa fb : race_ok' fa fb (race_start w0).
Proof.
  unfold race_ok, race_start. cbn. repeat split; auto.
Qed.

Lemma stored_after (d : Database) :
  endpoints d = after -> stored_url endpointId d = Some (Some url).
Proof.
  intros H. unfold stored_url. rewrite H.
  rewrite filter_id_set, one_row. cbn [map].
  rewrite monetized_url_set. reflexivity.
Qed.

Lemma stored_before (d : Database) :
  endpoints d = before -> stored_url endpointId d = Some (monetized_url row).
Proof.
  intros H. unfold stored_url. rewrite H, one_row. reflexivity.
Qed.

End RaceFacts.

Lemma race_app env fa fb endpointId s1 s2 :
  forall r, race env fa fb endpointId (s1 ++ s2) r
            = race env fa fb endpointId s2 (race env fa fb endpointId s1 r).
Proof.
  induction s1 as [|first rest IH]; intros r; [reflexivity|].
  cbn. apply IH.
Qed.

(** The scheduler running one call alone does what the function does. *)
Lemma race_alone env fa fb endpointId w :
  world (race env fa fb endpointId [true; true] (race_start w))
  = snd (updateMonetizedUrlForEndpoint env (on_fetch fa) (on_update fa) endpointId w).
Proof.
  unfold updateMonetizedUrlForEndpoint. rewrite run_catch, run_bind.
  cbn [race].
  assert (H1 : race_step env fa fb endpointId true (race_start w)
               = match materializer_read env (on_fetch fa) endpointId w with
                 | (inl e, w1) =>
                     {| pc_a := MatDone; pc_b := AtRead;
                        world := snd (materializer_catch e w1) |}
                 | (inr (Some u), w1) => {| pc_a := AtWrite u; pc_b := AtRead; world := w1 |}
                 | (inr None, w1) => {| pc_a := MatDone; pc_b := AtRead; world := w1 |}
                 end).
  { unfold race_step, race_start. cbn [pc_a pc_b world].
    unfold materializer_step. rewrite run_catch, run_bind.
    destruct (materializer_read env (on_fetch fa) endpointId w) as [[e|[u|]] w1];
      unfold materializer_catch; mrun; reflexivity. }
  rewrite H1. clear H1.
  destruct (materializer_read env (on_fetch fa) endpointId w) as [[e|[u|]] w1].
  - unfold race_step. cbn [pc_a pc_b world materializer_step]. mrun. reflexivity.
  - unfold race_step. cbn [pc_a pc_b world]. unfold materializer_step.
    rewrite run_bind, run_catch.
    destruct (materializer_write (on_update fa) endpointId u w1) as [[e|[]] w2];
      unfold materializer_catch; mrun; reflexivity.
  - unfold race_step. cbn [pc_a pc_b world materializer_step]. mrun. reflexivity.
Qed.

Lemma already_set_unchanged env ft_fetch ft_update endpointId w row :
  filter (fun e => String.eqb (id e) endpointId) (endpoints (db w)) = [row] ->
  Js.truthy_opt (monetized_url row) = true ->
  exists w',
    updateMonetizedUrlForEndpoint env ft_fetch ft_update endpointId w = (inr tt, w')
    /\ db w' = db w.
Proof.
  intros Hrow Hset. unfold updateMonetizedUrlForEndpoint, materializer_read.
  rewrite run_catch, !run_bind, select_single_run.
  destruct ft_fetch as [|e|e].
  - rewrite Hrow. cbn [data error]. rewrite Hset. mrun. eauto.
  - unfold materializer_catch. mrun. eauto.
  - unfold materializer_catch. mrun. eauto.
Qed.

(** C3.  For an endpoint whose stored [monetized_url] is empty and whose
    owner, slug and path are present, write
    [url = domain + "/" + owner + "/" + slug + "/" + path], the domain being
    [ZEDKR_DOMAIN] or its default.  One materialization alone stores [url].
    A materialization that reads a row whose [monetized_url] is set writes
    nothing.  When two materializations run at once, under any schedule of
    their reads and writes and any faults of their Supabase calls, the
    stored value is at every moment the initial one or [url]; once a call
    without faults is done, the table is the initial table with [url]
    stored, the same for every schedule; and once [url] is stored, no later
    step of either call changes the table. *)
Theorem materialized_url_is_deterministic
    env endpointId w row name fa fb schedule :
  filter (fun e => String.eqb (id e) endpointId) (endpoints (db w)) = [row] ->
  Js.truthy_opt (monetized_url row) = false ->
  username (users (apis row)) = Some name ->
  Js.truthy name = true ->
  Js.truthy (api_name_slug (apis row)) = true ->
  Js.truthy (endpoint_path row) = true ->
  let url := (Js.or_default (ZEDKR_DOMAIN env) default_domain ++ "/" ++ name ++ "/"
              ++ api_name_slug (apis row) ++ "/" ++ endpoint_path row)%string in
  let written := map (set_monetized_url endpointId url) (endpoints (db w)) in
  let final := race env fa fb endpointId schedule (race_start w) in
  (exists w',
      updateMonetizedUrlForEndpoint env NoFault NoFault endpointId w = (inr tt, w')
      /\ endpoints (db w') = written
      /\ stored_url endpointId (db w') = Some (Some url))
  /\ (forall ft_fetch ft_update w1 row1,
        filter (fun e => String.eqb (id e) endpointId) (endpoints (db w1)) = [row1] ->
        Js.truthy_opt (monetized_url row1) = true ->
        exists w',
          updateMonetizedUrlForEndpoint env ft_fetch ft_update endpointId w1 = (inr tt, w')
          /\ db w' = db w1)
  /\ (endpoints (db (world final)) = endpoints (db w)
      \/ endpoints (db (world final)) = written)
  /\ (stored_url endpointId (db (world final)) = Some (monetized_url row)
      \/ stored_url endpointId (db (world final)) = Some (Some url))
  /\ ((pc_a final = MatDone /\ fa = no_faults) \/ (pc_b final = MatDone /\ fb = no_faults) ->
      endpoints (db (world final)) = written
      /\ stored_url endpointId (db (world final)) = Some (Some url))
  /\ (endpoints (db (world final)) = written ->
      forall more,
        endpoints (db (world (race env fa fb endpointId (schedule ++ more) (race_start w))))
        = written).
Proof.
  intros Hrow Hempty Howner Hname Hslug Hpath url written final.
  change url with (materialized env row name) in *.
  pose proof (race_keeps_ok env endpointId w Hrow Hempty Howner Hname Hslug Hpath schedule
                (race_start_ok env endpointId w row name fa fb)) as (Hw & _ & Ha & Hb).
  pose proof (race_keeps_ok env endpointId w Hrow Hempty Howner Hname Hslug Hpath schedule
                (race_start_ok env endpointId w row name fa fb)) as Hok.
  fold final in Hw, Ha, Hb, Hok.
  split; [|split; [|split; [|split; [|split]]]].
  - unfold updateMonetizedUrlForEndpoint. rewrite run_catch, run_bind.
    destruct (read_before env endpointId w Hrow Hempty Howner Hname Hslug Hpath NoFault w eq_refl)
      as (r & w1 & E & Hdb & _ & Hn).
    rewrite E, (Hn eq_refl).
    unfold materializer_write, update_monetized_url. mrun.
    eexists. split; [reflexivity|]. cbn [db endpoints]. rewrite Hdb.
    split; [reflexivity|].
    apply (stored_after env endpointId w name Hrow). reflexivity.
  - intros ft_fetch ft_update w1 row1 H1 H2.
    apply (@already_set_unchanged env ft_fetch ft_update endpointId w1 row1 H1 H2).
  - exact Hw.
  - destruct Hw as [Hw|Hw].
    + left. apply (stored_before endpointId w Hrow). exact Hw.
    + right. apply (stored_after env endpointId w name Hrow). exact Hw.
  - intros [[Hd Hf]|[Hd Hf]].
    + rewrite Hd in Ha. cbn in Ha. specialize (Ha Hf).
      split; [exact Ha | apply (stored_after env endpointId w name Hrow); exact Ha].
    + rewrite Hd in Hb. cbn in Hb. specialize (Hb Hf).
      split; [exact Hb | apply (stored_after env endpointId w name Hrow); exact Hb].
  - intros Hset more. rewrite race_app. fold final.
    exact (race_keeps_after env endpointId w Hrow Hempty Howner Hname Hslug Hpath more Hok Hset).
Qed.

(* ===================================================================== *)
(** ** The deployment of [Demo]                                           *)
(* ===================================================================== *)

(** C5.  A verified payment without a transaction id, proxied path: after
    the origin answers 503 the handler issues the completion update with
    the empty key.  The update matches every row recorded without a
    transaction id, so the row of an earlier call loses its own status (200)
    and latency (40).  The programmatic path, on the same kind of payment,
    writes nothing to the ledger. *)
Theorem completion_update_without_transaction :
  let out := Demo.run Demo.healthy Demo.proof_without_tx Demo.origin_fails
                      Demo.paid_call Demo.registry_with_history in
  updates (calls (snd out)) = [(Some EmptyString, 503, 12)]
  /\ api_calls (db (snd out))
     = [ {| endpoint_id := "ep-9"; caller_wallet := "SP3OTHER"; tx_hash := Some EmptyString;
            amount_paid := 700; status_code := Some 503; latency_ms := Some 12 |};
         {| endpoint_id := "ep-1"; caller_wallet := "SP1PAYER"; tx_hash := Some EmptyString;
            amount_paid := 1500000; status_code := Some 503; latency_ms := Some 12 |} ]
  /\ (let direct := Demo.run Demo.healthy Demo.proof_without_tx Demo.origin_fails
                             (Demo.keyed_call "c0ffee") Demo.registry_with_history in
      inserts (calls (snd direct)) = [] /\ updates (calls (snd direct)) = []
      /\ api_calls (db (snd direct)) = [Demo.earlier_call]).
Proof. vm_compute. repeat split. Qed.

(** C6.  The same paid call, once with a healthy ledger and once with a
    ledger whose admission insert rejects.  In the first run the caller
    gets the answer of the origin with the receipt; in the second the
    caller gets 500 "Internal server error" and the origin is never
    called.  A rejecting completion update changes nothing for the
    caller. *)
Theorem rejected_admission_insert_fails_the_call :
  let healthy := Demo.run Demo.healthy Demo.proof_of_payment Demo.origin_ok
                          Demo.paid_call Demo.registry in
  let failing := Demo.run Demo.insert_rejects Demo.proof_of_payment Demo.origin_ok
                          Demo.paid_call Demo.registry in
  let late := Demo.run (fun op => match op with
                                  | OpLedgerUpdate => Rejects Demo.fetch_failed
                                  | _ => NoFault
                                  end)
                       Demo.proof_of_payment Demo.origin_ok Demo.paid_call Demo.registry in
  fst healthy
  = inr {| statusCode := 200;
           resHeaders := [("payment-response", "receipt:0xabc");
                          ("content-type", "application/json")];
           resBody := BUpstream "{}" |}
  /\ fst failing = inr (json_response 500 (failure "Internal server error"))
  /\ forwards (calls (snd failing)) = []
  /\ map text (console (snd failing)) = ["Handle proxied request error:"]
  /\ fst late = fst healthy
  /\ map text (console (snd late)) = ["Error updating API call log:"].
Proof. vm_compute. repeat split. Qed.

(** The proxied path awaits the admission insert inside its [try]: whenever
    that insert rejects on a verified call, the answer is 500. *)
Lemma admission_rejection_answers_500
    env db_fault paymentMiddleware origin elapsed parseURL JSON_stringify encodeReceipt
    privateKeyToAccount paidGet decodePaymentResponse formEncode direct_elapsed
    req d row p e :
  resolved db_fault req d row ->
  privateKey_of req = None ->
  paymentMiddleware (options_of env row) req = MwNext (Some p) ->
  db_fault OpLedgerInsert = Rejects e ->
  fst (serve env db_fault paymentMiddleware origin elapsed parseURL JSON_stringify
             encodeReceipt privateKeyToAccount paidGet decodePaymentResponse formEncode
             direct_elapsed req d)
  = inr (json_response 500 (failure "Internal server error")).
Proof.
  intros Hres Hpk Hmw Hrej.
  destruct (served_runs env db_fault paymentMiddleware origin elapsed parseURL JSON_stringify
              encodeReceipt privateKeyToAccount paidGet decodePaymentResponse formEncode
              direct_elapsed req d) as (resp & w & E & R & _).
  rewrite E. cbn [fst].
  assert (R' : Served env db_fault paymentMiddleware origin elapsed parseURL JSON_stringify
                 encodeReceipt privateKeyToAccount paidGet decodePaymentResponse formEncode
                 direct_elapsed req d
                 (json_response 500 (failure "Internal server error"))
                 (EvMaterialize (id row)
                  :: EvGate (options_of env row) (MwNext (Some p))
                  :: admission (Some p) (config_of row))).
  { eapply ServedVerified; eauto. eapply RunInsertRejected; eauto. }
  destruct (served_functional R R') as [-> _]. reflexivity.
Qed.

(** A call without payment evidence from a non-browser client: the 402
    answer of the middleware, each entry of [accepts] extended with the
    price in STX. *)
Example unpaid_call_is_challenged :
  fst (Demo.run Demo.healthy Demo.proof_of_payment Demo.origin_ok
                Demo.unpaid_call Demo.registry)
  = inr (json_response 402
           (JObj [("x402Version", JNum 2);
                  ("accepts",
                   JArr [JObj [("amount", JStr "1500000");
                               ("payTo", JStr "SP2DEVELOPER");
                               ("amountSTX", JStr "1.5")]])])).
Proof. vm_compute. reflexivity. Qed.

(** *** Instances of the theorems *)

Lemma forward_only_after_verified_witness :
  exists resp w,
    Demo.run Demo.healthy Demo.proof_of_payment Demo.origin_ok Demo.paid_call Demo.registry
    = (inr resp, w)
    /\ gated false (calls w) = true.
Proof.
  do 2 eexists. split; [vm_compute; reflexivity|].
  refine (proj1 (@forward_only_after_verified
                   Demo.no_env Demo.healthy (Demo.gate Demo.proof_of_payment) Demo.origin_ok
                   Demo.took Demo.parse Demo.stringify Demo.encode Demo.account_of Demo.paid
                   Demo.decode Demo.form 0 Demo.paid_call Demo.registry _ _ _)).
  vm_compute. reflexivity.
Defined.


Lemma resolution_is_all_or_nothing_witness :
  (forall e, Demo.healthy OpResolve <> Rejects e)
  /\ (forall e, In e (endpoints Demo.registry) ->
                names_match "alice" "weather" "history" e = true -> active e = false)
  /\ Demo.run Demo.healthy Demo.proof_of_payment Demo.origin_ok Demo.retired_call Demo.registry
     = (inr not_found, fresh Demo.registry).
Proof.
  assert (H1 : forall e, Demo.healthy OpResolve <> Rejects e) by (intros e; discriminate).
  assert (H2 : forall e, In e (endpoints Demo.registry) ->
                         names_match "alice" "weather" "history" e = true -> active e = false).
  { intros e [<-|[<-|[]]]; [discriminate | reflexivity]. }
  split; [exact H1|]. split; [exact H2|].
  exact (proj1 (@resolution_is_all_or_nothing
                  Demo.no_env Demo.healthy (Demo.gate Demo.proof_of_payment) Demo.origin_ok
                  Demo.took Demo.parse Demo.stringify Demo.encode Demo.account_of Demo.paid
                  Demo.decode Demo.form 0 Demo.retired_call Demo.registry H1) H2).
Defined.

Lemma materializer_failure_is_not_fatal_witness :
  (forall op, op <> OpMaterializeFetch -> op <> OpMaterializeUpdate ->
              Demo.materializer_down op = Demo.healthy op)
  /\ fst (Demo.run Demo.materializer_down Demo.proof_of_payment Demo.origin_ok
                   Demo.paid_call Demo.registry)
     = fst (Demo.run Demo.healthy Demo.proof_of_payment Demo.origin_ok
                     Demo.paid_call Demo.registry).
Proof.
  assert (H : forall op, op <> OpMaterializeFetch -> op <> OpMaterializeUpdate ->
                         Demo.materializer_down op = Demo.healthy op)
    by (intros op H1 H2; destruct op; congruence || reflexivity).
  split; [exact H|].
  exact (proj1 (@materializer_failure_is_not_fatal
                  Demo.no_env (Demo.gate Demo.proof_of_payment) Demo.origin_ok
                  Demo.took Demo.parse Demo.stringify Demo.encode Demo.account_of Demo.paid
                  Demo.decode Demo.form 0 Demo.materializer_down Demo.healthy
                  Demo.paid_call Demo.registry H)).
Defined.



Lemma materialized_url_is_deterministic_witness :
  filter (fun e => String.eqb (id e) "ep-1") (endpoints (db (fresh Demo.registry)))
  = [Demo.forecast]
  /\ Js.truthy_opt (monetized_url Demo.forecast) = false
  /\ username (users (apis Demo.forecast)) = Some "alice"
  /\ pc_a (race Demo.no_env no_faults no_faults "ep-1" [true; false; false; true]
                (race_start (fresh Demo.registry))) = MatDone
  /\ stored_url "ep-1"
       (db (world (race Demo.no_env no_faults no_faults "ep-1" [true; false; false; true]
                        (race_start (fresh Demo.registry)))))
     = Some (Some "https://zedkr.up.railway.app/alice/weather/forecast").
Proof.
  split; [reflexivity|]. split; [reflexivity|]. split; [reflexivity|]. split; [reflexivity|].
  refine (proj2 (proj1 (proj2 (proj2 (proj2 (proj2
            (@materialized_url_is_deterministic
               Demo.no_env "ep-1" (fresh Demo.registry) Demo.forecast "alice"
               no_faults no_faults [true; false; false; true]
               eq_refl eq_refl eq_refl eq_refl eq_refl eq_refl))))) _)).
  left. split; reflexivity.
Defined.

(* ===================================================================== *)
(** * Further properties of the proxy                                     *)
(* ===================================================================== *)

(** ** Headers *)

Lemma in_set_header k v hs k0 v0 :
  In (k0, v0) (set_header k v hs) -> (k0, v0) = (k, v) \/ In (k0, v0) hs.
Proof.
  induction hs as [|[k' v'] hs IH]; cbn.
  - intros [H|[]]. left. symmetry. exact H.
  - destruct (String.eqb (Js.toLowerCase k') (Js.toLowerCase k)); cbn.
    + intros [H|H]; [left; symmetry; exact H | right; right; exact H].
    + intros [H|H]; [right; left; exact H|].
      destruct (IH H) as [H'|H']; [left; exact H' | right; right; exact H'].
Qed.

Lemma get_set_header k v hs : get_header k (set_header k v hs) = Some v.
Proof.
  induction hs as [|[k' v'] hs IH]; cbn.
  - rewrite String.eqb_refl. reflexivity.
  - destruct (String.eqb (Js.toLowerCase k') (Js.toLowerCase k)) eqn:E; cbn.
    + rewrite String.eqb_refl. reflexivity.
    + rewrite E. exact IH.
Qed.

Lemma get_set_header_same k v hs k0 :
  Js.toLowerCase k = Js.toLowerCase k0 ->
  get_header k0 (set_header k v hs) = Some v.
Proof.
  intros E. rewrite <- (get_set_header k v hs).
  generalize (set_header k v hs). intros l.
  induction l as [|[k' v'] l IH]; cbn; [reflexivity|].
  rewrite E, IH. reflexivity.
Qed.

Lemma get_set_header_other k v hs k0 :
  String.eqb (Js.toLowerCase k) (Js.toLowerCase k0) = false ->
  get_header k0 (set_header k v hs) = get_header k0 hs.
Proof.
  intros Hne. induction hs as [|[k' v'] hs IH]; cbn.
  - rewrite Hne. reflexivity.
  - destruct (String.eqb (Js.toLowerCase k') (Js.toLowerCase k)) eqn:E; cbn.
    + apply String.eqb_eq in E. rewrite E, Hne. reflexivity.
    + rewrite IH. reflexivity.
Qed.


(** Headers copied over a header list leave a name they do not mention as
    it was. *)
Lemma get_header_after_copy k hs : forall set,
  get_header k hs = None ->
  get_header k (fold_left (fun acc kv => set_header (fst kv) (snd kv) acc) hs set)
  = get_header k set.
Proof.
  induction hs as [|[k1 v1] hs IH]; intros set Hnone; [reflexivity|].
  cbn in Hnone. destruct (String.eqb (Js.toLowerCase k1) (Js.toLowerCase k)) eqn:E;
    [discriminate|].
  cbn [fold_left fst snd]. rewrite (IH _ Hnone).
  apply get_set_header_other. exact E.
Qed.

(** Headers copied over a header list win over what was there. *)
Lemma get_header_copied k hs : forall set v,
  get_header k hs = Some v ->
  exists v', get_header k (fold_left (fun acc kv => set_header (fst kv) (snd kv) acc) hs set)
             = Some v'
             /\ exists k', In (k', v') hs
                           /\ String.eqb (Js.toLowerCase k') (Js.toLowerCase k) = true.
Proof.
  induction hs as [|[k1 v1] hs IH]; intros set v Hget; [discriminate|].
  cbn [fold_left fst snd].
  destruct (get_header k hs) as [v2|] eqn:E2.
  - destruct (IH (set_header k1 v1 set) v2 eq_refl) as (v' & H1 & k' & Hin & Hk).
    exists v'. split; [exact H1|]. exists k'. split; [right; exact Hin | exact Hk].
  - rewrite (get_header_after_copy k hs _ E2).
    cbn in Hget. destruct (String.eqb (Js.toLowerCase k1) (Js.toLowerCase k)) eqn:E.
    + inversion Hget; subst v1.
      exists v. split.
      * clear - E. induction set as [|[k2 v2] set IH]; cbn.
        -- rewrite E. reflexivity.
        -- destruct (String.eqb (Js.toLowerCase k2) (Js.toLowerCase k1)) eqn:E1; cbn.
           ++ rewrite E. reflexivity.
           ++ apply String.eqb_eq in E. rewrite <- E, E1. exact IH.
      * exists k1. split; [left; reflexivity | exact E].
    + rewrite E2 in Hget. discriminate.
Qed.


Lemma forwards_of_app a b : forwards (a ++ b) = forwards a ++ forwards b.
Proof.
  induction a as [|x a IH]; [reflexivity|]. destruct x; cbn; rewrite IH; reflexivity.
Qed.

Lemma forwards_admission payment endpointConfig : forwards (admission payment endpointConfig) = [].
Proof. destruct payment; reflexivity. Qed.

Lemma forwards_completion payment status latency :
  forwards (completion payment status latency) = [].
Proof. destruct payment; reflexivity. Qed.

(** ** What a computation writes to the database *)

Lemma ledger_after_app fi fu a b rows :
  ledger_after fi fu (a ++ b) rows = ledger_after fi fu b (ledger_after fi fu a rows).
Proof.
  revert rows. induction a as [|x a IH]; intros rows; [reflexivity|].
  destruct x; cbn; apply IH.
Qed.

Lemma set_outcome_key key status latency r :
  ledger_key (set_outcome key status latency r) = ledger_key r.
Proof. unfold set_outcome. destruct (opt_string_eqb _ _); reflexivity. Qed.

Lemma ledger_after_keys fi fu l : forall rows, exists added,
  map ledger_key (ledger_after fi fu l rows) = map ledger_key rows ++ added.
Proof.
  induction l as [|x l IH]; intros rows.
  - exists []. cbn. rewrite app_nil_r. reflexivity.
  - destruct x; cbn; try apply IH.
    + destruct fi; try apply IH.
      destruct (IH (rows ++ [r])) as (added & E). exists (ledger_key r :: added).
      rewrite E, map_app, <- app_assoc. reflexivity.
    + destruct fu; try apply IH.
      destruct (IH (map (set_outcome key status latency) rows)) as (added & E).
      exists added. rewrite E, map_map. f_equal.
      apply map_ext. intros a. apply set_outcome_key.
Qed.

Lemma forget_set_monetized_url endpointId url e :
  forget_url (set_monetized_url endpointId url e) = forget_url e.
Proof. unfold set_monetized_url. destruct (String.eqb _ _); reflexivity. Qed.

Section Accounting.

Variables on_insert on_update : Fault.

Local Abbreviation accounted' := (accounted on_insert on_update).

Lemma accounted_quiet {A} (c : M A) :
  (forall w, calls (snd (c w)) = calls w /\ db (snd (c w)) = db w) -> accounted' c.
Proof.
  intros H w. destruct (H w) as (Hc & Hd). exists [].
  rewrite Hc, Hd, app_nil_r. auto.
Qed.

Lemma accounted_ret {A} (a : A) : accounted' (ret a).
Proof. apply accounted_quiet. intros w. split; reflexivity. Qed.

Lemma accounted_raise {A} (e : JsError) : accounted' (raise e : M A).
Proof. apply accounted_quiet. intros w. split; reflexivity. Qed.

Lemma accounted_log l t d : accounted' (log l t d).
Proof. apply accounted_quiet. intros w. split; reflexivity. Qed.

Lemma accounted_emit e :
  (forall rows, ledger_after on_insert on_update [e] rows = rows) -> accounted' (emit e).
Proof. intros H w. exists [e]. cbn [emit snd calls db]. rewrite H. auto. Qed.

Lemma accounted_bind {A B} (c : M A) (k : A -> M B) :
  accounted' c -> (forall a, accounted' (k a)) -> accounted' (bind c k).
Proof.
  intros Hc Hk w. rewrite run_bind. destruct (Hc w) as (l1 & C1 & L1 & E1).
  destruct (c w) as [[e|a] w1]; cbn [snd] in *; [exists l1; auto|].
  destruct (Hk a w1) as (l2 & C2 & L2 & E2). exists (l1 ++ l2).
  rewrite C2, C1, L2, L1, E2, E1, ledger_after_app, app_assoc. auto.
Qed.

Lemma accounted_catch {A} (c : M A) (h : JsError -> M A) :
  accounted' c -> (forall e, accounted' (h e)) -> accounted' (catch c h).
Proof.
  intros Hc Hh w. rewrite run_catch. destruct (Hc w) as (l1 & C1 & L1 & E1).
  destruct (c w) as [[e|a] w1]; cbn [snd] in *; [|exists l1; auto].
  destruct (Hh e w1) as (l2 & C2 & L2 & E2). exists (l1 ++ l2).
  rewrite C2, C1, L2, L1, E2, E1, ledger_after_app, app_assoc. auto.
Qed.

Lemma accounted_select_single ft p : accounted' (select_single ft p).
Proof.
  apply accounted_quiet. intros w. rewrite select_single_run.
  destruct ft; split; reflexivity.
Qed.

Lemma accounted_insert_call row : accounted' (insert_call on_insert row).
Proof.
  intros w. exists [EvLedgerInsert row]. unfold insert_call.
  destruct on_insert; mrun; auto.
Qed.

Lemma accounted_update_call key status latency :
  accounted' (update_call on_update key status latency).
Proof.
  intros w. exists [EvLedgerUpdate key status latency]. unfold update_call.
  destruct on_update; mrun; auto.
Qed.

Lemma accounted_update_monetized_url ft endpointId url :
  accounted' (update_monetized_url ft endpointId url).
Proof.
  intros w. exists []. unfold update_monetized_url.
  destruct ft; mrun; rewrite app_nil_r; repeat split; try reflexivity.
  cbn. rewrite map_map. apply map_ext. intros e. apply forget_set_monetized_url.
Qed.

End Accounting.

Ltac accounted_step :=
  first
    [ apply accounted_ret
    | apply accounted_raise
    | apply accounted_log
    | apply accounted_select_single
    | apply accounted_update_monetized_url
    | apply accounted_insert_call
    | apply accounted_update_call
    | apply accounted_emit; intros; reflexivity
    | apply accounted_bind; [|intro]
    | apply accounted_catch; [|intro]
    | match goal with
      | |- accounted _ _ (match ?x with _ => _ end) => destruct x
      | |- accounted _ _ (if ?x then _ else _) => destruct x
      end ].

Lemma accounted_materializer on_insert on_update env ft_fetch ft_update endpointId :
  accounted on_insert on_update
    (updateMonetizedUrlForEndpoint env ft_fetch ft_update endpointId).
Proof.
  unfold updateMonetizedUrlForEndpoint, materializer_read, materializer_write,
    materializer_catch.
  repeat accounted_step.
Qed.


Section ProxyMore.

Variable env : Env.
Variable db_fault : DbOp -> Fault.
Variable paymentMiddleware : MwConfig -> Request -> MwOutcome.
Variable origin : ProxyRequest -> OriginOutcome.
Variable elapsed : ProxyRequest -> nat.
Variable parseURL : string -> option TargetUrl.
Variable JSON_stringify : Json -> string.
Variable encodeReceipt : Receipt -> string.
Variable privateKeyToAccount : QVal -> string -> JsError + Account.
Variable paidGet : PaidGet -> AxiosOutcome.
Variable decodePaymentResponse : string -> option PaymentData.
Variable formEncode : list (string * string) -> string.
Variable direct_elapsed : nat.

Local Abbreviation serve' :=
  (serve env db_fault paymentMiddleware origin elapsed parseURL JSON_stringify
         encodeReceipt privateKeyToAccount paidGet decodePaymentResponse formEncode
         direct_elapsed).
Local Abbreviation Served' :=
  (Served env db_fault paymentMiddleware origin elapsed parseURL JSON_stringify
          encodeReceipt privateKeyToAccount paidGet decodePaymentResponse formEncode
          direct_elapsed).
Local Abbreviation ProxiedRun' :=
  (ProxiedRun db_fault origin elapsed parseURL JSON_stringify encodeReceipt).
Local Abbreviation DirectRun' :=
  (DirectRun env privateKeyToAccount paidGet decodePaymentResponse formEncode direct_elapsed).
Local Abbreviation resolved' := (resolved db_fault).
Local Abbreviation onProxyReq' := (onProxyReq JSON_stringify).

Lemma served req d resp w :
  serve' req d = (inr resp, w) -> Served' req d resp (calls w).
Proof.
  intros H.
  destruct (served_runs env db_fault paymentMiddleware origin elapsed parseURL JSON_stringify
              encodeReceipt privateKeyToAccount paidGet decodePaymentResponse formEncode
              direct_elapsed req d) as (resp' & w' & E & R & _).
  rewrite E in H. inversion H; subst. exact R.
Qed.

Lemma direct_quiet req endpointConfig privateKey resp l :
  DirectRun' req endpointConfig privateKey resp l ->
  forwards l = [] /\ updates l = [] /\ (forall cfg out, ~ In (EvGate cfg out) l).
Proof.
  intros R. destruct (direct_run_quiet paymentMiddleware parseURL JSON_stringify R)
    as (H1 & H2 & H3 & _). auto.
Qed.

Lemma not_in_admission fwd payment endpointConfig :
  ~ In (EvForward fwd) (admission payment endpointConfig).
Proof. destruct payment; cbn; intuition discriminate. Qed.

Lemma not_in_completion fwd payment status latency :
  ~ In (EvForward fwd) (completion payment status latency).
Proof. destruct payment; cbn; intuition discriminate. Qed.

Lemma no_forward_in l fwd : forwards l = [] -> ~ In (EvForward fwd) l.
Proof.
  induction l as [|x l IH]; intros Hf Hin; [contradiction|].
  destruct Hin as [Hx|Hin].
  - subst x. discriminate.
  - destruct x; cbn in Hf; try discriminate; exact (IH Hf Hin).
Qed.

(** *** What is written to the origin *)

Lemma onProxyReq_headers req t k v :
  In (k, v) (px_headers (onProxyReq' req t)) ->
  Js.toLowerCase k <> "host"
  /\ (In (k, v) (headers req) \/ k = "Content-Type" \/ k = "Content-Length").
Proof.
  assert (Hf : forall k v,
             In (k, v)
                (filter (fun kv => negb (String.eqb (Js.toLowerCase (fst kv)) "host")
                                   && Js.truthy (snd kv)) (headers req)) ->
             Js.toLowerCase k <> "host" /\ In (k, v) (headers req)).
  { intros k0 v0 H. apply filter_In in H. destruct H as [Hin Hb].
    apply andb_prop in Hb. destruct Hb as [Hb _]. cbn in Hb.
    split; [|exact Hin]. intros E. rewrite E in Hb. discriminate. }
  unfold onProxyReq.
  destruct (body req) as [b|]; [destruct (json_truthy b && has_keys b)|]; cbn [px_headers];
    intros Hin; try (destruct (Hf k v Hin); split; auto).
  apply in_set_header in Hin. destruct Hin as [Hin|Hin].
  - inversion Hin; subst. split; [discriminate | auto].
  - apply in_set_header in Hin. destruct Hin as [Hin|Hin].
    + inversion Hin; subst. split; [discriminate | auto].
    + destruct (Hf k v Hin). split; auto.
Qed.


(** X2.  A body with at least one key is written to the origin as its JSON
    text; the request then has [Content-Type: application/json] and a
    [Content-Length] equal to the byte length of that text, whatever
    content headers the caller sent.  An empty object, as a JSON body
    parser leaves it for a request without body, is not written. *)
Theorem reserialized_body_has_its_length req t b :
  body req = Some b ->
  json_truthy b = true ->
  (has_keys b = true ->
   px_body (onProxyReq' req t) = Some (JSON_stringify b)
   /\ get_header "content-length" (px_headers (onProxyReq' req t))
      = Some (Price.int_to_string (N.of_nat (String.length (JSON_stringify b))))
   /\ get_header "content-type" (px_headers (onProxyReq' req t)) = Some "application/json")
  /\ (has_keys b = false ->
      px_body (onProxyReq' req t) = None
      /\ forall k v, In (k, v) (px_headers (onProxyReq' req t)) -> In (k, v) (headers req)).
Proof.
  intros Hb Ht. unfold onProxyReq. rewrite Hb, Ht. split; intros Hk; rewrite Hk; cbn [andb px_body px_headers].
  - split; [reflexivity|]. split.
    + apply get_set_header_same. reflexivity.
    + rewrite get_set_header_other by reflexivity. apply get_set_header_same. reflexivity.
  - split; [reflexivity|]. intros k v Hin. apply filter_In in Hin. exact (proj1 Hin).
Qed.

(** *** What a request writes to the database *)

Lemma accounted_direct req endpointConfig privateKey on_update :
  accounted (db_fault OpDirectInsert) on_update
    (handleDirectPayment env db_fault privateKeyToAccount paidGet decodePaymentResponse
                         formEncode direct_elapsed req endpointConfig privateKey).
Proof.
  unfold handleDirectPayment, detached. repeat accounted_step.
Qed.

Lemma accounted_proxied req payment endpointConfig :
  accounted (db_fault OpLedgerInsert) (db_fault OpLedgerUpdate)
    (handleProxiedRequest db_fault origin elapsed parseURL JSON_stringify encodeReceipt
                          req payment endpointConfig).
Proof.
  unfold handleProxiedRequest, onProxyRes, detached. repeat accounted_step.
Qed.

Lemma accounted_route req :
  accounted (db_fault (insert_op req)) (db_fault OpLedgerUpdate)
    (route env db_fault paymentMiddleware origin elapsed parseURL JSON_stringify
           encodeReceipt privateKeyToAccount paidGet decodePaymentResponse formEncode
           direct_elapsed req).
Proof.
  unfold route, insert_op. destruct (privateKey_of req);
    repeat first [ apply accounted_materializer | apply accounted_direct
                 | apply accounted_proxied | accounted_step ].
Qed.

Lemma serve_ledger req d resp w :
  serve' req d = (inr resp, w) ->
  api_calls (db w)
  = ledger_after (db_fault (insert_op req)) (db_fault OpLedgerUpdate) (calls w) (api_calls d)
  /\ map forget_url (endpoints (db w)) = map forget_url (endpoints d).
Proof.
  intros H. destruct (accounted_route req (fresh d)) as (l & C & L & E).
  unfold serve in H. rewrite H in C, L, E. cbn in C, L, E. subst l. auto.
Qed.

Lemma admitted req d resp w cfg p :
  serve' req d = (inr resp, w) ->
  In (EvGate cfg (MwNext (Some p))) (calls w) ->
  exists row l,
    resolved' req d row
    /\ privateKey_of req = None
    /\ cfg = options_of env row
    /\ calls w = EvMaterialize (id row) :: EvGate cfg (MwNext (Some p)) :: l
    /\ ProxiedRun' req (Some p) (config_of row) resp l.
Proof.
  intros Hs Hin. apply served in Hs. revert Hs Hin. generalize (calls w). intros cs Hs Hin.
  inversion Hs as [e He | Hn Hr | row pk resp0 l Hres Hpk R | row status body resp0 Hres Hpk Hmw Hresp
                   | row payment resp0 l Hres Hpk Hmw R]; subst; cbn in Hin.
  - contradiction.
  - contradiction.
  - destruct Hin as [Hin|Hin]; [discriminate|]. exfalso.
    destruct (direct_quiet R) as (_ & _ & Hg). exact (Hg _ _ Hin).
  - destruct Hin as [Hin|[Hin|[]]]; discriminate.
  - destruct Hin as [Hin|[Hin|Hin]]; [discriminate| |].
    + inversion Hin; subst. exists row, l. auto.
    + exfalso. destruct (proxied_run_ledger paymentMiddleware R) as (_ & _ & Hg).
      exact (Hg _ _ Hin).
Qed.

Lemma keyed req d resp w pk :
  serve' req d = (inr resp, w) ->
  privateKey_of req = Some pk ->
  (calls w = [] /\ forall row, ~ resolved' req d row)
  \/ exists row l,
       resolved' req d row
       /\ calls w = EvMaterialize (id row) :: l
       /\ DirectRun' req (config_of row) pk resp l.
Proof.
  intros Hs Hk. apply served in Hs. revert Hs. generalize (calls w). intros cs Hs.
  inversion Hs as [e He | Hn Hr | row pk0 resp0 l Hres Hpk R | row status body resp0 Hres Hpk Hmw Hresp
                   | row payment resp0 l Hres Hpk Hmw R]; subst; try congruence.
  - left. split; [reflexivity|]. intros row [Hf _]. congruence.
  - left. split; [reflexivity | exact Hn].
  - right. rewrite Hk in Hpk. inversion Hpk; subst pk0. exists row, l. auto.
Qed.

Lemma set_outcome_other key status latency rows :
  (forall c, In c rows -> opt_string_eqb (tx_hash c) key = false) ->
  map (set_outcome key status latency) rows = rows.
Proof.
  intros H. induction rows as [|c rows IH]; [reflexivity|]. cbn.
  rewrite IH by (intros c' Hc'; apply H; right; exact Hc').
  unfold set_outcome. rewrite (H c (or_introl eq_refl)). reflexivity.
Qed.

(** X3.  A paid call the origin never answered.  When the middleware has let a
    payment through, the admission row is stored and no completion update
    is issued, then the ledger holds the old rows followed by the admission
    row, still without status and latency; the caller got 400 (the stored
    target URL does not parse, nothing was forwarded) or 502 (the origin
    could not be reached). *)
Theorem unanswered_call_stays_open req d resp w cfg p :
  serve' req d = (inr resp, w) ->
  In (EvGate cfg (MwNext (Some p))) (calls w) ->
  db_fault OpLedgerInsert = NoFault ->
  updates (calls w) = [] ->
  exists row,
    resolved' req d row
    /\ api_calls (db w) = api_calls d ++ [admission_row (config_of row) p]
    /\ status_code (admission_row (config_of row) p) = None
    /\ ((parseURL (original_url row) = None
         /\ resp = json_response 400 (failure "Invalid target URL")
         /\ forwards (calls w) = [])
        \/ (exists t e,
              parseURL (original_url row) = Some t
              /\ origin (onProxyReq' req t) = OriginError e
              /\ forwards (calls w) = [onProxyReq' req t]
              /\ resp = json_response 502 (failure "Failed to proxy request to target API"))).
Proof.
  intros Hs Hin Hf Hu.
  destruct (@serve_ledger req d resp w Hs) as (Hl & _).
  destruct (@admitted req d resp w cfg p Hs Hin) as (row & l & Hres & Hpk & Hcfg & Hc & R).
  unfold insert_op in Hl. rewrite Hpk, Hf, Hc in Hl. rewrite Hc in Hu. cbn in Hl, Hu.
  exists row. split; [exact Hres|]. rewrite Hc.
  inversion R as [p0 e Hp Hrej | Hok Hparse | t e Hok Hparse Ho | t status hs payload Hok Hparse Ho];
    subst l.
  - congruence.
  - cbn in Hl. split; [exact Hl|]. split; [reflexivity|]. left. auto.
  - cbn in Hl. split; [exact Hl|]. split; [reflexivity|]. right. exists t, e. auto.
  - cbn in Hu. discriminate.
Qed.

(** X4.  A paid call the origin answered.  When the middleware has let a payment
    through and both ledger writes go through, the completion update is
    keyed by the transaction of the payment and carries the status the
    caller got; it rewrites every row of that key, the admission row
    included.  When no earlier row has that transaction, the ledger holds
    the old rows followed by one row with the status and the latency. *)
Theorem answered_call_is_completed req d resp w cfg p key status latency :
  serve' req d = (inr resp, w) ->
  In (EvGate cfg (MwNext (Some p))) (calls w) ->
  In (key, status, latency) (updates (calls w)) ->
  db_fault OpLedgerInsert = NoFault ->
  db_fault OpLedgerUpdate = NoFault ->
  exists row,
    resolved' req d row
    /\ key = transaction p
    /\ statusCode resp = status
    /\ api_calls (db w)
       = map (set_outcome key status latency)
             (api_calls d ++ [admission_row (config_of row) p])
    /\ forall tx, key = Some tx ->
         (forall c, In c (api_calls d) -> tx_hash c <> Some tx) ->
         api_calls (db w)
         = api_calls d ++ [completed status latency (admission_row (config_of row) p)].
Proof.
  intros Hs Hin Hup Hfi Hfu.
  destruct (@serve_ledger req d resp w Hs) as (Hl & _).
  destruct (@admitted req d resp w cfg p Hs Hin) as (row & l & Hres & Hpk & Hcfg & Hc & R).
  unfold insert_op in Hl. rewrite Hpk, Hfi, Hfu, Hc in Hl. rewrite Hc in Hup. cbn in Hl, Hup.
  exists row. split; [exact Hres|].
  inversion R as [p0 e Hp Hrej | Hok Hparse | t e Hok Hparse Ho | t st hs payload Hok Hparse Ho];
    subst l; cbn in Hup; try contradiction.
  destruct Hup as [Hup|[]]. inversion Hup; subst key st latency. clear Hup.
  cbn in Hl. split; [reflexivity|]. split; [reflexivity|]. split; [exact Hl|].
  intros tx Htx Hnew. rewrite Hl, map_app. f_equal.
  - apply set_outcome_other. intros c Hc'. specialize (Hnew c Hc').
    rewrite Htx. destruct (tx_hash c) as [h|]; [|reflexivity]. cbn.
    apply String.eqb_neq. congruence.
  - cbn. unfold set_outcome. cbn [tx_hash admission_row]. rewrite Htx. cbn.
    rewrite String.eqb_refl. unfold completed. cbn. rewrite Htx. reflexivity.
Qed.



(** X7.  The answer of the origin reaches the caller with its status and its
    body.  The receipt of the payment is in the [payment-response] header of
    the answer unless the origin sends a header of that name: the headers of
    the origin are written after the receipt, and then the caller gets the
    value of the origin. *)
Theorem receipt_reaches_the_caller req d resp w cfg p fwd status hs payload :
  serve' req d = (inr resp, w) ->
  In (EvGate cfg (MwNext (Some p))) (calls w) ->
  In (EvForward fwd) (calls w) ->
  origin fwd = OriginResponse status hs payload ->
  statusCode resp = status
  /\ resBody resp = BUpstream payload
  /\ (get_header "payment-response" hs = None ->
      get_header "payment-response" (resHeaders resp) = Some (encodeReceipt (receipt_of p)))
  /\ (forall v, get_header "payment-response" hs = Some v ->
        exists v' k',
          get_header "payment-response" (resHeaders resp) = Some v'
          /\ In (k', v') hs
          /\ Js.toLowerCase k' = "payment-response").
Proof.
  intros Hs Hin Hfw Ho.
  destruct (@admitted req d resp w cfg p Hs Hin) as (row & l & Hres & Hpk & Hcfg & Hc & R).
  rewrite Hc in Hfw. destruct Hfw as [Hfw|[Hfw|Hfw]]; try discriminate.
  inversion R as [p0 e Hp Hrej | Hok Hparse | t e Hok Hparse Ho' | t st hs' payload' Hok Hparse Ho'];
    subst l.
  - destruct (not_in_admission _ _ _ Hfw).
  - destruct (not_in_admission _ _ _ Hfw).
  - apply in_app_or in Hfw. destruct Hfw as [Hfw|[Hfw|[]]];
      [destruct (not_in_admission _ _ _ Hfw)|].
    inversion Hfw; subst fwd. congruence.
  - apply in_app_or in Hfw. destruct Hfw as [Hfw|[Hfw|Hfw]];
      [destruct (not_in_admission _ _ _ Hfw) | | destruct (not_in_completion _ _ _ _ Hfw)].
    inversion Hfw; subst fwd. rewrite Ho in Ho'. inversion Ho'; subst st hs' payload'.
    unfold relayed. cbn [statusCode resBody resHeaders receipt_headers].
    split; [reflexivity|]. split; [reflexivity|]. split.
    + intros Hnone. rewrite (get_header_after_copy _ _ _ Hnone). cbn.
      reflexivity.
    + intros v Hv.
      destruct (get_header_copied _ _ [("payment-response", encodeReceipt (receipt_of p))] Hv)
        as (v' & Hg & k' & Hk' & Hlow).
      exists v', k'. split; [exact Hg|]. split; [exact Hk'|].
      apply String.eqb_eq in Hlow. exact Hlow.
Qed.


(** X9.  Serving a request keeps what the database holds: every registry row
    stays in place, the same up to its [monetized_url]; every ledger row
    stays in place, with its endpoint, payer, transaction and amount; new
    ledger rows come after the old ones. *)
Theorem serving_keeps_the_records req d :
  extends (fresh d) (snd (serve' req d)).
Proof.
  destruct (accounted_route req (fresh d)) as (l & C & L & E).
  split; [exact E|]. unfold serve. rewrite L. apply ledger_after_keys.
Qed.

End ProxyMore.

(* ===================================================================== *)
(** * The batch materializer                                              *)
(* ===================================================================== *)


Lemma forget_apply_updates targets : forall rows,
  map forget_url (apply_updates targets rows) = map forget_url rows.
Proof.
  induction targets as [|[i u] targets IH]; intros rows; [reflexivity|].
  cbn. unfold apply_updates in IH. rewrite IH, map_map.
  apply map_ext. intros e. apply forget_set_monetized_url.
Qed.

Lemma apply_updates_rows targets : forall rows,
  apply_updates targets rows = map (row_after targets) rows.
Proof.
  induction targets as [|[i u] targets IH]; intros rows.
  - cbn. symmetry. apply map_id.
  - cbn. unfold apply_updates in IH. rewrite IH, map_map. reflexivity.
Qed.

Lemma with_url_set i url e : id e = i -> set_monetized_url i url e = with_url url e.
Proof. intros <-. unfold set_monetized_url. rewrite String.eqb_refl. reflexivity. Qed.

Lemma set_other i url e : id e <> i -> set_monetized_url i url e = e.
Proof.
  intros H. unfold set_monetized_url. apply String.eqb_neq in H. rewrite H. reflexivity.
Qed.

Lemma row_after_id targets : forall e, id (row_after targets e) = id e.
Proof.
  induction targets as [|[i u] targets IH]; intros e; [reflexivity|].
  cbn. rewrite IH. apply set_monetized_url_id.
Qed.

Lemma row_after_forget targets : forall e, forget_url (row_after targets e) = forget_url e.
Proof.
  induction targets as [|[i u] targets IH]; intros e; [reflexivity|].
  cbn. rewrite IH. apply forget_set_monetized_url.
Qed.

Lemma row_after_untouched targets : forall e,
  ~ In (id e) (map fst targets) -> row_after targets e = e.
Proof.
  induction targets as [|[i u] targets IH]; intros e Hn; [reflexivity|].
  cbn in *. rewrite set_other by (intros E; apply Hn; left; symmetry; exact E).
  apply IH. intros Hin. apply Hn. right. exact Hin.
Qed.

Lemma row_after_set targets : forall e url,
  monetized_url e = Some url ->
  exists url', monetized_url (row_after targets e) = Some url'.
Proof.
  induction targets as [|[i u] targets IH]; intros e url He; [exists url; exact He|].
  cbn. unfold set_monetized_url at 2. destruct (String.eqb (id e) i).
  - eapply IH. reflexivity.
  - eapply IH. exact He.
Qed.

Lemma row_after_touched targets : forall e,
  In (id e) (map fst targets) ->
  exists url, monetized_url (row_after targets e) = Some url.
Proof.
  induction targets as [|[i u] targets IH]; intros e Hin; [destruct Hin|].
  cbn in *. destruct (String.eqb_spec (id e) i) as [E|E].
  - rewrite (@with_url_set i u e E). eapply row_after_set. reflexivity.
  - rewrite (@set_other i u e E). apply IH. destruct Hin as [Hin|Hin]; [congruence | exact Hin].
Qed.

Lemma row_after_once targets : forall e url,
  NoDup (map fst targets) ->
  In (id e, url) targets ->
  row_after targets e = with_url url e.
Proof.
  induction targets as [|[i u] targets IH]; intros e url Hnd Hin; [destruct Hin|].
  cbn in *. inversion Hnd as [|? ? Hni Hnd']; subst.
  destruct Hin as [Hin|Hin].
  - inversion Hin; subst i u. rewrite (@with_url_set (id e) url e eq_refl).
    apply row_after_untouched. exact Hni.
  - assert (id e <> i).
    { intros E. apply Hni. rewrite <- E. apply (in_map fst _ _ Hin). }
    rewrite (@set_other i u e H). apply IH; assumption.
Qed.

Lemma url_of_forget domain e e' : forget_url e = forget_url e' -> url_of domain e = url_of domain e'.
Proof.
  intros H. unfold url_of.
  assert (Ha : apis e = apis e') by (injection H; auto).
  assert (Hp : endpoint_path e = endpoint_path e') by (injection H; auto).
  rewrite Ha, Hp. reflexivity.
Qed.

Lemma nodup_map_inj {A B} (f : A -> B) (l : list A) a b :
  NoDup (map f l) -> In a l -> In b l -> f a = f b -> a = b.
Proof.
  induction l as [|x l IH]; intros Hnd Ha Hb E; [destruct Ha|].
  cbn in Hnd. inversion Hnd as [|? ? Hni Hnd']; subst.
  destruct Ha as [Ha|Ha], Hb as [Hb|Hb]; subst.
  - reflexivity.
  - exfalso. apply Hni. rewrite E. apply in_map. exact Hb.
  - exfalso. apply Hni. rewrite <- E. apply in_map. exact Ha.
  - apply IH; assumption.
Qed.

Lemma filter_none {A} (p : A -> bool) (l : list A) :
  (forall a, In a l -> p a = false) -> filter p l = [].
Proof.
  induction l as [|x l IH]; intros H; [reflexivity|].
  cbn. rewrite (H x (or_introl eq_refl)). apply IH. intros a Ha. apply H. right. exact Ha.
Qed.

Lemma filter_id_unique (l : list Endpoint) e :
  NoDup (map id l) -> In e l -> filter (fun x => String.eqb (id x) (id e)) l = [e].
Proof.
  induction l as [|x l IH]; intros Hnd Hin; [destruct Hin|].
  cbn in Hnd. inversion Hnd as [|? ? Hni Hnd']; subst. cbn.
  destruct Hin as [->|Hin].
  - rewrite String.eqb_refl. f_equal.
    apply filter_none. intros y Hy. apply String.eqb_neq.
    intros E. apply Hni. rewrite <- E. apply in_map. exact Hy.
  - destruct (String.eqb_spec (id x) (id e)) as [E|E].
    + exfalso. apply Hni. rewrite E. apply in_map. exact Hin.
    + apply IH; assumption.
Qed.

Lemma filter_id_rows targets i rows :
  filter (fun e => String.eqb (id e) i) (map (row_after targets) rows)
  = map (row_after targets) (filter (fun e => String.eqb (id e) i) rows).
Proof.
  induction rows as [|e rows IH]; [reflexivity|].
  cbn [map filter]. rewrite row_after_id, IH.
  destruct (String.eqb (id e) i); reflexivity.
Qed.

(** The materializer of one endpoint, when both of its calls go through. *)
Lemma on_demand_run env endpointId w row :
  filter (fun e => String.eqb (id e) endpointId) (endpoints (db w)) = [row] ->
  exists w',
    updateMonetizedUrlForEndpoint env NoFault NoFault endpointId w = (inr tt, w')
    /\ calls w' = calls w
    /\ api_calls (db w') = api_calls (db w)
    /\ endpoints (db w')
       = if Js.truthy_opt (monetized_url row) then endpoints (db w)
         else match url_of (ZEDKR_DOMAIN_loaded (ZEDKR_DOMAIN env)) row with
              | Some url => map (set_monetized_url endpointId url) (endpoints (db w))
              | None => endpoints (db w)
              end.
Proof.
  intros Hrow.
  unfold updateMonetizedUrlForEndpoint, materializer_read, materializer_write,
    update_monetized_url, url_of, ZEDKR_DOMAIN_loaded.
  rewrite run_catch, !run_bind, select_single_run. rewrite Hrow. cbn [data error].
  destruct (Js.truthy_opt (monetized_url row)); [mrun; eauto|].
  destruct (username (users (apis row))) as [name|]; [|mrun; eauto].
  destruct (negb (Js.truthy name) || negb (Js.truthy (api_name_slug (apis row)))
            || negb (Js.truthy (endpoint_path row))); mrun; eauto.
Qed.

Section BatchFacts.

Variable domain_at_load : option string.
Variable supabase_env : SupabaseEnv.
Variable error_code : JsError -> option string.
Variable fetch_fault : Fault.
Variable update_fault : string -> Fault.

Local Abbreviation domain := (ZEDKR_DOMAIN_loaded domain_at_load).
Local Abbreviation targets_of' := (targets_of domain_at_load).
Local Abbreviation effective' := (effective update_fault).
Local Abbreviation update_one' := (update_one domain_at_load update_fault).
Local Abbreviation batch := (updateMonetizedUrls domain_at_load supabase_env error_code
                                                 fetch_fault update_fault).

Lemma update_one_run endpoint w :
  exists r w',
    update_one' endpoint w = (r, w')
    /\ calls w' = calls w
    /\ api_calls (db w') = api_calls (db w)
    /\ match url_of domain endpoint with
       | None => r = inr tt /\ endpoints (db w') = endpoints (db w)
       | Some url =>
           match update_fault (id endpoint) with
           | NoFault =>
               r = inr tt
               /\ endpoints (db w') = map (set_monetized_url (id endpoint) url) (endpoints (db w))
           | ErrorResult _ => r = inr tt /\ endpoints (db w') = endpoints (db w)
           | Rejects e => r = inl e /\ endpoints (db w') = endpoints (db w)
           end
       end.
Proof.
  unfold update_one. destruct (url_of domain endpoint) as [url|].
  - unfold update_monetized_url. destruct (update_fault (id endpoint)); mrun; eauto 10.
  - mrun. eauto 10.
Qed.

Lemma loop_run rows : forall w,
  exists r w',
    for_each update_one' rows w = (r, w')
    /\ calls w' = calls w
    /\ api_calls (db w') = api_calls (db w)
    /\ endpoints (db w') = apply_updates (effective' (targets_of' rows)) (endpoints (db w)).
Proof.
  induction rows as [|endpoint rows IH]; intros w.
  - cbn. mrun. do 2 eexists. split; [reflexivity|]. auto.
  - cbn [for_each]. rewrite run_bind.
    destruct (update_one_run endpoint w) as (r & w1 & E & Hc & Ha & Hr). rewrite E.
    unfold targets_of. cbn [flat_map]. fold (targets_of' rows).
    destruct (url_of domain endpoint) as [url|].
    + cbn [app effective]. destruct (update_fault (id endpoint)) as [|e|e];
        destruct Hr as (-> & He).
      * destruct (IH w1) as (r2 & w2 & E2 & Hc2 & Ha2 & He2). rewrite E2.
        do 2 eexists. split; [reflexivity|].
        rewrite Hc2, Ha2, He2, He. auto.
      * destruct (IH w1) as (r2 & w2 & E2 & Hc2 & Ha2 & He2). rewrite E2.
        do 2 eexists. split; [reflexivity|].
        rewrite Hc2, Ha2, He2, He. auto.
      * do 2 eexists. split; [reflexivity|]. auto.
    + destruct Hr as (-> & He). cbn [app].
      destruct (IH w1) as (r2 & w2 & E2 & Hc2 & Ha2 & He2). rewrite E2.
      do 2 eexists. split; [reflexivity|].
      rewrite Hc2, Ha2, He2, He. auto.
Qed.

Lemma batch_run w :
  exists w',
    batch w = (inr tt, w')
    /\ calls w' = calls w
    /\ api_calls (db w') = api_calls (db w)
    /\ endpoints (db w')
       = if negb (Js.truthy_opt (SUPABASE_URL supabase_env))
            || negb (Js.truthy_opt (SUPABASE_SERVICE_ROLE_KEY supabase_env))
         then endpoints (db w)
         else match fetch_fault with
              | NoFault =>
                  apply_updates
                    (effective' (targets_of' (filter unset_and_active (endpoints (db w)))))
                    (endpoints (db w))
              | _ => endpoints (db w)
              end.
Proof.
  unfold updateMonetizedUrls. rewrite run_catch.
  destruct (negb (Js.truthy_opt (SUPABASE_URL supabase_env))
            || negb (Js.truthy_opt (SUPABASE_SERVICE_ROLE_KEY supabase_env))).
  - mrun. eauto.
  - rewrite run_bind. unfold select_unset. destruct fetch_fault as [|e|e].
    + mrun. destruct (filter unset_and_active (endpoints (db w))) as [|row rows] eqn:Ef.
      * eexists. split; [reflexivity|]. auto.
      * destruct (loop_run (row :: rows) w) as (r & w1 & E & Hc & Ha & He).
        rewrite E. destruct r as [e|[]].
        -- destruct (_ || _); mrun; eexists; (split; [reflexivity|]); cbn; auto.
        -- eexists. split; [reflexivity|]. auto.
    + mrun. destruct (_ || _); mrun; eexists; (split; [reflexivity|]); cbn; auto.
    + mrun. destruct (_ || _); mrun; eexists; (split; [reflexivity|]); cbn; auto.
Qed.

Lemma effective_all_fine targets :
  (forall i, update_fault i = NoFault) -> effective' targets = targets.
Proof.
  intros H. induction targets as [|[i u] targets IH]; [reflexivity|].
  cbn. rewrite H, IH. reflexivity.
Qed.

Lemma in_targets rows i u :
  In (i, u) (targets_of' rows) <-> exists e, In e rows /\ id e = i /\ url_of domain e = Some u.
Proof.
  unfold targets_of. rewrite in_flat_map. split.
  - intros (e & He & Hin). exists e. split; [exact He|].
    destruct (url_of domain e) as [u'|]; [|destruct Hin].
    destruct Hin as [Hin|[]]. inversion Hin; subst. auto.
  - intros (e & He & Hi & Hu). exists e. split; [exact He|]. rewrite Hu. left. congruence.
Qed.

Lemma targets_ids rows i :
  In i (map fst (targets_of' rows)) -> In i (map id rows).
Proof.
  intros H. apply in_map_iff in H. destruct H as ([i' u] & <- & Hin).
  apply in_targets in Hin. destruct Hin as (e & He & <- & _). cbn [fst].
  apply (in_map id). exact He.
Qed.

Lemma targets_nodup rows :
  NoDup (map id rows) -> NoDup (map fst (targets_of' rows)).
Proof.
  induction rows as [|e rows IH]; intros Hnd; [constructor|].
  cbn in Hnd. inversion Hnd as [|? ? Hni Hnd']; subst.
  unfold targets_of. cbn [flat_map]. fold (targets_of' rows).
  destruct (url_of domain e) as [u|]; [|exact (IH Hnd')].
  cbn. constructor; [|exact (IH Hnd')].
  intros Hin. apply Hni. apply targets_ids. exact Hin.
Qed.

Lemma filter_ids_nodup (p : Endpoint -> bool) rows :
  NoDup (map id rows) -> NoDup (map id (filter p rows)).
Proof.
  induction rows as [|e rows IH]; intros Hnd; [constructor|].
  cbn in Hnd. inversion Hnd as [|? ? Hni Hnd']; subst. cbn.
  destruct (p e); [|exact (IH Hnd')].
  cbn. constructor; [|exact (IH Hnd')].
  intros Hin. apply Hni. apply in_map_iff in Hin. destruct Hin as (e' & E & He').
  apply filter_In in He'. rewrite <- E. apply in_map. exact (proj1 He').
Qed.

Lemma configured_runs :
  configured supabase_env ->
  negb (Js.truthy_opt (SUPABASE_URL supabase_env))
  || negb (Js.truthy_opt (SUPABASE_SERVICE_ROLE_KEY supabase_env)) = false.
Proof. intros (H1 & H2). rewrite H1, H2. reflexivity. Qed.

(** X10.  POST /api/update-urls always answers 200 "Monetized URLs updated
    successfully": the batch never throws, whether Supabase is configured
    or not, whether the query or an update fails, is rejected or times out;
    the [catch] of the route is never entered.  The batch touches neither
    the ledger nor any collaborator of the proxy, it changes no column of
    the registry other than [monetized_url], and when Supabase is not
    configured or the query fails the database is as before. *)
Theorem update_urls_always_reports_success w :
  exists w',
    update_urls domain_at_load supabase_env error_code fetch_fault update_fault w
    = (inr urls_updated, w')
    /\ calls w' = calls w
    /\ api_calls (db w') = api_calls (db w)
    /\ map forget_url (endpoints (db w')) = map forget_url (endpoints (db w))
    /\ (Js.truthy_opt (SUPABASE_URL supabase_env) = false
        \/ Js.truthy_opt (SUPABASE_SERVICE_ROLE_KEY supabase_env) = false
        \/ fetch_fault <> NoFault ->
        db w' = db w).
Proof.
  unfold update_urls. rewrite run_catch, run_bind.
  destruct (batch_run w) as (w' & E & Hc & Ha & He). rewrite E. mrun.
  exists w'. split; [reflexivity|]. split; [exact Hc|]. split; [exact Ha|]. split.
  - rewrite He. destruct (_ || _); [reflexivity|].
    destruct fetch_fault; try reflexivity. apply forget_apply_updates.
  - intros H. assert (Hend : endpoints (db w') = endpoints (db w)).
    { rewrite He. destruct H as [H|[H|H]].
      - rewrite H. reflexivity.
      - rewrite H. rewrite orb_true_r. reflexivity.
      - destruct (_ || _); [reflexivity|]. destruct fetch_fault; congruence. }
    destruct (db w'), (db w). cbn in *. congruence.
Qed.

(** X11.  The registry after the batch, whatever the updates do: the rows the
    query returned are taken in order, a row without owner, slug or path is
    passed over, an update that fails is passed over, and an update that is
    rejected ends the batch, leaving the later rows without URL. *)
Theorem batch_updates_until_rejected w :
  configured supabase_env ->
  fetch_fault = NoFault ->
  endpoints (db (snd (batch w)))
  = apply_updates (effective' (targets_of' (filter unset_and_active (endpoints (db w)))))
                  (endpoints (db w))
  /\ (forall row rest e,
        filter unset_and_active (endpoints (db w)) = row :: rest ->
        url_of domain row <> None ->
        update_fault (id row) = Rejects e ->
        db (snd (batch w)) = db w).
Proof.
  intros Hcfg Hf. destruct (batch_run w) as (w' & E & Hc & Ha & He).
  rewrite E. cbn [snd]. rewrite (configured_runs Hcfg), Hf in He.
  split; [exact He|].
  intros row rest e Hsel Hurl Hrej. rewrite Hsel in He.
  unfold targets_of in He. cbn [flat_map] in He.
  destruct (url_of domain row) as [u|]; [|congruence].
  cbn in He. rewrite Hrej in He. cbn in He.
  destruct (db w'), (db w). cbn in *. congruence.
Qed.

(** X12.  The batch without faults, on a registry whose ids are distinct: every
    active row without [monetized_url] that has an owner, a slug and a path
    gets [domain/owner/slug/path], the domain being the one read when the
    module was loaded; every other row is as before. *)
Theorem batch_fills_every_unset_url w :
  configured supabase_env ->
  fetch_fault = NoFault ->
  (forall i, update_fault i = NoFault) ->
  NoDup (map id (endpoints (db w))) ->
  endpoints (db (snd (batch w))) = map (filled domain) (endpoints (db w)).
Proof.
  intros Hcfg Hf Hu Hnd. destruct (batch_run w) as (w' & E & Hc & Ha & He).
  rewrite E. cbn [snd]. rewrite (configured_runs Hcfg), Hf in He.
  rewrite He, (effective_all_fine _ Hu), apply_updates_rows.
  apply map_ext_in. intros e Hin. unfold filled.
  set (sel := filter unset_and_active (endpoints (db w))).
  assert (Hsel : NoDup (map fst (targets_of' sel)))
    by (apply targets_nodup, filter_ids_nodup; exact Hnd).
  destruct (unset_and_active e) eqn:Es; [destruct (url_of domain e) as [u|] eqn:Eu|].
  - apply row_after_once; [exact Hsel|].
    apply in_targets. exists e. split; [|auto]. apply filter_In. auto.
  - apply row_after_untouched. intros Hi. apply in_map_iff in Hi.
    destruct Hi as ([i u] & Hi & Ht). cbn in Hi. subst i.
    apply in_targets in Ht. destruct Ht as (e' & He' & Hid & Hu').
    apply filter_In in He'. destruct He' as (He' & _).
    rewrite (nodup_map_inj id _ e' e Hnd He' Hin Hid) in Hu'. congruence.
  - apply row_after_untouched. intros Hi. apply in_map_iff in Hi.
    destruct Hi as ([i u] & Hi & Ht). cbn in Hi. subst i.
    apply in_targets in Ht. destruct Ht as (e' & He' & Hid & Hu').
    apply filter_In in He'. destruct He' as (He' & Hs').
    rewrite (nodup_map_inj id _ e' e Hnd He' Hin Hid) in Hs'. congruence.
Qed.

Lemma row_after_unset targets e :
  monetized_url (row_after targets e) = None ->
  monetized_url e = None /\ ~ In (id e) (map fst targets).
Proof.
  intros H. split.
  - destruct (monetized_url e) as [u|] eqn:E; [|reflexivity].
    destruct (row_after_set targets e E) as (u' & Hu'). congruence.
  - intros Hin. destruct (row_after_touched targets e Hin) as (u' & Hu'). congruence.
Qed.

Lemma active_forget e e' : forget_url e = forget_url e' -> active e = active e'.
Proof. intros H. injection H. auto. Qed.

(** X13.  Running the batch again changes nothing: after one run without faults,
    the rows the query still returns are those without owner, slug or path,
    and they are passed over. *)
Theorem batch_is_idempotent w :
  configured supabase_env ->
  fetch_fault = NoFault ->
  (forall i, update_fault i = NoFault) ->
  db (snd (batch (snd (batch w)))) = db (snd (batch w))
  /\ forall e, In e (filter unset_and_active (endpoints (db (snd (batch w))))) ->
                url_of domain e = None.
Proof.
  intros Hcfg Hf Hu.
  destruct (batch_run w) as (w1 & E1 & Hc1 & Ha1 & He1).
  destruct (batch_run w1) as (w2 & E2 & Hc2 & Ha2 & He2).
  rewrite E1. cbn [snd]. rewrite E2. cbn [snd].
  rewrite (configured_runs Hcfg), Hf in He1, He2.
  rewrite (effective_all_fine _ Hu) in He1. rewrite (effective_all_fine _ Hu) in He2.
  set (T := targets_of' (filter unset_and_active (endpoints (db w)))) in *.
  assert (Hleft : forall e, In e (filter unset_and_active (endpoints (db w1))) ->
                            url_of domain e = None).
  { intros e' He'. apply filter_In in He'. destruct He' as (Hin & Hs).
    rewrite He1, apply_updates_rows in Hin. apply in_map_iff in Hin.
    destruct Hin as (e & <- & Hin).
    unfold unset_and_active in Hs.
    destruct (monetized_url (row_after T e)) eqn:Em; [discriminate|].
    destruct (row_after_unset T e Em) as (Hnone & Hnot).
    rewrite (url_of_forget domain (row_after_forget T e)).
    destruct (url_of domain e) as [u|] eqn:Eu; [|reflexivity].
    exfalso. apply Hnot. apply in_map_iff. exists (id e, u). split; [reflexivity|].
    apply in_targets. exists e. split; [|auto]. apply filter_In. split; [exact Hin|].
    unfold unset_and_active. rewrite Hnone.
    rewrite (active_forget (row_after_forget T e)) in Hs. exact Hs. }
  split; [|exact Hleft].
  assert (Hnil : targets_of' (filter unset_and_active (endpoints (db w1))) = []).
  { revert Hleft. generalize (filter unset_and_active (endpoints (db w1))). intros l Hl.
    induction l as [|e l IH]; [reflexivity|].
    unfold targets_of. cbn [flat_map]. rewrite (Hl e (or_introl eq_refl)). cbn.
    apply IH. intros e' He'. apply Hl. right. exact He'. }
  rewrite Hnil in He2. cbn in He2.
  destruct (db w2), (db w1). cbn in *. congruence.
Qed.

Lemma on_demand_loop env sel : forall w,
  NoDup (map id (endpoints (db w))) ->
  NoDup (map id sel) ->
  (forall e, In e sel -> In e (endpoints (db w)) /\ monetized_url e = None) ->
  exists w',
    for_each (fun e => updateMonetizedUrlForEndpoint env NoFault NoFault (id e)) sel w
    = (inr tt, w')
    /\ calls w' = calls w
    /\ api_calls (db w') = api_calls (db w)
    /\ endpoints (db w') = apply_updates (targets_of (ZEDKR_DOMAIN env) sel) (endpoints (db w)).
Proof.
  induction sel as [|e sel IH]; intros w Hnd Hsel Hin.
  - cbn. mrun. eexists. split; [reflexivity|]. auto.
  - cbn [for_each]. rewrite run_bind.
    destruct (Hin e (or_introl eq_refl)) as (He & Hnone).
    destruct (@on_demand_run env (id e) w e (filter_id_unique _ e Hnd He))
      as (w1 & E & Hc & Ha & Hend).
    rewrite E. rewrite Hnone in Hend. cbn [Js.truthy_opt] in Hend.
    cbn in Hsel. inversion Hsel as [|? ? Hni Hsel']; subst.
    assert (Hkeep : forall u e', In e' sel -> set_monetized_url (id e) u e' = e').
    { intros u e' He'. apply set_other. intros Eid. apply Hni. rewrite <- Eid.
      apply in_map. exact He'. }
    destruct (IH w1) as (w2 & E2 & Hc2 & Ha2 & Hend2).
    + rewrite Hend. destruct (url_of _ e); [|exact Hnd].
      rewrite map_map. erewrite map_ext; [exact Hnd|].
      intros a. apply set_monetized_url_id.
    + exact Hsel'.
    + intros e' He'. destruct (Hin e' (or_intror He')) as (Hes & Hn'). split; [|exact Hn'].
      rewrite Hend. destruct (url_of _ e) as [u|]; [|exact Hes].
      rewrite <- (Hkeep u e' He'). apply in_map. exact Hes.
    + rewrite E2. exists w2. split; [reflexivity|].
      rewrite Hc2, Ha2, Hend2, Hend, Hc, Ha.
      repeat (split; [reflexivity|]).
      unfold targets_of. cbn [flat_map].
      destruct (url_of (ZEDKR_DOMAIN_loaded (ZEDKR_DOMAIN env)) e); reflexivity.
Qed.

(** X14.  The batch does what the materializer of one endpoint does for each row
    the query returns, one after the other, when both read the same
    [ZEDKR_DOMAIN], no call fails and the ids of the registry are distinct:
    the two leave the same database. *)
Theorem batch_agrees_with_on_demand env w :
  configured supabase_env ->
  fetch_fault = NoFault ->
  (forall i, update_fault i = NoFault) ->
  ZEDKR_DOMAIN env = domain_at_load ->
  NoDup (map id (endpoints (db w))) ->
  db (snd (batch w))
  = db (snd (for_each (fun e => updateMonetizedUrlForEndpoint env NoFault NoFault (id e))
                      (filter unset_and_active (endpoints (db w))) w)).
Proof.
  intros Hcfg Hf Hu Hdom Hnd.
  destruct (batch_run w) as (w1 & E1 & _ & Ha1 & He1).
  rewrite E1. cbn [snd]. rewrite (configured_runs Hcfg), Hf in He1.
  rewrite (effective_all_fine _ Hu) in He1.
  destruct (@on_demand_loop env (filter unset_and_active (endpoints (db w))) w Hnd)
    as (w2 & E2 & _ & Ha2 & He2).
  - apply filter_ids_nodup. exact Hnd.
  - intros e He. apply filter_In in He. destruct He as (He & Hs). split; [exact He|].
    unfold unset_and_active in Hs. destruct (monetized_url e); [discriminate | reflexivity].
  - rewrite E2. cbn [snd]. rewrite Hdom in He2.
    destruct (db w1), (db w2). cbn in *. congruence.
Qed.

Lemma effective_incl targets i :
  In i (map fst (effective' targets)) -> In i (map fst targets).
Proof.
  induction targets as [|[j u] targets IH]; intros H; [destruct H|].
  cbn in *. destruct (update_fault j); cbn in *; [|auto|destruct H].
  destruct H as [H|H]; auto.
Qed.

(** X15.  A row whose [monetized_url] is the empty string.  The batch asks for
    the rows whose [monetized_url] is null and leaves such a row as it is,
    whatever its updates do; the materializer of one endpoint tests the
    stored value for truth and writes the URL over the empty string. *)
Theorem empty_url_is_filled_on_demand_only env w endpointId row url :
  configured supabase_env ->
  fetch_fault = NoFault ->
  filter (fun e => String.eqb (id e) endpointId) (endpoints (db w)) = [row] ->
  monetized_url row = Some EmptyString ->
  url_of (ZEDKR_DOMAIN_loaded (ZEDKR_DOMAIN env)) row = Some url ->
  stored_url endpointId (db (snd (batch w))) = Some (Some EmptyString)
  /\ stored_url endpointId
       (db (snd (updateMonetizedUrlForEndpoint env NoFault NoFault endpointId w)))
     = Some (Some url).
Proof.
  intros Hcfg Hf Hrow Hempty Hurl. split.
  - destruct (batch_run w) as (w1 & E1 & _ & _ & He1).
    rewrite E1. cbn [snd]. rewrite (configured_runs Hcfg), Hf in He1.
    unfold stored_url. rewrite He1, apply_updates_rows, filter_id_rows, Hrow. cbn [map].
    rewrite row_after_untouched; [rewrite Hempty; reflexivity|].
    intros Hin. apply effective_incl, targets_ids in Hin.
    apply in_map_iff in Hin. destruct Hin as (e & Eid & He).
    apply filter_In in He. destruct He as (He & Hs).
    assert (Hid : id row = endpointId).
    { assert (H : In row (filter (fun e => String.eqb (id e) endpointId) (endpoints (db w))))
        by (rewrite Hrow; left; reflexivity).
      apply filter_In in H. apply String.eqb_eq. exact (proj2 H). }
    assert (H : In e (filter (fun e => String.eqb (id e) endpointId) (endpoints (db w)))).
    { apply filter_In. split; [exact He|]. apply String.eqb_eq. congruence. }
    rewrite Hrow in H. destruct H as [<-|[]].
    unfold unset_and_active in Hs. rewrite Hempty in Hs. discriminate.
  - destruct (@on_demand_run env endpointId w row Hrow) as (w1 & E & _ & _ & Hend).
    rewrite E. cbn [snd]. rewrite Hempty, Hurl in Hend. cbn [Js.truthy_opt Js.truthy] in Hend.
    unfold stored_url. rewrite Hend, filter_id_set, Hrow. cbn [map].
    unfold set_monetized_url.
    assert (H : In row (filter (fun e => String.eqb (id e) endpointId) (endpoints (db w))))
      by (rewrite Hrow; left; reflexivity).
    apply filter_In in H. rewrite (proj2 H). reflexivity.
Qed.

End BatchFacts.

(* ===================================================================== *)
(** ** Instances on the deployment of [Demo]                              *)
(* ===================================================================== *)


Lemma reserialized_body_has_its_length_witness :
  body Cases.body_call = Some (JObj [("days", JNum 3)])
  /\ px_body (onProxyReq Demo.stringify Cases.body_call
                         {| t_protocol := "https:"; t_host := "origin.example";
                            t_pathname := "/v1/forecast"; t_search := "?units=metric" |})
     = Some "{}"
  /\ get_header "content-length"
       (px_headers (onProxyReq Demo.stringify Cases.body_call
                               {| t_protocol := "https:"; t_host := "origin.example";
                                  t_pathname := "/v1/forecast"; t_search := "?units=metric" |}))
     = Some "2".
Proof.
  split; [reflexivity|].
  destruct (proj1 (@reserialized_body_has_its_length
                     Demo.stringify Cases.body_call
                     {| t_protocol := "https:"; t_host := "origin.example";
                        t_pathname := "/v1/forecast"; t_search := "?units=metric" |}
                     (JObj [("days", JNum 3)]) eq_refl eq_refl) eq_refl)
    as (Hb & Hl & _).
  split; [exact Hb | exact Hl].
Defined.

Lemma unanswered_call_stays_open_witness :
  exists resp w,
    Demo.run Demo.healthy Demo.proof_of_payment Cases.origin_down Demo.paid_call Demo.registry
    = (inr resp, w)
    /\ updates (calls w) = []
    /\ exists row,
         api_calls (db w)
         = api_calls Demo.registry ++ [admission_row (config_of row) Demo.proof_of_payment].
Proof.
  do 2 eexists. split; [vm_compute; reflexivity|]. split; [reflexivity|].
  destruct (@unanswered_call_stays_open
              Demo.no_env Demo.healthy (Demo.gate Demo.proof_of_payment) Cases.origin_down
              Demo.took Demo.parse Demo.stringify Demo.encode Demo.account_of Demo.paid
              Demo.decode Demo.form 0 Demo.paid_call Demo.registry _ _
              (options_of Demo.no_env Demo.forecast) Demo.proof_of_payment
              ltac:(vm_compute; reflexivity)
              ltac:(vm_compute; right; left; reflexivity)
              eq_refl eq_refl)
    as (row & _ & Hl & _).
  exists row. exact Hl.
Defined.

Lemma answered_call_is_completed_witness :
  exists resp w,
    Demo.run Demo.healthy Demo.proof_of_payment Demo.origin_ok Demo.paid_call Demo.registry
    = (inr resp, w)
    /\ In (Some "0xabc", 200, 12) (updates (calls w))
    /\ exists row,
         api_calls (db w)
         = api_calls Demo.registry
           ++ [completed 200 12 (admission_row (config_of row) Demo.proof_of_payment)].
Proof.
  do 2 eexists. split; [vm_compute; reflexivity|]. split; [left; reflexivity|].
  destruct (@answered_call_is_completed
              Demo.no_env Demo.healthy (Demo.gate Demo.proof_of_payment) Demo.origin_ok
              Demo.took Demo.parse Demo.stringify Demo.encode Demo.account_of Demo.paid
              Demo.decode Demo.form 0 Demo.paid_call Demo.registry _ _
              (options_of Demo.no_env Demo.forecast) Demo.proof_of_payment
              (Some "0xabc") 200 12
              ltac:(vm_compute; reflexivity)
              ltac:(vm_compute; right; left; reflexivity)
              ltac:(left; reflexivity)
              eq_refl eq_refl)
    as (row & _ & _ & _ & _ & Hl).
  exists row. apply (Hl "0xabc" eq_refl). intros c [].
Defined.



Lemma receipt_reaches_the_caller_witness :
  exists resp w,
    Demo.run Demo.healthy Demo.proof_of_payment Cases.origin_with_receipt
             Demo.paid_call Demo.registry
    = (inr resp, w)
    /\ get_header "payment-response" [("Payment-Response", "b3JpZ2lu")] = Some "b3JpZ2lu"
    /\ exists v' k',
         get_header "payment-response" (resHeaders resp) = Some v'
         /\ In (k', v') [("Payment-Response", "b3JpZ2lu")]
         /\ Js.toLowerCase k' = "payment-response".
Proof.
  do 2 eexists. split; [vm_compute; reflexivity|]. split; [reflexivity|].
  refine (proj2 (proj2 (proj2
            (@receipt_reaches_the_caller
               Demo.no_env Demo.healthy (Demo.gate Demo.proof_of_payment)
               Cases.origin_with_receipt
               Demo.took Demo.parse Demo.stringify Demo.encode Demo.account_of Demo.paid
               Demo.decode Demo.form 0 Demo.paid_call Demo.registry _ _
               (options_of Demo.no_env Demo.forecast) Demo.proof_of_payment
               _ 200 [("Payment-Response", "b3JpZ2lu")] "{}"
               ltac:(vm_compute; reflexivity)
               ltac:(vm_compute; right; left; reflexivity)
               ltac:(vm_compute; do 3 right; left; reflexivity)
               eq_refl))) "b3JpZ2lu" eq_refl).
Defined.


Lemma batch_updates_until_rejected_witness :
  configured Cases.supabase
  /\ db (snd (Cases.batch Cases.rejecting (fresh Demo.registry))) = Demo.registry.
Proof.
  assert (Hc : configured Cases.supabase) by (split; reflexivity).
  split; [exact Hc|].
  exact (proj2 (@batch_updates_until_rejected
                  None Cases.supabase Cases.no_code NoFault Cases.rejecting
                  (fresh Demo.registry) Hc eq_refl)
               Demo.forecast [] Demo.fetch_failed eq_refl
               ltac:(discriminate) eq_refl).
Defined.

Lemma batch_fills_every_unset_url_witness :
  NoDup (map id (endpoints (db (fresh Demo.registry))))
  /\ map monetized_url (endpoints (db (snd (Cases.batch Cases.fine (fresh Demo.registry)))))
     = [Some "https://zedkr.up.railway.app/alice/weather/forecast"; None].
Proof.
  assert (Hn : NoDup (map id (endpoints (db (fresh Demo.registry))))).
  { repeat constructor; cbn; intuition discriminate. }
  split; [exact Hn|]. unfold Cases.batch.
  rewrite (@batch_fills_every_unset_url
             None Cases.supabase Cases.no_code NoFault Cases.fine
             (fresh Demo.registry) (conj eq_refl eq_refl) eq_refl (fun _ => eq_refl) Hn).
  reflexivity.
Defined.

Lemma batch_is_idempotent_witness :
  db (snd (Cases.batch Cases.fine (snd (Cases.batch Cases.fine (fresh Demo.registry)))))
  = db (snd (Cases.batch Cases.fine (fresh Demo.registry))).
Proof.
  exact (proj1 (@batch_is_idempotent
                  None Cases.supabase Cases.no_code NoFault Cases.fine
                  (fresh Demo.registry) (conj eq_refl eq_refl) eq_refl (fun _ => eq_refl))).
Defined.

Lemma batch_agrees_with_on_demand_witness :
  db (snd (Cases.batch Cases.fine (fresh Demo.registry)))
  = db (snd (for_each (fun e => updateMonetizedUrlForEndpoint Demo.no_env NoFault NoFault (id e))
                      (filter unset_and_active (endpoints Demo.registry))
                      (fresh Demo.registry))).
Proof.
  refine (@batch_agrees_with_on_demand
            None Cases.supabase Cases.no_code NoFault Cases.fine Demo.no_env
            (fresh Demo.registry) (conj eq_refl eq_refl) eq_refl (fun _ => eq_refl) eq_refl _).
  repeat constructor; cbn; intuition discriminate.
Defined.

Lemma empty_url_is_filled_on_demand_only_witness :
  stored_url "ep-3" (db (snd (Cases.batch Cases.fine (fresh Cases.registry_with_blank))))
  = Some (Some EmptyString)
  /\ stored_url "ep-3"
       (db (snd (updateMonetizedUrlForEndpoint Demo.no_env NoFault NoFault "ep-3"
                   (fresh Cases.registry_with_blank))))
     = Some (Some "https://zedkr.up.railway.app/alice/weather/tides").
Proof.
  exact (@empty_url_is_filled_on_demand_only
           None Cases.supabase Cases.no_code NoFault Cases.fine Demo.no_env
           (fresh Cases.registry_with_blank) "ep-3" Cases.blank
           "https://zedkr.up.railway.app/alice/weather/tides"
           (conj eq_refl eq_refl) eq_refl eq_refl eq_refl eq_refl).
Defined.

(* ===================================================================== *)
(** * The management routes                                               *)
(* ===================================================================== *)

Lemma r_run_bind {A B} (c : R A) (k : A -> R B) (s : Site) :
  (bind c k) s = match c s with
                 | (inr a, s') => k a s'
                 | (inl e, s') => (inl e, s')
                 end.
Proof. reflexivity. Qed.

Lemma r_run_catch {A} (c : R A) (h : JsError -> R A) (s : Site) :
  (catch c h) s = match c s with
                  | (inr a, s') => (inr a, s')
                  | (inl e, s') => h e s'
                  end.
Proof. reflexivity. Qed.

Ltac rrun :=
  cbv beta iota zeta delta [bind ret raise catch Monad_R Exc_R r_bind r_ret r_raise r_catch
                            r_log read_tables write_tables];
  cbn [tables site_console data error fst snd].

Section Preserving.

Variable rel : Tables -> Tables -> Prop.
Hypothesis rel_refl : forall t, rel t t.
Hypothesis rel_trans : forall a b c, rel a b -> rel b c -> rel a c.

Lemma preserved_ret {A} (a : A) : preserved rel (ret a : R A).
Proof. intros s. apply rel_refl. Qed.

Lemma preserved_raise {A} (e : JsError) : preserved rel (raise e : R A).
Proof. intros s. apply rel_refl. Qed.

Lemma preserved_log l t d : preserved rel (r_log l t d).
Proof. intros s. apply rel_refl. Qed.

Lemma preserved_bind {A B} (c : R A) (k : A -> R B) :
  preserved rel c -> (forall a, preserved rel (k a)) -> preserved rel (bind c k).
Proof.
  intros Hc Hk s. rewrite r_run_bind. specialize (Hc s).
  destruct (c s) as [[e|a] s1]; cbn [snd] in *; [exact Hc|].
  eapply rel_trans; [exact Hc | apply Hk].
Qed.

Lemma preserved_catch {A} (c : R A) (h : JsError -> R A) :
  preserved rel c -> (forall e, preserved rel (h e)) -> preserved rel (catch c h).
Proof.
  intros Hc Hh s. rewrite r_run_catch. specialize (Hc s).
  destruct (c s) as [[e|a] s1]; cbn [snd] in *; [|exact Hc].
  eapply rel_trans; [exact Hc | apply Hh].
Qed.

Lemma preserved_find_api ft p : preserved rel (find_api ft p).
Proof. intros s. unfold find_api. destruct ft; rrun; apply rel_refl. Qed.


End Preserving.

Ltac preserved_step :=
  first
    [ apply preserved_ret; assumption
    | apply preserved_raise; assumption
    | apply preserved_log; assumption
    | apply preserved_find_api; assumption
    | apply preserved_bind; [assumption | | intro]
    | apply preserved_catch; [assumption | | intro]
    | match goal with
      | |- preserved _ (match ?x with _ => _ end) => destruct x
      | |- preserved _ (if ?x then _ else _) => destruct x
      end ].

Lemma same_but_api_refl id t : same_but_api id t t.
Proof. repeat split. Qed.

Lemma same_but_api_trans id a b c :
  same_but_api id a b -> same_but_api id b c -> same_but_api id a c.
Proof.
  intros (H1 & H2 & H3) (H1' & H2' & H3'). repeat split; congruence.
Qed.

Lemma filter_twice {A} (p : A -> bool) (l : list A) : filter p (filter p l) = filter p l.
Proof.
  induction l as [|x l IH]; [reflexivity|]. cbn. destruct (p x) eqn:E; cbn; rewrite ?E, IH; reflexivity.
Qed.

Lemma same_but_renamed id apiName t : same_but_api id t (renamed id apiName t).
Proof.
  repeat split. unfold other_apis, renamed. cbn.
  induction (apis_table t) as [|a l IH]; [reflexivity|]. cbn.
  destruct (String.eqb (a_id a) id) eqn:E; cbn; rewrite E; cbn; rewrite IH; reflexivity.
Qed.

Lemma same_but_cleared id t : same_but_api id t (without_endpoints_of id t).
Proof.
  repeat split. unfold other_endpoints, without_endpoints_of. cbn. apply filter_twice.
Qed.

Lemma same_but_deleted cascade id t : same_but_api id t (without_api cascade id t).
Proof.
  repeat split.
  - unfold other_apis, without_api. cbn. apply filter_twice.
  - unfold other_endpoints, without_api. cbn. destruct cascade; [apply filter_twice | reflexivity].
Qed.

Lemma same_but_added id t rows :
  (forall e, In e rows -> e_api_id e = id) -> same_but_api id t (with_endpoints t rows).
Proof.
  intros H. repeat split. unfold other_endpoints, with_endpoints. cbn.
  rewrite filter_app, (filter_none _ rows), app_nil_r; [reflexivity|].
  intros e He. rewrite (H e He), String.eqb_refl. reflexivity.
Qed.

Section ManagementFacts.

Variable api_fault : ApiOp -> Fault.
Variable new_api_id : Tables -> string.
Variable new_endpoint_id : Tables -> nat -> string.
Variable microstx : option string -> Z.
Variable api_json : ApiRow -> Json.
Variable cascade : bool.

Local Abbreviation create_api' :=
  (create_api api_fault new_api_id new_endpoint_id microstx api_json cascade).
Local Abbreviation update_api' := (update_api api_fault new_endpoint_id microstx).
Local Abbreviation delete_api' := (delete_api api_fault cascade).

Lemma stored_rows_api t ds : forall k e id,
  In e (stored_rows new_endpoint_id t k ds) ->
  (forall d, In d ds -> d_api_id d = id) ->
  e_api_id e = id.
Proof.
  induction ds as [|d ds IH]; intros k e id Hin Hd; [destruct Hin|].
  destruct Hin as [<-|Hin].
  - cbn. apply Hd. left. reflexivity.
  - eapply IH; [exact Hin|]. intros d' Hd'. apply Hd. right. exact Hd'.
Qed.

Lemma same_but_rename ft id apiName :
  preserved (same_but_api id) (rename_api ft id apiName).
Proof. intros s. unfold rename_api. destruct ft; rrun; try apply same_but_api_refl. apply same_but_renamed. Qed.

Lemma same_but_clear ft id : preserved (same_but_api id) (clear_endpoints ft id).
Proof. intros s. unfold clear_endpoints. destruct ft; rrun; try apply same_but_api_refl. apply same_but_cleared. Qed.

Lemma same_but_delete ft id : preserved (same_but_api id) (delete_api_row cascade ft id).
Proof. intros s. unfold delete_api_row. destruct ft; rrun; try apply same_but_api_refl. apply same_but_deleted. Qed.

Lemma same_but_insert ft id ds :
  (forall d, In d ds -> d_api_id d = id) ->
  preserved (same_but_api id) (insert_endpoints new_endpoint_id ft ds).
Proof.
  intros H s. unfold insert_endpoints. destruct ft; rrun; try apply same_but_api_refl.
  apply same_but_added. intros e He. exact (stored_rows_api _ _ _ _ He H).
Qed.

(** X16.  PUT and DELETE on the API [id] leave the users, every other API and the
    endpoints of every other API as they are, whoever asks, whatever the
    body holds and whatever the Supabase calls do. *)
Theorem edits_touch_one_api userId id body s :
  same_but_api id (tables s) (tables (snd (update_api' userId id body s)))
  /\ same_but_api id (tables s) (tables (snd (delete_api' userId id s))).
Proof.
  pose proof (same_but_api_refl id) as Hr.
  pose proof (same_but_api_trans (id:=id)) as Ht.
  split.
  - revert s. change (preserved (same_but_api id) (update_api' userId id body)).
    unfold update_api.
    repeat first [ apply same_but_rename | apply same_but_clear
                 | apply same_but_insert;
                   intros d Hd; apply in_map_iff in Hd; destruct Hd as (x & <- & _); reflexivity
                 | preserved_step ].
  - revert s. change (preserved (same_but_api id) (delete_api' userId id)).
    unfold delete_api.
    repeat first [ apply same_but_delete | preserved_step ].
Qed.

Lemma not_owned userId id (l : list ApiRow) :
  (forall a, In a l -> a_id a = id -> a_user_id a <> userId) ->
  filter (fun a => String.eqb (a_id a) id && String.eqb (a_user_id a) userId) l = [].
Proof.
  intros H. apply filter_none. intros a Ha.
  destruct (String.eqb_spec (a_id a) id) as [E|E]; [|reflexivity].
  cbn. apply String.eqb_neq. exact (H a Ha E).
Qed.

(** X17.  A user who does not own the API [id] changes nothing: PUT and DELETE
    answer 404 "API not found" (500 when the ownership query is rejected)
    and leave the three tables as they are. *)
Theorem strangers_change_nothing userId id body s :
  (forall a, In a (apis_table (tables s)) -> a_id a = id -> a_user_id a <> userId) ->
  tables (snd (update_api' userId id body s)) = tables s
  /\ tables (snd (delete_api' userId id s)) = tables s
  /\ match api_fault OpOwn with
     | Rejects e =>
         fst (update_api' userId id body s) = inr (internal_error e)
         /\ fst (delete_api' userId id s) = inr (internal_error e)
     | _ =>
         fst (update_api' userId id body s) = inr api_not_found
         /\ fst (delete_api' userId id s) = inr api_not_found
     end.
Proof.
  intros H. apply not_owned in H. unfold update_api, delete_api, find_api.
  rewrite !r_run_catch, !r_run_bind.
  destruct (api_fault OpOwn) as [|e|e]; rrun; rewrite ?H; cbn; auto.
Qed.

(** *** What POST leaves behind *)

Local Abbreviation create_endpoints' :=
  (create_endpoints api_fault new_endpoint_id microstx api_json cascade).
Local Abbreviation create_row' :=
  (create_row api_fault new_api_id new_endpoint_id microstx api_json cascade).
Local Abbreviation rows_for t apiId inputs :=
  (stored_rows new_endpoint_id t 0 (map (created_data microstx apiId) inputs)).

Lemma find_none {A B} (g : A -> B) (q : B -> bool) (l : list A) :
  find (fun d => negb (q d)) (map g l) = None -> forallb (fun i => q (g i)) l = true.
Proof.
  induction l as [|a l IH]; [reflexivity|]. cbn.
  destruct (q (g a)); [exact IH | discriminate].
Qed.

Lemma create_endpoints_run api endpoints s :
  exists r s',
    create_endpoints' api endpoints s = (r, s')
    /\ (tables s' = tables s
        \/ (exists inputs,
              endpoints = Some inputs
              /\ forallb (fun i => matches_slug (Js.or_default (i_endpointPath i) EmptyString))
                         inputs = true
              /\ r = inr (api_created api_json api)
              /\ tables s' = with_endpoints (tables s) (rows_for (tables s) (a_id api) inputs))
        \/ tables s' = without_api cascade (a_id api) (tables s)).
Proof.
  unfold create_endpoints. destruct endpoints as [[|e es]|]; try (rrun; eauto).
  destruct (find _ _) as [bad|] eqn:Ef; [rrun; eauto|].
  apply (find_none (created_data microstx (a_id api))
                   (fun d => matches_slug (d_endpoint_path d))) in Ef.
  assert (Hv : forallb (fun i => matches_slug (Js.or_default (i_endpointPath i) EmptyString))
                       (e :: es) = true) by exact Ef.
  clear Ef. unfold insert_endpoints, delete_api_row.
  destruct (api_fault OpInsertEndpoints) as [|err|err]; rrun.
  - do 2 eexists. split; [reflexivity|]. right. left. exists (e :: es). cbn [tables]. auto.
  - destruct (api_fault OpRollback); rrun; do 2 eexists; (split; [reflexivity|]); cbn; auto.
  - eauto.
Qed.

Lemma create_row_run userId apiName apiNameSlug endpoints s :
  let api := {| a_id := new_api_id (tables s); a_user_id := userId;
                a_api_name := apiName; a_api_name_slug := apiNameSlug |} in
  exists r s',
    create_row' userId apiName apiNameSlug endpoints s = (r, s')
    /\ (tables s' = tables s
        \/ tables s' = with_api (tables s) api
        \/ (exists inputs,
              endpoints = Some inputs
              /\ forallb (fun i => matches_slug (Js.or_default (i_endpointPath i) EmptyString))
                         inputs = true
              /\ r = inr (api_created api_json api)
              /\ tables s'
                 = with_endpoints (with_api (tables s) api)
                                  (rows_for (with_api (tables s) api) (a_id api) inputs))
        \/ tables s' = without_api cascade (a_id api) (with_api (tables s) api)).
Proof.
  intros api. unfold create_row. rewrite r_run_bind. unfold insert_api.
  destruct (api_fault OpInsertApi) as [|err|err]; rrun; try (do 2 eexists; split; [reflexivity|]; auto).
  fold api.
  match goal with
  | |- context [create_endpoints _ _ _ _ _ api endpoints ?s0] =>
      destruct (create_endpoints_run api endpoints s0) as (r & s' & E & H)
  end.
  rewrite E. exists r, s'. split; [reflexivity|]. cbn [tables] in H.
  destruct H as [H|[H|H]]; auto.
Qed.

Lemma create_run userId body s :
  let t := tables s in
  let api := new_api new_api_id userId body t in
  exists r s',
    create_api' userId body s = (inr r, s')
    /\ (tables s' = t
        \/ (Js.truthy (a_api_name api) = true
            /\ matches_slug (a_api_name_slug api) = true
            /\ ((forall e, api_fault OpFindSlug <> Rejects e)
                /\ (api_fault OpFindSlug = NoFault ->
                    data (single (filter (fun a => String.eqb (a_user_id a) userId
                                                   && String.eqb (a_api_name_slug a)
                                                                 (a_api_name_slug api))
                                         (apis_table t))) = None))
            /\ (tables s' = with_api t api
                \/ (exists inputs,
                      b_endpoints body = Some inputs
                      /\ forallb (fun i => matches_slug
                                             (Js.or_default (i_endpointPath i) EmptyString))
                                 inputs = true
                      /\ r = api_created api_json api
                      /\ tables s'
                         = with_endpoints (with_api t api)
                                          (rows_for (with_api t api) (a_id api) inputs))
                \/ tables s' = without_api cascade (a_id api) (with_api t api)))).
Proof.
  intros t api. unfold create_api. rewrite r_run_catch.
  destruct (negb (Js.truthy_opt (b_apiName body))
            || negb (Js.truthy_opt (b_apiNameSlug body))) eqn:En;
    [rrun; do 2 eexists; split; [reflexivity | left; reflexivity]|].
  apply orb_false_elim in En. destruct En as (En & _). apply negb_false_iff in En.
  assert (Hname : Js.truthy (a_api_name api) = true).
  { cbn. destruct (b_apiName body) as [n|]; [|discriminate]. cbn in En |- *. rewrite En. exact En. }
  destruct (negb (matches_slug (Js.or_default (b_apiNameSlug body) EmptyString))) eqn:Es;
    [rrun; do 2 eexists; split; [reflexivity | left; reflexivity]|].
  apply negb_false_iff in Es.
  rewrite r_run_bind. unfold find_api.
  assert (Hrow : forall (Check : Prop) s0, tables s0 = t -> Check ->
            exists r s',
              match create_row' userId (Js.or_default (b_apiName body) EmptyString)
                                (Js.or_default (b_apiNameSlug body) EmptyString)
                                (b_endpoints body) s0 with
              | (inl e, s1) => (r_log LError "Create API error:" (Some e) ;;
                                ret (internal_error e)) s1
              | (inr a, s1) => (inr a, s1)
              end = (inr r, s')
              /\ (tables s' = t
                  \/ (Js.truthy (a_api_name api) = true
                      /\ matches_slug (a_api_name_slug api) = true
                      /\ Check
                      /\ (tables s' = with_api t api
                          \/ (exists inputs,
                                b_endpoints body = Some inputs
                                /\ forallb (fun i => matches_slug
                                                       (Js.or_default (i_endpointPath i)
                                                                      EmptyString))
                                           inputs = true
                                /\ r = api_created api_json api
                                /\ tables s'
                                   = with_endpoints (with_api t api)
                                       (rows_for (with_api t api) (a_id api) inputs))
                          \/ tables s' = without_api cascade (a_id api) (with_api t api))))).
  { intros Check s0 Hs0 Hcheck.
    destruct (create_row_run userId (Js.or_default (b_apiName body) EmptyString)
                (Js.or_default (b_apiNameSlug body) EmptyString) (b_endpoints body) s0)
      as (r & s1 & E & H).
    rewrite E. rewrite Hs0 in H. fold t in H.
    change {| a_id := new_api_id t; a_user_id := userId;
              a_api_name := Js.or_default (b_apiName body) EmptyString;
              a_api_name_slug := Js.or_default (b_apiNameSlug body) EmptyString |}
      with api in H.
    destruct r as [e|r].
    - rrun. do 2 eexists. split; [reflexivity|]. cbn [tables].
      destruct H as [H|[H|[(inputs & _ & _ & Hr & _)|H]]]; [left; exact H | | discriminate |];
        right; auto 10.
    - exists r, s1. split; [reflexivity|].
      destruct H as [H|[H|[(inputs & Hi & Hv & Hr & H)|H]]]; [left; exact H | | |];
        right; split; [exact Hname| |exact Hname| |exact Hname|];
        (split; [exact Es|]); (split; [exact Hcheck|]); auto.
      right. left. exists inputs. inversion Hr; subst r. auto. }
  case_eq (api_fault OpFindSlug); [intros Ef | intros err Ef | intros err Ef]; rrun.
  - fold t.
    case_eq (data (single (filter (fun a => String.eqb (a_user_id a) userId
                                            && String.eqb (a_api_name_slug a)
                                                          (a_api_name_slug api))
                                  (apis_table t)))).
    + intros found Ed. cbn [a_api_name_slug new_api api] in Ed. rewrite Ed.
      rrun. do 2 eexists. split; [reflexivity|]. left. reflexivity.
    + intros Ed. cbn [a_api_name_slug new_api api] in Ed. rewrite Ed.
      apply Hrow; [reflexivity|]. split; [intros e; discriminate | intros _; reflexivity].
  - apply Hrow; [reflexivity|]. split; [intros e; discriminate | intros H; discriminate].
  - do 2 eexists. split; [reflexivity|]. left. reflexivity.
Qed.

Lemma filter_all {A} (p : A -> bool) (l : list A) :
  (forall a, In a l -> p a = true) -> filter p l = l.
Proof.
  induction l as [|x l IH]; intros H; [reflexivity|].
  cbn. rewrite (H x (or_introl eq_refl)), IH; [reflexivity|].
  intros a Ha. apply H. right. exact Ha.
Qed.

Lemma rollback_restores api t :
  fresh_api_id (a_id api) t -> without_api cascade (a_id api) (with_api t api) = t.
Proof.
  intros (Ha & He). unfold without_api, with_api. cbn.
  rewrite filter_app. cbn. rewrite String.eqb_refl. cbn. rewrite app_nil_r.
  rewrite (filter_all _ (apis_table t))
    by (intros a Hin; apply negb_true_iff, String.eqb_neq, Ha; exact Hin).
  replace (if cascade
           then filter (fun e => negb (String.eqb (e_api_id e) (a_id api))) (endpoints_table t)
           else endpoints_table t)
    with (endpoints_table t).
  - destruct t; reflexivity.
  - destruct cascade; [|reflexivity]. symmetry. apply filter_all.
    intros e Hin. apply negb_true_iff, String.eqb_neq, He. exact Hin.
Qed.

Lemma stored_rows_in t ds : forall k e,
  In e (stored_rows new_endpoint_id t k ds) ->
  exists d, In d ds
            /\ e_api_id e = d_api_id d
            /\ e_endpoint_path e = d_endpoint_path d
            /\ e_active e = d_active d
            /\ e_monetized_url e = None.
Proof.
  induction ds as [|d ds IH]; intros k e Hin; [destruct Hin|].
  destruct Hin as [<-|Hin].
  - exists d. cbn. auto.
  - destruct (IH _ _ Hin) as (d' & Hd' & H). exists d'. split; [right; exact Hd' | exact H].
Qed.

(** X18.  POST only adds rows, and only rows that passed its checks.  When the
    id the database gives to the new API is new, the tables after POST are
    the tables before, followed by at most one API, owned by the caller,
    with a name and a slug of lowercase letters, digits, hyphens and
    underscores, and by endpoints of that API only, each active, without
    [monetized_url] and with a path of that alphabet.  This holds whatever
    the body holds and whatever the Supabase calls do; in particular a
    rollback gives the tables before back. *)
Theorem creation_only_adds_checked_rows userId body s :
  fresh_api_id (new_api_id (tables s)) (tables s) ->
  let t := tables s in
  let t' := tables (snd (create_api' userId body s)) in
  let api := new_api new_api_id userId body t in
  users_table t' = users_table t
  /\ exists new_apis new_rows,
       apis_table t' = apis_table t ++ new_apis
       /\ endpoints_table t' = endpoints_table t ++ new_rows
       /\ (new_apis = []
           \/ (new_apis = [api]
               /\ Js.truthy (a_api_name api) = true
               /\ matches_slug (a_api_name_slug api) = true))
       /\ (forall e, In e new_rows -> new_apis = [api] /\ checked_row (a_id api) e).
Proof.
  intros Hfresh t t' api.
  destruct (create_run userId body s) as (r & s' & E & H).
  subst t'. rewrite E. cbn [snd]. fold t in H. fold api in H.
  assert (Hsame : users_table t = users_table t
                  /\ exists new_apis new_rows,
                       apis_table t = apis_table t ++ new_apis
                       /\ endpoints_table t = endpoints_table t ++ new_rows
                       /\ (new_apis = []
                           \/ (new_apis = [api]
                               /\ Js.truthy (a_api_name api) = true
                               /\ matches_slug (a_api_name_slug api) = true))
                       /\ (forall e, In e new_rows -> new_apis = [api] /\ checked_row (a_id api) e)).
  { split; [reflexivity|]. exists [], []. rewrite !app_nil_r.
    split; [reflexivity|]. split; [reflexivity|]. split; [left; reflexivity|].
    intros e0 []. }
  destruct H as [H|(Hn & Hs & _ & [H|[(inputs & _ & Hv & _ & H)|H]])]; rewrite H; clear H.
  - exact Hsame.
  - split; [reflexivity|]. exists [api], []. cbn. rewrite app_nil_r.
    split; [reflexivity|]. split; [reflexivity|]. split; [right; auto|].
    intros e0 [].
  - split; [reflexivity|]. exists [api]. eexists. cbn.
    split; [reflexivity|]. split; [reflexivity|]. split; [right; auto|].
    intros e He. split; [reflexivity|].
    destruct (stored_rows_in _ _ _ _ He) as (d & Hd & H1 & H2 & H3 & H4).
    apply in_map_iff in Hd. destruct Hd as (i & <- & Hi).
    rewrite forallb_forall in Hv. specialize (Hv i Hi).
    unfold checked_row. rewrite H1, H2, H3, H4. cbn. auto.
  - pose proof (rollback_restores api Hfresh) as Hrb. fold t in Hrb. rewrite Hrb.
    exact Hsame.
Qed.

(** *** Slugs stay unique *)

Lemma kept_keys_unique {Row Key} (key : Row -> Key) (keep : Row -> bool) (rows : list Row)
    (Hkeys : NoDup (map key rows)) :
  NoDup (map key (filter keep rows)).
Proof.
  induction rows as [|r rows IH]; [constructor|].
  cbn in Hkeys. apply NoDup_cons_iff in Hkeys. destruct Hkeys as (Hfirst & Hrest).
  cbn. destruct (keep r); [|exact (IH Hrest)].
  cbn. constructor; [|exact (IH Hrest)].
  intros Hin. apply Hfirst. apply in_map_iff in Hin. destruct Hin as (r' & E & Hr').
  apply filter_In in Hr'. rewrite <- E. apply in_map. exact (proj1 Hr').
Qed.

Lemma unique_still_refl t : unique_still t t.
Proof. intros H. exact H. Qed.

Lemma unique_still_trans a b c : unique_still a b -> unique_still b c -> unique_still a c.
Proof. unfold unique_still. auto. Qed.

Lemma unique_still_same t t' : apis_table t' = apis_table t -> unique_still t t'.
Proof. unfold unique_still, slugs_unique. intros ->. auto. Qed.

Lemma unique_still_renamed id apiName t : unique_still t (renamed id apiName t).
Proof.
  unfold unique_still, slugs_unique, renamed. cbn. rewrite map_map.
  erewrite map_ext; [intros H; exact H|].
  intros a. cbn. destruct (String.eqb (a_id a) id); reflexivity.
Qed.

Lemma unique_still_deleted id t : unique_still t (without_api cascade id t).
Proof. unfold unique_still, slugs_unique, without_api. cbn. apply kept_keys_unique. Qed.

Lemma unique_with_api userId slug api t :
  a_user_id api = userId ->
  a_api_name_slug api = slug ->
  slugs_unique t ->
  data (single (filter (fun a => String.eqb (a_user_id a) userId
                                 && String.eqb (a_api_name_slug a) slug)
                       (apis_table t))) = None ->
  slugs_unique (with_api t api).
Proof.
  unfold slugs_unique, with_api. cbn. intros Hu Hs Hnd Hnone.
  rewrite map_app. cbn. rewrite Hu, Hs. clear Hu Hs.
  assert (Hno : ~ In (userId, slug) (map (fun a => (a_user_id a, a_api_name_slug a))
                                     (apis_table t))).
  { revert Hnd Hnone. induction (apis_table t) as [|a l IH]; intros Hnd Hnone Hin;
      [destruct Hin|].
    cbn in Hnd. inversion Hnd as [|? ? Hni Hnd']; subst.
    cbn in Hnone, Hin.
    destruct (String.eqb_spec (a_user_id a) userId) as [E1|E1];
      [destruct (String.eqb_spec (a_api_name_slug a) slug) as [E2|E2]|]; cbn in Hnone.
    - rewrite (filter_none _ l) in Hnone; [discriminate|].
      intros a' Ha'.
      destruct (String.eqb_spec (a_user_id a') userId) as [E1'|E1']; [|reflexivity].
      destruct (String.eqb_spec (a_api_name_slug a') slug) as [E2'|E2']; [|reflexivity].
      exfalso. apply Hni. rewrite E1, E2, <- E1', <- E2'.
      apply (in_map (fun a => (a_user_id a, a_api_name_slug a))). exact Ha'.
    - destruct Hin as [Hin|Hin]; [congruence | exact (IH Hnd' Hnone Hin)].
    - destruct Hin as [Hin|Hin]; [congruence | exact (IH Hnd' Hnone Hin)]. }
  clear Hnone. induction (apis_table t) as [|a l IH]; cbn.
  - constructor; [intros [] | constructor].
  - cbn in Hnd. inversion Hnd as [|? ? Hni Hnd']; subst.
    constructor.
    + rewrite in_app_iff. intros [Hin|[Hin|[]]]; [exact (Hni Hin)|].
      apply Hno. left. symmetry. exact Hin.
    + apply IH; [exact Hnd'|]. intros Hin. apply Hno. right. exact Hin.
Qed.

Lemma unique_still_rename ft id apiName : preserved unique_still (rename_api ft id apiName).
Proof.
  intros s. unfold rename_api. destruct ft; rrun; try apply unique_still_refl.
  apply unique_still_renamed.
Qed.

Lemma unique_still_clear ft id : preserved unique_still (clear_endpoints ft id).
Proof.
  intros s. unfold clear_endpoints. destruct ft; rrun; try apply unique_still_refl.
  apply unique_still_same. reflexivity.
Qed.

Lemma unique_still_insert ft ds : preserved unique_still (insert_endpoints new_endpoint_id ft ds).
Proof.
  intros s. unfold insert_endpoints. destruct ft; rrun; try apply unique_still_refl.
  apply unique_still_same. reflexivity.
Qed.

Lemma unique_still_delete ft id : preserved unique_still (delete_api_row cascade ft id).
Proof.
  intros s. unfold delete_api_row. destruct ft; rrun; try apply unique_still_refl.
  apply unique_still_deleted.
Qed.


(** *** POST step by step *)

Lemma slug_given (o : option string) :
  matches_slug (Js.or_default o EmptyString) = true -> Js.truthy_opt o = true.
Proof.
  destruct o as [x|]; cbn; [|discriminate].
  destruct x; cbn; [discriminate | reflexivity].
Qed.

Lemma none_of_slug userId slug (l : list ApiRow) :
  (forall a, In a l -> a_user_id a = userId -> a_api_name_slug a <> slug) ->
  filter (fun a => String.eqb (a_user_id a) userId && String.eqb (a_api_name_slug a) slug) l
  = [].
Proof.
  intros H. apply filter_none. intros a Ha.
  destruct (String.eqb_spec (a_user_id a) userId) as [E|E]; [|reflexivity].
  cbn. apply String.eqb_neq. exact (H a Ha E).
Qed.

(** POST up to the insert of the API, when the body has a name and a slug
    of the alphabet, no API of the caller has the slug and the two calls go
    through. *)
Lemma create_reaches_endpoints userId body s :
  api_fault OpFindSlug = NoFault ->
  api_fault OpInsertApi = NoFault ->
  Js.truthy_opt (b_apiName body) = true ->
  matches_slug (Js.or_default (b_apiNameSlug body) EmptyString) = true ->
  (forall a, In a (apis_table (tables s)) -> a_user_id a = userId ->
             a_api_name_slug a <> Js.or_default (b_apiNameSlug body) EmptyString) ->
  let api := new_api new_api_id userId body (tables s) in
  create_api' userId body s
  = match create_endpoints' api (b_endpoints body)
            {| tables := with_api (tables s) api; site_console := site_console s |} with
    | (inl e, s') => (r_log LError "Create API error:" (Some e) ;; ret (internal_error e)) s'
    | (inr a, s') => (inr a, s')
    end.
Proof.
  intros Hf Hi Hn Hs Hnone api.
  unfold create_api. rewrite r_run_catch.
  rewrite Hn, (slug_given _ Hs). cbn [negb orb]. rewrite Hs. cbn [negb].
  rewrite r_run_bind. unfold find_api. rewrite Hf. rrun.
  rewrite (none_of_slug _ Hnone). cbn [single data].
  unfold create_row. rewrite r_run_bind. unfold insert_api. rewrite Hi. rrun.
  reflexivity.
Qed.

Lemma some_invalid {A B} (g : A -> B) (q : B -> bool) (l : list A) :
  forallb (fun i => q (g i)) l = false ->
  exists d rest, find (fun d => negb (q d)) (map g l) = Some d /\ q d = false
                 /\ l <> [] /\ rest = tl l.
Proof.
  induction l as [|a l IH]; [discriminate|]. cbn.
  destruct (q (g a)) eqn:E; cbn.
  - intros H. destruct (IH H) as (d & rest & Hf & Hq & _). exists d, l.
    repeat split; auto. discriminate.
  - intros _. exists (g a), l. repeat split; auto. discriminate.
Qed.

(** X20.  POST does not undo the API when an endpoint fails the path check.  The
    API is inserted before the paths are checked: when a path is not of the
    alphabet, the answer is 400 "Invalid endpoint path", the API is in the
    table without any endpoint, and the same request with its paths
    corrected is refused with 400 "API name already exists". *)
Theorem invalid_path_leaves_the_api_behind userId body s inputs :
  api_fault OpFindSlug = NoFault ->
  api_fault OpInsertApi = NoFault ->
  Js.truthy_opt (b_apiName body) = true ->
  matches_slug (Js.or_default (b_apiNameSlug body) EmptyString) = true ->
  (forall a, In a (apis_table (tables s)) -> a_user_id a = userId ->
             a_api_name_slug a <> Js.or_default (b_apiNameSlug body) EmptyString) ->
  b_endpoints body = Some inputs ->
  forallb (fun i => matches_slug (Js.or_default (i_endpointPath i) EmptyString)) inputs = false ->
  let out := create_api' userId body s in
  (exists path, fst out = inr (invalid_path path) /\ matches_slug path = false)
  /\ tables (snd out) = with_api (tables s) (new_api new_api_id userId body (tables s))
  /\ forall again,
       b_apiName again = b_apiName body ->
       b_apiNameSlug again = b_apiNameSlug body ->
       create_api' userId again (snd out)
       = (inr (json_response 400 (failure "API name already exists")), snd out).
Proof.
  intros Hf Hi Hn Hs Hnone Hin Hbad out. subst out.
  rewrite (@create_reaches_endpoints userId body s Hf Hi Hn Hs Hnone).
  unfold create_endpoints. rewrite Hin.
  destruct (@some_invalid _ _ (created_data microstx
                                 (a_id (new_api new_api_id userId body (tables s))))
                          (fun d => matches_slug (d_endpoint_path d)) inputs Hbad)
    as (d & rest & Hfind & Hq & Hne & _).
  destruct inputs as [|e es]; [congruence|]. rewrite Hfind. rrun.
  split; [exists (d_endpoint_path d); auto|]. split; [reflexivity|].
  intros again Hname Hslug.
  unfold create_api. rewrite r_run_catch, Hname, Hslug.
  rewrite Hn, (slug_given _ Hs). cbn [negb orb]. rewrite Hs. cbn [negb].
  rewrite r_run_bind. unfold find_api. rewrite Hf. rrun.
  unfold with_api. cbn [apis_table]. rewrite filter_app, (none_of_slug _ Hnone).
  cbn. rewrite !String.eqb_refl. reflexivity.
Qed.

(** X21.  POST when the insert of the endpoints fails: the answer is 500 "Failed
    to create endpoints" whether or not the API could be taken back.  When
    the delete goes through and the id was new, the tables are as before;
    when the delete fails too, the API stays in the table without
    endpoints. *)
Theorem failed_endpoints_are_rolled_back userId body s e es err :
  api_fault OpFindSlug = NoFault ->
  api_fault OpInsertApi = NoFault ->
  api_fault OpInsertEndpoints = ErrorResult err ->
  Js.truthy_opt (b_apiName body) = true ->
  matches_slug (Js.or_default (b_apiNameSlug body) EmptyString) = true ->
  (forall a, In a (apis_table (tables s)) -> a_user_id a = userId ->
             a_api_name_slug a <> Js.or_default (b_apiNameSlug body) EmptyString) ->
  b_endpoints body = Some (e :: es) ->
  forallb (fun i => matches_slug (Js.or_default (i_endpointPath i) EmptyString)) (e :: es) = true ->
  fresh_api_id (new_api_id (tables s)) (tables s) ->
  let out := create_api' userId body s in
  (api_fault OpRollback = NoFault ->
   fst out = inr (json_response 500 (failure "Failed to create endpoints"))
   /\ tables (snd out) = tables s)
  /\ (forall err', api_fault OpRollback = ErrorResult err' ->
        fst out = inr (json_response 500 (failure "Failed to create endpoints"))
        /\ tables (snd out) = with_api (tables s) (new_api new_api_id userId body (tables s))).
Proof.
  intros Hf Hi He Hn Hs Hnone Hin Hok Hfresh out. subst out.
  rewrite (@create_reaches_endpoints userId body s Hf Hi Hn Hs Hnone).
  unfold create_endpoints. rewrite Hin.
  assert (Hfind : find (fun d => negb (matches_slug (d_endpoint_path d)))
                       (map (created_data microstx
                               (a_id (new_api new_api_id userId body (tables s)))) (e :: es))
                  = None).
  { revert Hok. generalize (e :: es). intros l. induction l as [|i l IH]; [reflexivity|].
    cbn. destruct (matches_slug (Js.or_default (i_endpointPath i) EmptyString)); cbn;
      [exact IH | discriminate]. }
  rewrite Hfind. rewrite r_run_bind. unfold insert_endpoints. rewrite He. rrun.
  unfold delete_api_row. split.
  - intros Hr. rewrite Hr. rrun. split; [reflexivity|].
    exact (@rollback_restores (new_api new_api_id userId body (tables s)) (tables s) Hfresh).
  - intros err' Hr. rewrite Hr. rrun. split; reflexivity.
Qed.

(** *** PUT replaces the endpoints *)

Lemma stored_rows_paths t ds : forall k,
  map e_endpoint_path (stored_rows new_endpoint_id t k ds) = map d_endpoint_path ds.
Proof.
  induction ds as [|d ds IH]; intros k; [reflexivity|]. cbn. rewrite IH. reflexivity.
Qed.

Lemma endpoints_of_replaced id t rows :
  (forall e, In e rows -> e_api_id e = id) ->
  endpoints_of id (with_endpoints (without_endpoints_of id t) rows) = rows.
Proof.
  intros H. unfold endpoints_of, with_endpoints, without_endpoints_of. cbn.
  rewrite filter_app, (filter_none _ (filter _ _)), (filter_all _ rows); [reflexivity | |].
  - intros e He. rewrite (H e He). apply String.eqb_refl.
  - intros e He. apply filter_In in He. destruct He as (_ & He).
    apply negb_true_iff in He. exact He.
Qed.

(** X22.  PUT by the owner, with a list of endpoints and no new name.  The old
    endpoints of the API are deleted first and the new ones inserted as
    given: their paths are stored without the check POST makes, whatever
    they are.  When the insert fails, the answer is 500 and the API is left
    without endpoints. *)
Theorem update_replaces_endpoints_unchecked userId id body s owned inputs :
  api_fault OpOwn = NoFault ->
  api_fault OpClearEndpoints = NoFault ->
  filter (fun a => String.eqb (a_id a) id && String.eqb (a_user_id a) userId)
         (apis_table (tables s)) = [owned] ->
  Js.truthy_opt (b_apiName body) = false ->
  b_endpoints body = Some inputs ->
  let out := update_api' userId id body s in
  (api_fault OpInsertEndpoints = NoFault ->
   fst out = inr api_updated
   /\ map e_endpoint_path (endpoints_of id (tables (snd out)))
      = map (fun i => or_else (i_endpointPath i) (i_path i)) inputs
   /\ forall e, In e (endpoints_of id (tables (snd out))) ->
                e_active e = true /\ e_monetized_url e = None)
  /\ (forall err, api_fault OpInsertEndpoints = ErrorResult err ->
        inputs <> [] ->
        fst out = inr (json_response 500 (failure "Failed to update endpoints"))
        /\ endpoints_of id (tables (snd out)) = []).
Proof.
  intros Ho Hc Hown Hname Hin out. subst out.
  unfold update_api. rewrite r_run_catch, r_run_bind. unfold find_api. rewrite Ho. rrun.
  rewrite Hown. cbn [single data error]. rewrite Hname, Hin. rrun.
  unfold clear_endpoints. rewrite Hc. rrun.
  assert (Hnone : endpoints_of id (without_endpoints_of id (tables s)) = []).
  { unfold endpoints_of, without_endpoints_of. cbn. apply filter_none.
    intros e He. apply filter_In in He. destruct He as (_ & He).
    apply negb_true_iff in He. exact He. }
  destruct inputs as [|i inputs].
  - rrun. split.
    + intros _. split; [reflexivity|]. rewrite Hnone. split; [reflexivity|]. intros e [].
    + intros err _ H. congruence.
  - unfold insert_endpoints. split.
    + intros Hi. rewrite Hi. rrun. split; [reflexivity|].
      rewrite endpoints_of_replaced.
      * rewrite stored_rows_paths, map_map. split; [reflexivity|].
        intros e He. destruct (stored_rows_in _ _ _ _ He) as (d & Hd & _ & _ & Ha & Hm).
        apply in_map_iff in Hd. destruct Hd as (x & <- & _). rewrite Ha, Hm. auto.
      * intros e He. eapply stored_rows_api; [exact He|].
        intros d Hd. apply in_map_iff in Hd. destruct Hd as (x & <- & _). reflexivity.
    + intros err Hi _. rewrite Hi. rrun. split; [reflexivity | exact Hnone].
Qed.

(** *** From POST to the proxy *)

Lemma filter_unique_by {A} (f : A -> string) (l : list A) x :
  NoDup (map f l) -> In x l -> filter (fun y => String.eqb (f y) (f x)) l = [x].
Proof.
  induction l as [|a l IH]; intros Hnd Hin; [destruct Hin|].
  cbn in Hnd. inversion Hnd as [|? ? Hni Hnd']; subst. cbn.
  destruct Hin as [->|Hin].
  - rewrite String.eqb_refl. f_equal.
    apply filter_none. intros y Hy. apply String.eqb_neq.
    intros E. apply Hni. rewrite <- E. apply in_map. exact Hy.
  - destruct (String.eqb_spec (f a) (f x)) as [E|E].
    + exfalso. apply Hni. rewrite E. apply in_map. exact Hin.
    + apply IH; assumption.
Qed.

Lemma filter_of_map {A B} (g : A -> B) (p : B -> bool) (l : list A) :
  filter p (map g l) = map g (filter (fun a => p (g a)) l).
Proof.
  induction l as [|a l IH]; [reflexivity|]. cbn.
  destruct (p (g a)); cbn; rewrite IH; reflexivity.
Qed.

Lemma stored_rows_of t ds : forall k d,
  In d ds ->
  exists e, In e (stored_rows new_endpoint_id t k ds)
            /\ e_endpoint_path e = d_endpoint_path d
            /\ e_original_url e = d_original_url d
            /\ e_price_microstx e = d_price_microstx d.
Proof.
  induction ds as [|d0 ds IH]; intros k d Hin; [destruct Hin|].
  destruct Hin as [->|Hin].
  - eexists. split; [left; reflexivity|]. cbn. auto.
  - destruct (IH (S k) d Hin) as (e & He & H). exists e. split; [right; exact He | exact H].
Qed.

(** X23.  What an owner registers is what the proxy serves.  After a POST that
    goes through, made by a user who has a username held by no other user,
    with endpoints of distinct paths, every address
    [/username/slug/path] of the request resolves in the proxy to exactly
    one row: the new endpoint, active, with the original URL and the price
    of the request (a price that is not negative), paid to the wallet of
    the owner. *)
Theorem created_endpoint_resolves userId body s inputs owner name :
  api_fault OpFindSlug = NoFault ->
  api_fault OpInsertApi = NoFault ->
  api_fault OpInsertEndpoints = NoFault ->
  Js.truthy_opt (b_apiName body) = true ->
  matches_slug (Js.or_default (b_apiNameSlug body) EmptyString) = true ->
  (forall a, In a (apis_table (tables s)) -> a_user_id a = userId ->
             a_api_name_slug a <> Js.or_default (b_apiNameSlug body) EmptyString) ->
  b_endpoints body = Some inputs ->
  forallb (fun i => matches_slug (Js.or_default (i_endpointPath i) EmptyString)) inputs = true ->
  NoDup (map (fun i => Js.or_default (i_endpointPath i) EmptyString) inputs) ->
  fresh_api_id (new_api_id (tables s)) (tables s) ->
  NoDup (map u_id (users_table (tables s))) ->
  In owner (users_table (tables s)) ->
  u_id owner = userId ->
  u_username owner = Some name ->
  (forall u, In u (users_table (tables s)) -> u_username u = Some name -> u = owner) ->
  (forall i, In i inputs -> (0 <= microstx (i_price i))%Z) ->
  let out := create_api' userId body s in
  fst out = inr (api_created api_json (new_api new_api_id userId body (tables s)))
  /\ forall i, In i inputs ->
       exists row,
         filter (resolves name (Js.or_default (b_apiNameSlug body) EmptyString)
                          (Js.or_default (i_endpointPath i) EmptyString))
                (joined (tables (snd out))) = [row]
         /\ original_url row = Js.or_default (i_originalUrl i) EmptyString
         /\ Z.of_N (price_microstx row) = microstx (i_price i)
         /\ monetized_url row = None
         /\ wallet_address (users (apis row)) = u_wallet_address owner.
Proof.
  intros Hf Hi He Hn Hs Hnone Hin Hok Hpaths (Hfa & Hfe) Hids Hown Hid Hname Huniq Hprice out.
  subst out. rewrite (@create_reaches_endpoints userId body s Hf Hi Hn Hs Hnone).
  set (t := tables s) in *. set (api := new_api new_api_id userId body t).
  set (slug := Js.or_default (b_apiNameSlug body) EmptyString) in *.
  unfold create_endpoints. rewrite Hin.
  destruct inputs as [|i0 inputs']; [rrun; split; [reflexivity | intros i []]|].
  set (inputs := i0 :: inputs') in *.
  assert (Hfind : find (fun d => negb (matches_slug (d_endpoint_path d)))
                       (map (created_data microstx (a_id api)) inputs) = None).
  { revert Hok. generalize inputs. intros l. induction l as [|i l IH]; [reflexivity|].
    cbn. destruct (matches_slug (Js.or_default (i_endpointPath i) EmptyString)); cbn;
      [exact IH | discriminate]. }
  rewrite Hfind, r_run_bind. unfold insert_endpoints. rewrite He. rrun.
  split; [reflexivity|].
  set (rows := stored_rows new_endpoint_id (with_api t api) 0
                           (map (created_data microstx (a_id api)) inputs)).
  intros i Hi_in.
  set (path := Js.or_default (i_endpointPath i) EmptyString).
  unfold joined, with_endpoints, with_api. cbn [users_table apis_table endpoints_table].
  rewrite flat_map_app, filter_app.
  (* the rows that were there do not carry the three names *)
  assert (Hold : filter (resolves name slug path)
                        (flat_map (join_endpoint (users_table t) (apis_table t ++ [api]))
                                  (endpoints_table t)) = []).
  { apply filter_none. intros r Hr.
    apply in_flat_map in Hr. destruct Hr as (e & He_in & Hr).
    unfold join_endpoint in Hr. apply in_flat_map in Hr. destruct Hr as (a & Ha & Hr).
    apply in_map_iff in Hr. destruct Hr as (u & <- & Hu).
    apply filter_In in Ha. destruct Ha as (Ha & Haid). apply String.eqb_eq in Haid.
    apply filter_In in Hu. destruct Hu as (Hu & Huid). apply String.eqb_eq in Huid.
    unfold resolves, names_match. cbn.
    destruct (opt_string_eqb (u_username u) (Some name)) eqn:En; [|reflexivity].
    destruct (String.eqb_spec (a_api_name_slug a) slug) as [Es|Es]; [|reflexivity].
    exfalso.
    assert (Hu' : u_username u = Some name).
    { unfold opt_string_eqb in En. destruct (u_username u) as [n|]; [|discriminate].
      apply String.eqb_eq in En. congruence. }
    rewrite (Huniq u Hu Hu') in Huid.
    apply in_app_or in Ha. destruct Ha as [Ha|[<-|[]]].
    - apply (Hnone a Ha); [congruence | exact Es].
    - apply (Hfe e He_in). symmetry. exact Haid. }
  rewrite Hold. cbn [app].
  (* the new rows join the new API and its owner *)
  assert (Hnew : forall e, In e rows ->
                   join_endpoint (users_table t) (apis_table t ++ [api]) e
                   = [join_row e api owner]).
  { intros e He_in. unfold join_endpoint.
    assert (Hapi : e_api_id e = a_id api).
    { eapply stored_rows_api; [exact He_in|].
      intros d Hd. apply in_map_iff in Hd. destruct Hd as (x & <- & _). reflexivity. }
    rewrite Hapi, filter_app.
    rewrite (filter_none _ (apis_table t))
      by (intros a Ha; apply String.eqb_neq; exact (Hfa a Ha)).
    cbn. rewrite String.eqb_refl. cbn. rewrite app_nil_r.
    rewrite <- Hid. rewrite (filter_unique_by u_id _ owner Hids Hown). reflexivity. }
  assert (Hflat : flat_map (join_endpoint (users_table t) (apis_table t ++ [api])) rows
                  = map (fun e => join_row e api owner) rows).
  { revert Hnew. generalize rows. intros l Hl. induction l as [|e l IH]; [reflexivity|].
    cbn. rewrite (Hl e (or_introl eq_refl)). cbn. f_equal.
    apply IH. intros e' He'. apply Hl. right. exact He'. }
  rewrite Hflat, filter_of_map.
  destruct (stored_rows_of (with_api t api) _ 0 (created_data microstx (a_id api) i)
              (in_map _ _ _ Hi_in)) as (e & He_in & Hp & Hu & Hpr).
  fold rows in He_in. cbn in Hp, Hu, Hpr.
  assert (Hsel : filter (fun e0 => resolves name slug path (join_row e0 api owner)) rows
                 = filter (fun e0 => String.eqb (e_endpoint_path e0) (e_endpoint_path e)) rows).
  { apply filter_ext_in. intros e0 He0.
    destruct (stored_rows_in _ _ _ _ He0) as (d & Hd & _ & _ & Hact & _).
    apply in_map_iff in Hd. destruct Hd as (x & <- & _). cbn in Hact.
    unfold resolves, names_match. cbn. rewrite Hname, Hact. cbn.
    rewrite !String.eqb_refl. cbn. rewrite Hp. fold path.
    destruct (String.eqb (e_endpoint_path e0) path); reflexivity. }
  rewrite Hsel.
  rewrite (filter_unique_by e_endpoint_path rows e).
  - exists (join_row e api owner). split; [reflexivity|]. cbn.
    rewrite Hu, Hpr. split; [reflexivity|].
    split; [apply Z2N.id, Hprice; exact Hi_in|]. split; [|reflexivity].
    destruct (stored_rows_in _ _ _ _ He_in) as (d & _ & _ & _ & _ & Hm). exact Hm.
  - unfold rows. rewrite stored_rows_paths, map_map. exact Hpaths.
  - exact He_in.
Qed.

End ManagementFacts.

(* ===================================================================== *)
(** * Wallets and usernames                                               *)
(* ===================================================================== *)

Lemma in_usernames n (l : list UserRow) :
  In n (usernames l) <-> exists u, In u l /\ u_username u = Some n.
Proof.
  unfold usernames. rewrite in_flat_map. split.
  - intros (u & Hu & Hin). exists u. split; [exact Hu|].
    destruct (u_username u) as [m|]; [|destruct Hin].
    destruct Hin as [->|[]]. reflexivity.
  - intros (u & Hu & E). exists u. split; [exact Hu|]. rewrite E. left. reflexivity.
Qed.

Lemma renamed_nobody wallet n (l : list UserRow) :
  (forall u, In u l -> u_wallet_address u <> wallet) ->
  map (fun u => if String.eqb (u_wallet_address u) wallet then named n u else u) l = l.
Proof.
  intros H. induction l as [|u l IH]; [reflexivity|]. cbn.
  destruct (String.eqb_spec (u_wallet_address u) wallet) as [E|E].
  - destruct (H u (or_introl eq_refl) E).
  - rewrite IH; [reflexivity|]. intros u' Hu'. apply H. right. exact Hu'.
Qed.

Lemma rename_keeps_unique wallet n (l : list UserRow) :
  NoDup (map u_wallet_address l) ->
  NoDup (usernames l) ->
  ~ In n (usernames l) ->
  NoDup (usernames (map (fun u => if String.eqb (u_wallet_address u) wallet
                                  then named n u else u) l)).
Proof.
  induction l as [|u l IH]; intros Hw Hn Hfree; [constructor|].
  cbn in Hw. apply NoDup_cons_iff in Hw. destruct Hw as (Hw1 & Hw).
  assert (Hrest : NoDup (usernames l)).
  { unfold usernames in Hn |- *. cbn in Hn. apply NoDup_app_remove_l in Hn. exact Hn. }
  assert (Hfree' : ~ In n (usernames l)).
  { intros H. apply Hfree. unfold usernames. cbn. apply in_or_app. right. exact H. }
  cbn [map]. destruct (String.eqb_spec (u_wallet_address u) wallet) as [E|E].
  - rewrite renamed_nobody.
    + unfold usernames. cbn. constructor; [exact Hfree' | exact Hrest].
    + intros u' Hu' E'. apply Hw1. rewrite E, <- E'. apply in_map. exact Hu'.
  - unfold usernames. cbn [flat_map]. fold (usernames (map (fun u0 =>
        if String.eqb (u_wallet_address u0) wallet then named n u0 else u0) l)).
    destruct (u_username u) as [m|] eqn:Em; [|exact (IH Hw Hrest Hfree')].
    cbn. constructor; [|exact (IH Hw Hrest Hfree')].
    intros Hin. apply in_usernames in Hin. destruct Hin as (v & Hv & Ev).
    apply in_map_iff in Hv. destruct Hv as (v0 & <- & Hv0).
    destruct (String.eqb (u_wallet_address v0) wallet).
    + cbn in Ev. inversion Ev; subst m. apply Hfree. unfold usernames. cbn.
      rewrite Em. left. reflexivity.
    + unfold usernames in Hn. cbn in Hn. rewrite Em in Hn. cbn in Hn.
      apply NoDup_cons_iff in Hn. apply (proj1 Hn).
      apply in_usernames. exists v0. auto.
Qed.

Lemma renamed_wallets wallet n (l : list UserRow) :
  map u_wallet_address
      (map (fun u => if String.eqb (u_wallet_address u) wallet then named n u else u) l)
  = map u_wallet_address l.
Proof.
  rewrite map_map. apply map_ext. intros u.
  destruct (String.eqb (u_wallet_address u) wallet); reflexivity.
Qed.

Lemma unique_with_last {A} (l : list A) (x : A) :
  NoDup l -> ~ In x l -> NoDup (l ++ [x]).
Proof.
  induction l as [|a l IH]; intros Hnd Hx; cbn.
  - constructor; [intros [] | constructor].
  - apply NoDup_cons_iff in Hnd. destruct Hnd as (Ha & Hnd). constructor.
    + rewrite in_app_iff. intros [H|[H|[]]]; [exact (Ha H)|].
      apply Hx. left. symmetry. exact H.
    + apply IH; [exact Hnd|]. intros H. apply Hx. right. exact H.
Qed.

Lemma named_same n u : u_username u = Some n -> named n u = u.
Proof. intros H. destruct u. cbn in *. subst. reflexivity. Qed.

Section AccountFacts.

Variable auth_fault : AuthOp -> Fault.
Variable isValidStacksAddress : string -> bool.
Variable info_network : string.
Variable info_isTestnet : bool.
Variable new_user_id : Tables -> string.
Variable user_json : UserRow -> Json.
Variable rolls_back : bool.

Local Abbreviation register_wallet' :=
  (register_wallet auth_fault isValidStacksAddress info_network info_isTestnet
                   new_user_id user_json).
Local Abbreviation set_username' := (set_username auth_fault user_json rolls_back).


(** *** Usernames *)

Lemma unique_holder n (l : list UserRow) h :
  NoDup (usernames l) -> In h l -> u_username h = Some n ->
  filter (fun u => opt_string_eqb (u_username u) (Some n)) l = [h].
Proof.
  induction l as [|u l IH]; intros Hnd Hin Hn; [destruct Hin|].
  assert (Hrest : NoDup (usernames l)).
  { unfold usernames in Hnd |- *. cbn in Hnd. apply NoDup_app_remove_l in Hnd. exact Hnd. }
  assert (Hhead : u_username u = Some n -> ~ In n (usernames l)).
  { intros E. unfold usernames in Hnd. cbn in Hnd. rewrite E in Hnd. cbn in Hnd.
    apply NoDup_cons_iff in Hnd. exact (proj1 Hnd). }
  assert (Hnone : ~ In n (usernames l) ->
                  filter (fun u => opt_string_eqb (u_username u) (Some n)) l = []).
  { intros Hfree. apply filter_none. intros v Hv.
    destruct (u_username v) as [m|] eqn:Em; [|reflexivity]. cbn.
    apply String.eqb_neq. intros ->. apply Hfree. apply in_usernames. exists v. auto. }
  cbn. destruct Hin as [->|Hin].
  - rewrite Hn. cbn. rewrite String.eqb_refl. f_equal. exact (Hnone (Hhead Hn)).
  - destruct (u_username u) as [m|] eqn:Em; cbn.
    + destruct (String.eqb_spec m n) as [->|Hne]; [|exact (IH Hrest Hin Hn)].
      exfalso. apply (Hhead eq_refl). apply in_usernames. exists h. auto.
    + exact (IH Hrest Hin Hn).
Qed.

Lemma in_usernames_renamed wallet n m (l : list UserRow) :
  In m (usernames (map (fun u => if String.eqb (u_wallet_address u) wallet
                                 then named n u else u) l)) ->
  m = n \/ In m (usernames l).
Proof.
  intros H. apply in_usernames in H. destruct H as (v & Hv & Ev).
  apply in_map_iff in Hv. destruct Hv as (v0 & <- & Hv0).
  destruct (String.eqb (u_wallet_address v0) wallet).
  - cbn in Ev. left. congruence.
  - right. apply in_usernames. exists v0. auto.
Qed.

Lemma update_username_run ft wallet n s :
  wallets_unique (tables s) ->
  exists r s',
    update_username rolls_back ft wallet n s = (r, s')
    /\ (tables s' = tables s \/ tables s' = with_username wallet n (tables s)).
Proof.
  intros Hw. unfold update_username. destruct ft as [|e|e]; rrun; eauto.
  destruct (filter (fun u => String.eqb (u_wallet_address u) wallet) (users_table (tables s)))
    as [|u0 [|u1 rest]] eqn:Efl; rrun; eauto.
  exfalso. unfold wallets_unique in Hw.
  pose proof (kept_keys_unique u_wallet_address
                (fun u => String.eqb (u_wallet_address u) wallet) _ Hw) as Hk.
  rewrite Efl in Hk. cbn in Hk. apply NoDup_cons_iff in Hk. apply (proj1 Hk). left.
  assert (H0 : In u0 (filter (fun u => String.eqb (u_wallet_address u) wallet)
                             (users_table (tables s))))
    by (rewrite Efl; left; reflexivity).
  assert (H1 : In u1 (filter (fun u => String.eqb (u_wallet_address u) wallet)
                             (users_table (tables s))))
    by (rewrite Efl; right; left; reflexivity).
  apply filter_In in H0, H1. destruct H0 as (_ & H0), H1 as (_ & H1).
  apply String.eqb_eq in H0, H1. congruence.
Qed.


End AccountFacts.

(* ===================================================================== *)
(** * The network configuration                                           *)
(* ===================================================================== *)

(** X26.  The settings of [networkConfig] agree when [NETWORK], in lower case, is
    "mainnet" or "testnet" (or is not set, which gives "testnet").  For any
    other name the settings are mixed: the API and the network object are
    those of the testnet, while [isTestnet] is false and the explorer is the
    one of the mainnet.  The network the proxy hands to the payment
    middleware is the same variable without the lower-casing. *)
Theorem network_settings_agree_on_known_names (setting : option string) :
  let c := networkConfig setting in
  (nc_network c = "mainnet" ->
   nc_stacksNetwork c = STACKS_MAINNET /\ nc_apiUrl c = "https://api.hiro.so"
   /\ nc_isTestnet c = false /\ nc_explorerUrl c = "https://explorer.stacks.co")
  /\ (nc_network c = "testnet" ->
      nc_stacksNetwork c = STACKS_TESTNET /\ nc_apiUrl c = "https://api.testnet.hiro.so"
      /\ nc_isTestnet c = true
      /\ nc_explorerUrl c = "https://explorer.stacks.co/?chain=testnet")
  /\ (nc_network c <> "mainnet" -> nc_network c <> "testnet" ->
      nc_stacksNetwork c = STACKS_TESTNET /\ nc_apiUrl c = "https://api.testnet.hiro.so"
      /\ nc_isTestnet c = false /\ nc_explorerUrl c = "https://explorer.stacks.co")
  /\ (Js.truthy_opt setting = false -> nc_network c = "testnet")
  /\ (forall env, NETWORK env = setting ->
                  nc_network c = Js.toLowerCase (network_of_env env)).
Proof.
  intros c. subst c. unfold networkConfig. cbn.
  set (network := Js.toLowerCase (Js.or_default setting "testnet")).
  split; [|split; [|split; [|split]]].
  - intros E. rewrite E. cbn. auto.
  - intros E. rewrite E. cbn. auto.
  - intros H1 H2. apply String.eqb_neq in H1, H2. rewrite H1, H2. auto.
  - intros H. subst network. destruct setting as [[|c r]|]; try discriminate; reflexivity.
  - intros env <-. reflexivity.
Qed.

(* ===================================================================== *)
(** ** Instances on the registry of [Office]                              *)
(* ===================================================================== *)

Lemma strangers_change_nothing_witness :
  tables (snd (Office.put Office.healthy "u-2" "api-1" (Office.replace_with []) Office.books))
  = Office.books
  /\ tables (snd (Office.del Office.healthy "u-2" "api-1" Office.books)) = Office.books
  /\ fst (Office.del Office.healthy "u-2" "api-1" Office.books) = inr api_not_found.
Proof.
  destruct (@strangers_change_nothing
              Office.healthy Office.next_endpoint Office.price_of true "u-2" "api-1"
              (Office.replace_with []) (site Office.books))
    as (H1 & H2 & _ & H3).
  - intros a [<-|[]] _. discriminate.
  - split; [exact H1|]. split; [exact H2 | exact H3].
Defined.

Lemma creation_only_adds_checked_rows_witness :
  fresh_api_id (Office.next_api Office.books) Office.books
  /\ users_table (tables (snd (Office.post Office.healthy "u-1" (Office.sea [Office.tides])
                                           Office.books)))
     = users_table Office.books.
Proof.
  assert (H : fresh_api_id (Office.next_api Office.books) Office.books).
  { split.
    - intros a [<-|[]]. discriminate.
    - intros e [<-|[]]. discriminate. }
  split; [exact H|].
  exact (proj1 (@creation_only_adds_checked_rows
                  Office.healthy Office.next_api Office.next_endpoint Office.price_of
                  Office.row_json true "u-1" (Office.sea [Office.tides])
                  (site Office.books) H)).
Defined.


Lemma invalid_path_leaves_the_api_behind_witness :
  map a_api_name_slug
      (apis_table (tables (snd (Office.post Office.healthy "u-1"
                                            (Office.sea [Office.tides; Office.bad_path])
                                            Office.books))))
  = ["weather"; "sea"]
  /\ fst (create_api Office.healthy Office.next_api Office.next_endpoint Office.price_of
                     Office.row_json true "u-1" (Office.sea [Office.tides])
                     (snd (Office.post Office.healthy "u-1"
                                       (Office.sea [Office.tides; Office.bad_path])
                                       Office.books)))
     = inr (json_response 400 (failure "API name already exists")).
Proof.
  destruct (@invalid_path_leaves_the_api_behind
              Office.healthy Office.next_api Office.next_endpoint Office.price_of
              Office.row_json true "u-1" (Office.sea [Office.tides; Office.bad_path])
              (site Office.books) [Office.tides; Office.bad_path]
              eq_refl eq_refl eq_refl eq_refl
              ltac:(intros a [<-|[]] _; discriminate)
              eq_refl eq_refl)
    as (_ & Ht & Hagain).
  split.
  - unfold Office.post. rewrite Ht. reflexivity.
  - unfold Office.post. rewrite (Hagain (Office.sea [Office.tides]) eq_refl eq_refl).
    reflexivity.
Defined.

Lemma failed_endpoints_are_rolled_back_witness :
  fresh_api_id (Office.next_api Office.books) Office.books
  /\ Office.endpoints_fail OpRollback = NoFault
  /\ tables (snd (Office.post Office.endpoints_fail "u-1" (Office.sea [Office.tides])
                              Office.books))
     = Office.books.
Proof.
  assert (H : fresh_api_id (Office.next_api Office.books) Office.books).
  { split.
    - intros a [<-|[]]. discriminate.
    - intros e [<-|[]]. discriminate. }
  split; [exact H|]. split; [reflexivity|].
  exact (proj2 (proj1 (@failed_endpoints_are_rolled_back
                         Office.endpoints_fail Office.next_api Office.next_endpoint
                         Office.price_of Office.row_json true "u-1"
                         (Office.sea [Office.tides]) (site Office.books)
                         Office.tides [] Demo.fetch_failed
                         eq_refl eq_refl eq_refl eq_refl eq_refl
                         ltac:(intros a [<-|[]] _; discriminate)
                         eq_refl eq_refl H)
                      eq_refl)).
Defined.

Lemma update_replaces_endpoints_unchecked_witness :
  matches_slug "v1/Tides" = false
  /\ map e_endpoint_path
         (endpoints_of "api-1"
            (tables (snd (Office.put Office.healthy "u-1" "api-1"
                                     (Office.replace_with [Office.bad_path]) Office.books))))
     = ["v1/Tides"].
Proof.
  split; [reflexivity|].
  destruct (proj1 (@update_replaces_endpoints_unchecked
                     Office.healthy Office.next_endpoint Office.price_of "u-1" "api-1"
                     (Office.replace_with [Office.bad_path]) (site Office.books)
                     Office.weather [Office.bad_path]
                     eq_refl eq_refl eq_refl eq_refl eq_refl)
                  eq_refl)
    as (_ & H & _).
  exact H.
Defined.

Lemma created_endpoint_resolves_witness :
  exists row,
    filter (resolves "alice" "sea" "tides")
           (joined (tables (snd (Office.post Office.healthy "u-1" (Office.sea [Office.tides])
                                             Office.books))))
    = [row]
    /\ original_url row = "https://origin.example/v1/tides"
    /\ Z.of_N (price_microstx row) = 20000%Z
    /\ monetized_url row = None
    /\ wallet_address (users (apis row)) = "SP2DEVELOPER".
Proof.
  refine (proj2 (@created_endpoint_resolves
                   Office.healthy Office.next_api Office.next_endpoint Office.price_of
                   Office.row_json true "u-1" (Office.sea [Office.tides])
                   (site Office.books) [Office.tides] Office.alice "alice"
                   eq_refl eq_refl eq_refl eq_refl eq_refl _ eq_refl eq_refl _ _ _
                   _ eq_refl eq_refl _ _)
                Office.tides (or_introl eq_refl)).
  - intros a [<-|[]] _. discriminate.
  - repeat constructor; cbn; intuition discriminate.
  - split.
    + intros a [<-|[]]. discriminate.
    + intros e [<-|[]]. discriminate.
  - repeat constructor; cbn; intuition discriminate.
  - left. reflexivity.
  - intros u [<-|[<-|[]]] H; [reflexivity | discriminate].
  - intros i [<-|[]]. cbn. lia.
Defined.


